(** * little-tsp: the condensed cost matrix of Little's algorithm

    A shallow embedding of [src/tsp_solver/little_tsp/cost_matrix.cpp]:
    construction of the condensed matrix from a graph and the include and
    exclude edge sets, the row-then-column reduction, cell access through
    the two index mappings, and the iterators over a row or column view and
    over the whole matrix.

    Conventions of the model.
    - Vertex ids and condensed indices are C++ [int]s that the code only
      ever uses as non-negative container positions; they are [nat] here.
    - The value of a cost cell is the specification's number ([Z]): the
      cell type lives in a header that is not part of the sources.
    - The accumulator [int decremented] of [ReduceMatrix], which is also its
      return value, is a C++ [int]: 32 bits, two's complement.  Additions to
      it wrap around, as the compiled code does; in C++ the overflow itself
      is undefined behaviour.
    - A function that can throw, fail an [assert], or touch storage
      out of range returns a [result]; [assert] is modelled as compiled in.
    - Mutated objects are passed and returned explicitly. *)

From stdpp Require Import base numbers list gmap.

Set Default Proof Using "Type".
Open Scope Z_scope.
Open Scope nat_scope.

(** ** Failures *)

Inductive error :=
  | NotAvailableError   (* the exception thrown by GetCondensedRowNum/ColumnNum *)
  | AssertionFailure    (* a failed assert *)
  | OutOfRange          (* storage touched outside its bounds: undefined behaviour
                           (for [at()] on a mapping, std::out_of_range) *)
  | DivisionByZero      (* [%] with a zero divisor: undefined behaviour *)
  | OutOfFuel.          (* the model's loop bound was reached *)

Inductive result (A : Type) :=
  | Ok (a : A)
  | Err (e : error).
Arguments Ok {A} a.
Arguments Err {A} e.

#[global] Instance result_ret : MRet result := fun A a => Ok a.
#[global] Instance result_bind : MBind result :=
  fun A B f m => match m with Ok a => f a | Err e => Err e end.

#[global] Instance result_fmap : FMap result :=
  fun A B f m => match m with Ok a => Ok (f a) | Err e => Err e end.

Definition is_Ok {A} (r : result A) : bool :=
  match r with Ok _ => true | Err _ => false end.

(** A counted loop [for (int i{0}; i < n; ++i) body], threading the state. *)
Fixpoint for_range_from {St : Type} (i n : nat) (body : nat -> St -> result St)
    (s : St) : result St :=
  match n with
  | 0 => Ok s
  | S n' => s' ← body i s; for_range_from (S i) n' body s'
  end.

Definition for_range {St : Type} (n : nat) (body : nat -> St -> result St)
    (s : St) : result St := for_range_from 0 n body s.

(** ** Edge (edge.hpp) *)

(** Modelled from the spec: the header edge.hpp is missing.  An ordered
    pair (origin vertex [u], destination vertex [v]). *)
Record Edge := { u : nat; v : nat }.

#[global] Instance Edge_eq_dec : EqDecision Edge.
Proof. solve_decision. Defined.

(** ** CostMatrixInteger (cost_matrix_integer.hpp) *)

(** Modelled from the spec: the header cost_matrix_integer.hpp is missing.
    A cost cell is [{value, isInfinite, sourceEdge}]. *)
Record CostMatrixInteger := {
  value : Z;
  infinite : bool;
  edge : Edge;
}.

#[global] Instance CostMatrixInteger_eq_dec : EqDecision CostMatrixInteger.
Proof. solve_decision. Defined.

(** Modelled from the spec: the constructor [CostMatrixInteger{cost, edge}]
    is missing; it holds the finite cost and its provenance. *)
Definition mkCostMatrixInteger (cost : Z) (e : Edge) : CostMatrixInteger :=
  {| value := cost; infinite := false; edge := e |}.

(** Modelled from the spec: a default-constructed cell is missing; it is what
    [Matrix::SetSize] fills fresh storage with. *)
Definition default_cell : CostMatrixInteger :=
  mkCostMatrixInteger 0 {| u := 0; v := 0 |}.

(** Modelled from the spec: [IsInfinite()] is missing. *)
Definition IsInfinite (c : CostMatrixInteger) : bool := infinite c.

(** Modelled from the spec: [SetInfinite()] is missing; the explicit
    "set infinite" mutation. *)
Definition SetInfinite (c : CostMatrixInteger) : CostMatrixInteger :=
  {| value := value c; infinite := true; edge := edge c |}.

(** Modelled from the spec: [operator()()] is missing; it reads the value. *)
Definition cost_of (c : CostMatrixInteger) : Z := value c.

(** Modelled from the spec: [operator-=] is missing.  Subtraction in place;
    on an infinite cell it is a no-op (the cell stays infinite). *)
Definition cmi_sub (elt m : CostMatrixInteger) : CostMatrixInteger :=
  if infinite elt then elt
  else {| value := (value elt - value m)%Z; infinite := false; edge := edge elt |}.

(** Modelled from the spec: [operator<] is missing.  An infinite cell is
    larger than any finite value. *)
Definition cmi_lt (a b : CostMatrixInteger) : bool :=
  if infinite a then false
  else if infinite b then true
  else (value a <? value b)%Z.

(** ** Matrix<T> (matrix.hpp) *)

(** Modelled from the spec: the header matrix.hpp is missing.  Plain
    rectangular storage with a row count, a column count and [(row, col)]
    access. *)
Record Matrix (T : Type) := {
  num_rows_ : nat;
  num_columns_ : nat;
  data_ : list (list T);
}.
Arguments num_rows_ {T} m.
Arguments num_columns_ {T} m.
Arguments data_ {T} m.

Section Matrix.
Context {T : Type}.

(** Modelled from the spec: [SetSize] of the missing matrix.hpp; fresh
    storage of the given size, every cell default-constructed ([d]). *)
Definition SetSize (rows columns : nat) (d : T) : Matrix T :=
  {| num_rows_ := rows; num_columns_ := columns;
     data_ := replicate rows (replicate columns d) |}.

(** Modelled from the spec: [GetNumRows] of the missing matrix.hpp. *)
Definition GetNumRows (m : Matrix T) : nat := num_rows_ m.

(** Modelled from the spec: [GetNumColumns] of the missing matrix.hpp. *)
Definition GetNumColumns (m : Matrix T) : nat := num_columns_ m.

(** The cell stored at [(r, c)], if there is one. *)
Definition cell_at (m : Matrix T) (r c : nat) : option T :=
  data_ m !! r ≫= fun row => row !! c.

(** Modelled from the spec: [operator()(row, col)] of the missing
    matrix.hpp, read; outside the bounds it is undefined behaviour. *)
Definition Matrix_get (m : Matrix T) (r c : nat) : result T :=
  if decide (r < GetNumRows m ∧ c < GetNumColumns m) then
    match cell_at m r c with Some x => Ok x | None => Err OutOfRange end
  else Err OutOfRange.

(** Modelled from the spec: [operator()(row, col)] of the missing
    matrix.hpp, as a mutable reference: the cell becomes [f] of itself. *)
Definition Matrix_update (m : Matrix T) (r c : nat) (f : T -> T) : result (Matrix T) :=
  if decide (r < GetNumRows m ∧ c < GetNumColumns m) then
    match cell_at m r c with
    | Some _ =>
        Ok {| num_rows_ := num_rows_ m; num_columns_ := num_columns_ m;
              data_ := alter (alter f c) r (data_ m) |}
    | None => Err OutOfRange
    end
  else Err OutOfRange.

(** The storage really is [num_rows_ × num_columns_]. *)
Definition Matrix_wf (m : Matrix T) : Prop :=
  length (data_ m) = num_rows_ m ∧
  Forall (fun row => length row = num_columns_ m) (data_ m).

(** Every cell rewritten by a function of its position. *)
Definition Matrix_imap (g : nat -> nat -> T -> T) (m : Matrix T) : Matrix T :=
  {| num_rows_ := num_rows_ m; num_columns_ := num_columns_ m;
     data_ := imap (fun i row => imap (g i) row) (data_ m) |}.

End Matrix.

(** ** Graph (graph/graph.hpp) *)

(** Modelled from the spec: the header graph/graph.hpp is missing.  A graph
    exposes its vertex count and a cost [graph(i, j)] for every ordered pair. *)
Record Graph := {
  GetNumVertices : nat;
  graph_cost : nat -> nat -> Z;
}.

(** ** CostMatrix: the condensed matrix and its two index mappings *)

Record CostMatrix := {
  cost_matrix_ : Matrix CostMatrixInteger;
  row_mapping_ : gmap nat nat;
  column_mapping_ : gmap nat nat;
}.

(** Modelled from the spec: [IsRowAvailable] is declared in the missing
    cost_matrix.hpp; the row mapping contains exactly the vertices that
    remain available as rows. *)
Definition IsRowAvailable (cm : CostMatrix) (row_num : nat) : bool :=
  bool_decide (is_Some (row_mapping_ cm !! row_num)).

(** Modelled from the spec: [IsColumnAvailable] is declared in the missing
    cost_matrix.hpp; the column mapping contains exactly the vertices that
    remain available as columns. *)
Definition IsColumnAvailable (cm : CostMatrix) (column_num : nat) : bool :=
  bool_decide (is_Some (column_mapping_ cm !! column_num)).

Definition GetCondensedRowNum (cm : CostMatrix) (row_num : nat) : result nat :=
  if negb (IsRowAvailable cm row_num) then Err NotAvailableError
  else match row_mapping_ cm !! row_num with   (* row_mapping_.at(row_num) *)
       | Some r => Ok r
       | None => Err OutOfRange
       end.

Definition GetCondensedColumnNum (cm : CostMatrix) (column_num : nat) : result nat :=
  if negb (IsColumnAvailable cm column_num) then Err NotAvailableError
  else match column_mapping_ cm !! column_num with
       | Some c => Ok c
       | None => Err OutOfRange
       end.

(** [operator()(const Edge&)] and [operator()(int, int)], read. *)
Definition CostMatrix_at_edge (cm : CostMatrix) (e : Edge) : result CostMatrixInteger :=
  r ← GetCondensedRowNum cm (u e);
  c ← GetCondensedColumnNum cm (v e);
  Matrix_get (cost_matrix_ cm) r c.

Definition CostMatrix_at (cm : CostMatrix) (row_num column_num : nat)
  : result CostMatrixInteger :=
  CostMatrix_at_edge cm {| u := row_num; v := column_num |}.

(** The same two operators used as a mutable reference: the cell they
    resolve to is rewritten by [f]. *)
Definition CostMatrix_update_edge (cm : CostMatrix) (e : Edge)
    (f : CostMatrixInteger -> CostMatrixInteger) : result CostMatrix :=
  r ← GetCondensedRowNum cm (u e);
  c ← GetCondensedColumnNum cm (v e);
  m' ← Matrix_update (cost_matrix_ cm) r c f;
  Ok {| cost_matrix_ := m'; row_mapping_ := row_mapping_ cm;
        column_mapping_ := column_mapping_ cm |}.

Definition CostMatrix_update (cm : CostMatrix) (row_num column_num : nat)
    (f : CostMatrixInteger -> CostMatrixInteger) : result CostMatrix :=
  CostMatrix_update_edge cm {| u := row_num; v := column_num |} f.

(** ** CostVector, CostRow, CostColumn: views of one row or one column *)

(** The view's pointer to the matrix is the matrix passed along with it. *)
Inductive CostVector :=
  | CostRow (row_num_ : nat)
  | CostColumn (column_num_ : nat).

#[global] Instance CostVector_eq_dec : EqDecision CostVector.
Proof. solve_decision. Defined.

(** Modelled from the spec: the virtual [GetRow(cell_num)] of the views is
    declared in the missing cost_matrix.hpp.  A row view fixes the row, a
    column view varies it. *)
Definition CostVector_GetRow (cv : CostVector) (cell_num : nat) : nat :=
  match cv with CostRow r => r | CostColumn _ => cell_num end.

(** Modelled from the spec: the virtual [GetColumn(cell_num)] of the views
    is declared in the missing cost_matrix.hpp.  A row view varies the
    column, a column view fixes it. *)
Definition CostVector_GetColumn (cv : CostVector) (cell_num : nat) : nat :=
  match cv with CostRow _ => cell_num | CostColumn c => c end.

(** Modelled from the spec: [Size()] of the views is declared in the
    missing cost_matrix.hpp.  A view is as long as the axis it varies over. *)
Definition CostVector_Size (m : Matrix CostMatrixInteger) (cv : CostVector) : nat :=
  match cv with CostRow _ => GetNumColumns m | CostColumn _ => GetNumRows m end.

(** [CostVector::operator[]], read and as a mutable reference. *)
Definition CostVector_at (m : Matrix CostMatrixInteger) (cv : CostVector)
    (cell_num : nat) : result CostMatrixInteger :=
  Matrix_get m (CostVector_GetRow cv cell_num) (CostVector_GetColumn cv cell_num).

Definition CostVector_update (m : Matrix CostMatrixInteger) (cv : CostVector)
    (cell_num : nat) (f : CostMatrixInteger -> CostMatrixInteger)
  : result (Matrix CostMatrixInteger) :=
  Matrix_update m (CostVector_GetRow cv cell_num) (CostVector_GetColumn cv cell_num) f.

(** [CostMatrix::GetRow] and [CostMatrix::GetColumn]. *)
Definition GetRow (cm : CostMatrix) (row_num : nat) : result CostVector :=
  r ← GetCondensedRowNum cm row_num; Ok (CostRow r).
Definition GetColumn (cm : CostMatrix) (column_num : nat) : result CostVector :=
  c ← GetCondensedColumnNum cm column_num; Ok (CostColumn c).

(** ** CostVector::Iterator *)

Record CostVector_Iterator := {
  cost_vector_ptr_ : CostVector;
  traversing_cell_index_ : nat;
}.

(** Modelled from the spec: [begin()] of a view is declared in the missing
    cost_matrix.hpp; the iterator on the first cell. *)
Definition CostVector_begin (cv : CostVector) : CostVector_Iterator :=
  {| cost_vector_ptr_ := cv; traversing_cell_index_ := 0 |}.

(** Modelled from the spec: [end()] of a view is declared in the missing
    cost_matrix.hpp; the end sentinel is the position [size]. *)
Definition CostVector_end (m : Matrix CostMatrixInteger) (cv : CostVector)
  : CostVector_Iterator :=
  {| cost_vector_ptr_ := cv; traversing_cell_index_ := CostVector_Size m cv |}.

(** [operator*], read and as a mutable reference. *)
Definition CostVector_Iterator_deref (m : Matrix CostMatrixInteger)
    (it : CostVector_Iterator) : result CostMatrixInteger :=
  CostVector_at m (cost_vector_ptr_ it) (traversing_cell_index_ it).

Definition CostVector_Iterator_update (m : Matrix CostMatrixInteger)
    (it : CostVector_Iterator) (f : CostMatrixInteger -> CostMatrixInteger)
  : result (Matrix CostMatrixInteger) :=
  CostVector_update m (cost_vector_ptr_ it) (traversing_cell_index_ it) f.

(** Prefix [operator++]: the iterator after the step. *)
Definition CostVector_Iterator_incr (m : Matrix CostMatrixInteger)
    (it : CostVector_Iterator) : CostVector_Iterator :=
  if decide (traversing_cell_index_ it < CostVector_Size m (cost_vector_ptr_ it))
  then {| cost_vector_ptr_ := cost_vector_ptr_ it;
          traversing_cell_index_ := S (traversing_cell_index_ it) |}
  else it.

(** Postfix [operator++(int)]: the returned copy, and the iterator after
    the step. *)
Definition CostVector_Iterator_post_incr (m : Matrix CostMatrixInteger)
    (it : CostVector_Iterator) : CostVector_Iterator * CostVector_Iterator :=
  let current_traversing_cell_index := traversing_cell_index_ it in
  let it' :=
    if decide (traversing_cell_index_ it < CostVector_Size m (cost_vector_ptr_ it))
    then {| cost_vector_ptr_ := cost_vector_ptr_ it;
            traversing_cell_index_ := S (traversing_cell_index_ it) |}
    else it in
  ({| cost_vector_ptr_ := cost_vector_ptr_ it;
      traversing_cell_index_ := current_traversing_cell_index |}, it').

(** [operator==] and [operator!=]; both iterators view the same matrix. *)
Definition CostVector_Iterator_eq (a b : CostVector_Iterator) : bool :=
  bool_decide (cost_vector_ptr_ a = cost_vector_ptr_ b) &&
  bool_decide (traversing_cell_index_ a = traversing_cell_index_ b).
Definition CostVector_Iterator_neq (a b : CostVector_Iterator) : bool :=
  negb (CostVector_Iterator_eq a b).

(** ** CostMatrix::Iterator *)

Record CostMatrix_Iterator := {
  row_num_ : nat;
  column_num_ : nat;
}.

(** Modelled from the spec: [begin()] of the whole-matrix traversal is
    declared in the missing cost_matrix.hpp; the traversal is row-major
    from the first cell. *)
Definition CostMatrix_begin : CostMatrix_Iterator :=
  {| row_num_ := 0; column_num_ := 0 |}.

(** Modelled from the spec: [end()] of the whole-matrix traversal is
    declared in the missing cost_matrix.hpp; the end state is
    [(row = numRows, column = 0)], the state [MoveToNextCell] checks for. *)
Definition CostMatrix_end (m : Matrix CostMatrixInteger) : CostMatrix_Iterator :=
  {| row_num_ := GetNumRows m; column_num_ := 0 |}.

Definition CostMatrix_Iterator_deref (m : Matrix CostMatrixInteger)
    (it : CostMatrix_Iterator) : result CostMatrixInteger :=
  Matrix_get m (row_num_ it) (column_num_ it).

Definition MoveToNextCell (m : Matrix CostMatrixInteger) (it : CostMatrix_Iterator)
  : result CostMatrix_Iterator :=
  (* check if at end of matrix *)
  if bool_decide (row_num_ it = GetNumRows m) && bool_decide (column_num_ it = 0)
  then Ok it
  else
    (* update row and column number, so column_num_ wraps around *)
    if decide (GetNumColumns m = 0) then Err DivisionByZero
    else
      let column_num := (column_num_ it + 1) `mod` GetNumColumns m in
      Ok {| row_num_ := if decide (column_num = 0) then S (row_num_ it) else row_num_ it;
            column_num_ := column_num |}.

(** Prefix and postfix [operator++]. *)
Definition CostMatrix_Iterator_incr (m : Matrix CostMatrixInteger)
    (it : CostMatrix_Iterator) : result CostMatrix_Iterator :=
  MoveToNextCell m it.

Definition CostMatrix_Iterator_post_incr (m : Matrix CostMatrixInteger)
    (it : CostMatrix_Iterator) : result (CostMatrix_Iterator * CostMatrix_Iterator) :=
  let current_row_num := row_num_ it in
  let current_column_num := column_num_ it in
  it' ← MoveToNextCell m it;
  Ok ({| row_num_ := current_row_num; column_num_ := current_column_num |}, it').

Definition CostMatrix_Iterator_eq (a b : CostMatrix_Iterator) : bool :=
  bool_decide (column_num_ a = column_num_ b) && bool_decide (row_num_ a = row_num_ b).
Definition CostMatrix_Iterator_neq (a b : CostMatrix_Iterator) : bool :=
  negb (CostMatrix_Iterator_eq a b).

(** ** Traversals with the iterators *)

(** [n] prefix increments. *)
Fixpoint CostVector_Iterator_advance (m : Matrix CostMatrixInteger) (n : nat)
    (it : CostVector_Iterator) : CostVector_Iterator :=
  match n with
  | 0 => it
  | S n' => CostVector_Iterator_advance m n' (CostVector_Iterator_incr m it)
  end.

Fixpoint CostMatrix_Iterator_advance (m : Matrix CostMatrixInteger) (n : nat)
    (it : CostMatrix_Iterator) : result CostMatrix_Iterator :=
  match n with
  | 0 => Ok it
  | S n' => it' ← CostMatrix_Iterator_incr m it; CostMatrix_Iterator_advance m n' it'
  end.

(** The loop that reads the cell under [it] and increments [it] while
    [it != last]; it returns the cells read, resp. the positions whose cell
    was read, in the order of the reads. *)
Fixpoint CostVector_traverse (fuel : nat) (m : Matrix CostMatrixInteger)
    (it last : CostVector_Iterator) : result (list CostMatrixInteger) :=
  if CostVector_Iterator_neq it last then
    match fuel with
    | 0 => Err OutOfFuel
    | S fuel' =>
        x ← CostVector_Iterator_deref m it;
        rest ← CostVector_traverse fuel' m (CostVector_Iterator_incr m it) last;
        Ok (x :: rest)
    end
  else Ok [].

Fixpoint CostMatrix_traverse (fuel : nat) (m : Matrix CostMatrixInteger)
    (it last : CostMatrix_Iterator) : result (list (nat * nat)) :=
  if CostMatrix_Iterator_neq it last then
    match fuel with
    | 0 => Err OutOfFuel
    | S fuel' =>
        _ ← CostMatrix_Iterator_deref m it;
        it' ← CostMatrix_Iterator_incr m it;
        rest ← CostMatrix_traverse fuel' m it' last;
        Ok ((row_num_ it, column_num_ it) :: rest)
    end
  else Ok [].

(** The positions of a [rows × columns] matrix in row-major order: the column
    varies fastest. *)
Definition row_major (rows columns : nat) : list (nat * nat) :=
  flat_map (fun i => (fun j => (i, j)) <$> seq 0 columns) (seq 0 rows).

(** The position the whole-matrix iterator is at after [k] steps. *)
Definition position (columns k : nat) : CostMatrix_Iterator :=
  {| row_num_ := k / columns; column_num_ := k `mod` columns |}.

(** ** MakeVectorMapping and the constructor *)

(** The loop of [MakeVectorMapping] over [cell_num], on the part of
    [available] that is still to be scanned. *)
Fixpoint MakeVectorMapping_loop (available : list bool)
    (cell_num condensed_matrix_current_cell : nat) (mapping : gmap nat nat)
  : gmap nat nat :=
  match available with
  | [] => mapping
  | a :: rest =>
      if negb a then
        MakeVectorMapping_loop rest (S cell_num) condensed_matrix_current_cell mapping
      else
        MakeVectorMapping_loop rest (S cell_num) (S condensed_matrix_current_cell)
          (<[cell_num := condensed_matrix_current_cell]> mapping)
  end.

Definition MakeVectorMapping (available : list bool) : gmap nat nat :=
  MakeVectorMapping_loop available 0 0 ∅.

(** [available[k] = false] on a [vector<bool>]; outside the vector it is
    undefined behaviour. *)
Definition set_unavailable (available : list bool) (k : nat) : result (list bool) :=
  if decide (k < length available) then Ok (<[k := false]> available)
  else Err OutOfRange.

(** parse included edges first *)
Fixpoint parse_included (include : list Edge) (avail : list bool * list bool)
  : result (list bool * list bool) :=
  match include with
  | [] => Ok avail
  | e :: rest =>
      row_available ← set_unavailable (fst avail) (u e);
      column_available ← set_unavailable (snd avail) (v e);
      parse_included rest (row_available, column_available)
  end.

(** create the condensed matrix *)
Definition fill_row (graph : Graph) (i : nat) (cm : CostMatrix) : result CostMatrix :=
  for_range (GetNumVertices graph) (fun j cm =>
    if negb (IsColumnAvailable cm j) then Ok cm
    else CostMatrix_update cm i j
           (fun _ => mkCostMatrixInteger (graph_cost graph i j) {| u := i; v := j |}))
    cm.

Definition fill_matrix (graph : Graph) (cm : CostMatrix) : result CostMatrix :=
  for_range (GetNumVertices graph) (fun i cm =>
    if negb (IsRowAvailable cm i) then Ok cm else fill_row graph i cm) cm.

(** mark cells that have been excluded as infinite *)
Fixpoint mark_excluded (exclude : list Edge) (cm : CostMatrix) : result CostMatrix :=
  match exclude with
  | [] => Ok cm
  | e :: rest =>
      if negb (IsRowAvailable cm (u e)) || negb (IsColumnAvailable cm (v e))
      then mark_excluded rest cm
      else cm' ← CostMatrix_update cm (u e) (v e) SetInfinite; mark_excluded rest cm'
  end.

(** [CostMatrix::CostMatrix(graph, include, exclude)]. *)
Definition CostMatrix_new (graph : Graph) (include exclude : list Edge)
  : result CostMatrix :=
  let n := GetNumVertices graph in
  avail ← parse_included include (replicate n true, replicate n true);
  let row_mapping := MakeVectorMapping (fst avail) in
  let column_mapping := MakeVectorMapping (snd avail) in
  let cm := {| cost_matrix_ := SetSize (size row_mapping) (size column_mapping) default_cell;
               row_mapping_ := row_mapping;
               column_mapping_ := column_mapping |} in
  cm ← fill_matrix graph cm;
  mark_excluded exclude cm.

(** ** std::min_element and std::for_each over a view *)

(** [min_element(first, last)]: the first smallest element under
    [operator<], or [last] on an empty range.  The loop
    loop that advances [first] up to [last], moving [smallest] whenever the
    cell under [first] is less than the cell under [smallest], runs on fuel. *)
Fixpoint min_element_loop (fuel : nat) (m : Matrix CostMatrixInteger)
    (first smallest last : CostVector_Iterator) : result CostVector_Iterator :=
  if CostVector_Iterator_neq first last then
    match fuel with
    | 0 => Err OutOfFuel
    | S fuel' =>
        a ← CostVector_Iterator_deref m first;
        b ← CostVector_Iterator_deref m smallest;
        min_element_loop fuel' m (CostVector_Iterator_incr m first)
          (if cmi_lt a b then first else smallest) last
    end
  else Ok smallest.

Definition min_element (m : Matrix CostMatrixInteger)
    (first last : CostVector_Iterator) : result CostVector_Iterator :=
  if CostVector_Iterator_eq first last then Ok last
  else min_element_loop (traversing_cell_index_ last) m
         (CostVector_Iterator_incr m first) first last.

(** [for_each(first, last, f)] with [f] writing through the reference it is
    given, applied to the cell under [first] while [first != last]. *)
Fixpoint for_each_loop (fuel : nat) (m : Matrix CostMatrixInteger)
    (first last : CostVector_Iterator) (f : CostMatrixInteger -> CostMatrixInteger)
  : result (Matrix CostMatrixInteger) :=
  if CostVector_Iterator_neq first last then
    match fuel with
    | 0 => Err OutOfFuel
    | S fuel' =>
        m' ← CostVector_Iterator_update m first f;
        for_each_loop fuel' m' (CostVector_Iterator_incr m' first) last f
    end
  else Ok m.

Definition for_each (m : Matrix CostMatrixInteger)
    (first last : CostVector_Iterator) (f : CostMatrixInteger -> CostMatrixInteger)
  : result (Matrix CostMatrixInteger) :=
  for_each_loop (traversing_cell_index_ last) m first last f.

(** ** C++ [int] *)

Definition INT_MIN : Z := (-2147483648)%Z.
Definition INT_MAX : Z := 2147483647%Z.

(** The value is representable as an [int]. *)
Definition fits_int (z : Z) : Prop := (INT_MIN <= z <= INT_MAX)%Z.

(** The [int] that a mathematical integer wraps around to. *)
Definition int_wrap (z : Z) : Z :=
  ((z + 2147483648) `mod` 4294967296 - 2147483648)%Z.

(** [a + b] and [a += b] on [int]s. *)
Definition int_add (a b : Z) : Z := int_wrap (a + b).

(** ** ReduceMatrix *)

Section ReduceMatrix.

(** What [CostMatrix::Size()] returns for the matrix at hand.  It is declared
    in the missing cost_matrix.hpp, and bounds both loops of
    [ReduceMatrix]; reduction does not resize the matrix. *)
Variable Size : nat.

(** The body of the loop that reduces all the rows; the state is the matrix
    storage and [decremented]. *)
Definition reduce_row (row_num : nat) (st : Matrix CostMatrixInteger * Z)
  : result (Matrix CostMatrixInteger * Z) :=
  let '(m, decremented) := st in
  let cost_row := CostRow row_num in
  min_it ← min_element m (CostVector_begin cost_row) (CostVector_end m cost_row);
  if CostVector_Iterator_eq min_it (CostVector_end m cost_row)
  then Err AssertionFailure
  else
    min ← CostVector_Iterator_deref m min_it;
    if IsInfinite min then Err AssertionFailure
    else
      m' ← for_each m (CostVector_begin cost_row) (CostVector_end m cost_row)
             (fun elt => cmi_sub elt min);
      Ok (m', int_add decremented (cost_of min)).

(** The body of the loop that reduces all the columns. *)
Definition reduce_column (column_num : nat) (st : Matrix CostMatrixInteger * Z)
  : result (Matrix CostMatrixInteger * Z) :=
  let '(m, decremented) := st in
  let cost_column := CostColumn column_num in
  min_it ← min_element m (CostVector_begin cost_column) (CostVector_end m cost_column);
  min ← CostVector_Iterator_deref m min_it;
  if IsInfinite min then Err AssertionFailure
  else
    m' ← for_each m (CostVector_begin cost_column) (CostVector_end m cost_column)
           (fun elt => cmi_sub elt min);
    Ok (m', int_add decremented (cost_of min)).

(** [int CostMatrix::ReduceMatrix()]: the returned total and the matrix as
    it is left. *)
Definition ReduceMatrix (cm : CostMatrix) : result (Z * CostMatrix) :=
  (* keep track of the amount reduced off the matrix *)
  let decremented := 0%Z in
  (* reduce all the rows *)
  st ← for_range Size reduce_row (cost_matrix_ cm, decremented);
  (* reduce all the columns *)
  st ← for_range Size reduce_column st;
  Ok (snd st, {| cost_matrix_ := fst st; row_mapping_ := row_mapping_ cm;
                 column_mapping_ := column_mapping_ cm |}).

End ReduceMatrix.

(** ** The reduction in the words of the specification *)

(** The cells of condensed row [i] and of condensed column [j]. *)
Definition row_cells (m : Matrix CostMatrixInteger) (i : nat) : list CostMatrixInteger :=
  default [] (data_ m !! i).
Definition column_cells (m : Matrix CostMatrixInteger) (j : nat) : list CostMatrixInteger :=
  (fun row => default default_cell (row !! j)) <$> data_ m.
Definition view_cells (m : Matrix CostMatrixInteger) (cv : CostVector)
  : list CostMatrixInteger :=
  match cv with CostRow r => row_cells m r | CostColumn c => column_cells m c end.

(** The cells a view covers, and where in the view a covered cell sits. *)
Definition in_view (cv : CostVector) (i j : nat) : bool :=
  match cv with
  | CostRow r => bool_decide (i = r)
  | CostColumn c => bool_decide (j = c)
  end.
Definition view_index (cv : CostVector) (i j : nat) : nat :=
  match cv with CostRow _ => j | CostColumn _ => i end.

(** The view names a row or column the matrix has. *)
Definition view_valid (m : Matrix CostMatrixInteger) (cv : CostVector) : Prop :=
  match cv with
  | CostRow r => r < GetNumRows m
  | CostColumn c => c < GetNumColumns m
  end.

(** A row or column "contains at least one finite cell". *)
Definition has_finite (l : list CostMatrixInteger) : bool :=
  existsb (fun c => negb (infinite c)) l.

(** The minimum of a row or column, infinite cells counting as larger than
    any finite value: the least value among the finite cells. *)
Definition finite_values (l : list CostMatrixInteger) : list Z :=
  value <$> filter (fun c => infinite c = false) l.
Definition least (l : list Z) : option Z :=
  match l with [] => None | x :: rest => Some (foldr Z.min x rest) end.
Definition minimum (l : list CostMatrixInteger) : Z :=
  default 0%Z (least (finite_values l)).

(** Subtracting an amount from a cell; an infinite cell remains infinite. *)
Definition cell_minus (d : Z) (c : CostMatrixInteger) : CostMatrixInteger :=
  if infinite c then c
  else {| value := (value c - d)%Z; infinite := false; edge := edge c |}.

Definition sumZ (l : list Z) : Z := foldr Z.add 0%Z l.

(** One row or one column reduced: its minimum subtracted from each of
    its cells. *)
Definition view_reduced (m : Matrix CostMatrixInteger) (cv : CostVector)
  : Matrix CostMatrixInteger :=
  Matrix_imap (fun i j c =>
    if in_view cv i j then cell_minus (minimum (view_cells m cv)) c else c) m.

(** Step 1: subtract each row's minimum from every cell of the row. *)
Definition row_minima (m : Matrix CostMatrixInteger) : list Z :=
  (fun i => minimum (row_cells m i)) <$> seq 0 (GetNumRows m).
Definition rows_reduced (m : Matrix CostMatrixInteger) : Matrix CostMatrixInteger :=
  Matrix_imap (fun i _ c => cell_minus (minimum (row_cells m i)) c) m.

(** Step 2: the same for each column. *)
Definition column_minima (m : Matrix CostMatrixInteger) : list Z :=
  (fun j => minimum (column_cells m j)) <$> seq 0 (GetNumColumns m).
Definition columns_reduced (m : Matrix CostMatrixInteger) : Matrix CostMatrixInteger :=
  Matrix_imap (fun _ j c => cell_minus (minimum (column_cells m j)) c) m.

(** Rows fully before columns; the column minima are those of the already
    row-reduced matrix. *)
Definition reduced (m : Matrix CostMatrixInteger) : Matrix CostMatrixInteger :=
  columns_reduced (rows_reduced m).
Definition reduction_total (m : Matrix CostMatrixInteger) : Z :=
  (sumZ (row_minima m) + sumZ (column_minima (rows_reduced m)))%Z.

(** The precondition of reduction: every condensed row and every condensed
    column contains at least one finite cell. *)
Definition rows_have_finite (m : Matrix CostMatrixInteger) : bool :=
  forallb (fun i => has_finite (row_cells m i)) (seq 0 (GetNumRows m)).
Definition columns_have_finite (m : Matrix CostMatrixInteger) : bool :=
  forallb (fun j => has_finite (column_cells m j)) (seq 0 (GetNumColumns m)).
Definition reducible (m : Matrix CostMatrixInteger) : bool :=
  rows_have_finite m && columns_have_finite m.

(** The same two steps when only the first [k] rows and the first [k]
    columns are processed. *)
Definition rows_reduced_upto (k : nat) (m : Matrix CostMatrixInteger)
  : Matrix CostMatrixInteger :=
  Matrix_imap (fun i _ c =>
    if bool_decide (i < k) then cell_minus (minimum (row_cells m i)) c else c) m.
Definition columns_reduced_upto (k : nat) (m : Matrix CostMatrixInteger)
  : Matrix CostMatrixInteger :=
  Matrix_imap (fun _ j c =>
    if bool_decide (j < k) then cell_minus (minimum (column_cells m j)) c else c) m.
Definition reduction_total_upto (k : nat) (m : Matrix CostMatrixInteger) : Z :=
  (sumZ ((fun i => minimum (row_cells m i)) <$> seq 0 k)
   + sumZ ((fun j => minimum (column_cells (rows_reduced_upto k m) j)) <$> seq 0 k))%Z.
Definition rows_have_finite_upto (k : nat) (m : Matrix CostMatrixInteger) : bool :=
  forallb (fun i => has_finite (row_cells m i)) (seq 0 k).
Definition columns_have_finite_upto (k : nat) (m : Matrix CostMatrixInteger) : bool :=
  forallb (fun j => has_finite (column_cells m j)) (seq 0 k).

(** A cell "with value 0". *)
Definition is_zero (c : CostMatrixInteger) : bool :=
  negb (infinite c) && bool_decide (value c = 0%Z).
Definition has_zero (l : list CostMatrixInteger) : bool := existsb is_zero l.

Definition rows_have_zero (m : Matrix CostMatrixInteger) : bool :=
  forallb (fun i => has_zero (row_cells m i)) (seq 0 (GetNumRows m)).
Definition columns_have_zero (m : Matrix CostMatrixInteger) : bool :=
  forallb (fun j => has_zero (column_cells m j)) (seq 0 (GetNumColumns m)).

(** No finite cell is negative. *)
Definition nonneg (m : Matrix CostMatrixInteger) : Prop :=
  forall i j x, cell_at m i j = Some x -> infinite x = false -> (0 <= value x)%Z.

(** [Size()] is the dimension of a square condensed matrix. *)
Definition square (Size : nat) (m : Matrix CostMatrixInteger) : Prop :=
  GetNumRows m = Size ∧ GetNumColumns m = Size.

Definition with_matrix (cm : CostMatrix) (m : Matrix CostMatrixInteger) : CostMatrix :=
  {| cost_matrix_ := m; row_mapping_ := row_mapping_ cm;
     column_mapping_ := column_mapping_ cm |}.

(** ** The constructor in the words of the specification *)

(** The number of available vertices in a list of flags, and the condensed
    index of vertex [i]: the number of available vertices before it. *)
Definition count_available (available : list bool) : nat :=
  length (filter (fun a => a = true) available).
Definition condensed_index (available : list bool) (i : nat) : nat :=
  count_available (take i available).

(** The distinct origins and the distinct destinations of a set of edges. *)
Definition origins (edges : list Edge) : gset nat := list_to_set (u <$> edges).
Definition destinations (edges : list Edge) : gset nat := list_to_set (v <$> edges).

(** The edges name vertices of the graph. *)
Definition edges_in_range (n : nat) (edges : list Edge) : Prop :=
  Forall (fun e => u e < n /\ v e < n) edges.

(** A mapping is injective onto [[0, count)], without gaps, and keeps the
    relative order of its vertices. *)
Definition condensing (mapping : gmap nat nat) (count : nat) : Prop :=
  (forall i k, mapping !! i = Some k -> k < count) /\
  (forall k, k < count -> exists i, mapping !! i = Some k) /\
  (forall i i' k k', mapping !! i = Some k -> mapping !! i' = Some k' ->
     (i < i' <-> k < k')).

(** The storage is rectangular and both mappings condense onto its rows
    and columns. *)
Definition CostMatrix_wf (cm : CostMatrix) : Prop :=
  Matrix_wf (cost_matrix_ cm) /\
  condensing (row_mapping_ cm) (GetNumRows (cost_matrix_ cm)) /\
  condensing (column_mapping_ cm) (GetNumColumns (cost_matrix_ cm)).

(** The constructor up to, and without, the marking of the excluded cells. *)
Definition CostMatrix_filled (graph : Graph) (include : list Edge) : result CostMatrix :=
  CostMatrix_new graph include [].

(** Whether some exclude edge resolves to the condensed cell [(a, b)]. *)
Definition excluded_at (cm : CostMatrix) (exclude : list Edge) (a b : nat) : bool :=
  existsb (fun e => bool_decide (row_mapping_ cm !! u e = Some a /\
                                 column_mapping_ cm !! v e = Some b)) exclude.

(** The cell holding [graph(i, j)] with provenance [Edge{i, j}], and the
    cell the constructor leaves for the available pair [(i, j)]. *)
Definition graph_cell (graph : Graph) (i j : nat) : CostMatrixInteger :=
  mkCostMatrixInteger (graph_cost graph i j) {| u := i; v := j |}.
Definition constructed_cell (graph : Graph) (exclude : list Edge) (i j : nat)
  : CostMatrixInteger :=
  if bool_decide ({| u := i; v := j |} ∈ exclude)
  then SetInfinite (graph_cell graph i j) else graph_cell graph i j.

(** Whether the cell at a position is infinite. *)
Definition infinite_at (m : Matrix CostMatrixInteger) (i j : nat) : option bool :=
  IsInfinite <$> cell_at m i j.

(** [n] successive calls of [ReduceMatrix] on the same object. *)
Fixpoint ReduceMatrix_times (Size n : nat) (cm : CostMatrix) : result CostMatrix :=
  match n with
  | 0 => Ok cm
  | S n' => r ← ReduceMatrix Size cm; ReduceMatrix_times Size n' (snd r)
  end.

(** ** The constructed matrix as a table *)

(** The vertices of a graph with [n] vertices that are not in [gone], in
    increasing order. *)
Definition available_vertices (n : nat) (gone : list nat) : list nat :=
  filter (fun i => i ∉ gone) (seq 0 n).

(** The graph's cost table without the rows of the included origins and the
    columns of the included destinations, the cells of excluded edges
    infinite. *)
Definition condensed_table (graph : Graph) (include exclude : list Edge)
  : list (list CostMatrixInteger) :=
  (fun i => constructed_cell graph exclude i
              <$> available_vertices (GetNumVertices graph) (v <$> include))
    <$> available_vertices (GetNumVertices graph) (u <$> include).

(** The provenance edge of the cell at a position. *)
Definition edge_at (m : Matrix CostMatrixInteger) (i j : nat) : option Edge :=
  edge <$> cell_at m i j.

(** What a reduction may do to a cell: the edge and the infinite flag stay,
    and an infinite cell stays as it is. *)
Definition same_but_value (x y : CostMatrixInteger) : Prop :=
  edge y = edge x /\ infinite y = infinite x /\ (infinite x = true -> y = x).

(** ** Assignments *)

(** An assignment picks the cell in column [sigma[i]] of each row [i]; its
    cost is the sum of the picked values, and it is finite when every picked
    cell exists and is finite. *)
Definition assignment_cells (m : Matrix CostMatrixInteger) (sigma : list nat)
  : list (option CostMatrixInteger) :=
  imap (fun i j => cell_at m i j) sigma.
Definition assignment_finite (m : Matrix CostMatrixInteger) (sigma : list nat) : bool :=
  forallb (fun o => match o with Some x => negb (infinite x) | None => false end)
    (assignment_cells m sigma).
Definition assignment_cost (m : Matrix CostMatrixInteger) (sigma : list nat) : Z :=
  sumZ (from_option value 0%Z <$> assignment_cells m sigma).

(** ** Reading the whole matrix through its iterator *)

(** The loop that reads the cell under [it] and increments [it] while
    [it != last], returning the cells read. *)
Fixpoint CostMatrix_traverse_cells (fuel : nat) (m : Matrix CostMatrixInteger)
    (it last : CostMatrix_Iterator) : result (list CostMatrixInteger) :=
  if CostMatrix_Iterator_neq it last then
    match fuel with
    | 0 => Err OutOfFuel
    | S fuel' =>
        x ← CostMatrix_Iterator_deref m it;
        it' ← CostMatrix_Iterator_incr m it;
        rest ← CostMatrix_traverse_cells fuel' m it' last;
        Ok (x :: rest)
    end
  else Ok [].

(** ** Example inputs *)

Definition Ok_or {A} (d : A) (r : result A) : A :=
  match r with Ok a => a | Err _ => d end.

Definition empty_CostMatrix : CostMatrix :=
  {| cost_matrix_ := SetSize 0 0 default_cell; row_mapping_ := ∅; column_mapping_ := ∅ |}.

Definition graph_of (costs : list (list Z)) : Graph :=
  {| GetNumVertices := length costs;
     graph_cost := fun i j => nth j (nth i costs []) 0%Z |}.

(** The 4-vertex graph of the specification's scenarios; its diagonal is
    made infinite by excluding the loops. *)
Definition graph4 : Graph :=
  graph_of [[0; 10; 15; 20]; [10; 0; 35; 25]; [15; 35; 0; 30]; [20; 25; 30; 0]]%Z.
Definition loops4 : list Edge :=
  [ {| u := 0; v := 0 |}; {| u := 1; v := 1 |}; {| u := 2; v := 2 |}; {| u := 3; v := 3 |} ].
Definition matrix4 : CostMatrix := Ok_or empty_CostMatrix (CostMatrix_new graph4 [] loops4).

(** The same graph with every edge out of vertex 0 excluded as well. *)
Definition matrix4_blocked : CostMatrix :=
  Ok_or empty_CostMatrix
    (CostMatrix_new graph4 []
       (loops4 ++ [ {| u := 0; v := 1 |}; {| u := 0; v := 2 |}; {| u := 0; v := 3 |} ])).

(** The same graph with the edge (0,1) included. *)
Definition matrix4_incl : CostMatrix :=
  Ok_or empty_CostMatrix (CostMatrix_new graph4 [ {| u := 0; v := 1 |} ] loops4).

(** A 3-vertex graph, and include sets that commit one origin twice or one
    destination twice: the condensed matrix is 2×1, 1×2 or 1×0. *)
Definition graph3 : Graph := graph_of [[0; 5; 9]; [5; 0; 4]; [7; 4; 0]]%Z.
Definition matrix_2x1 : CostMatrix :=
  Ok_or empty_CostMatrix
    (CostMatrix_new graph3 [ {| u := 0; v := 1 |}; {| u := 0; v := 2 |} ] []).
Definition matrix_1x2 : CostMatrix :=
  Ok_or empty_CostMatrix
    (CostMatrix_new graph3 [ {| u := 1; v := 0 |}; {| u := 2; v := 0 |} ]
       [ {| u := 0; v := 2 |} ]).
Definition matrix_1x0 : CostMatrix :=
  Ok_or empty_CostMatrix
    (CostMatrix_new graph3
       [ {| u := 0; v := 0 |}; {| u := 1; v := 1 |}; {| u := 1; v := 2 |} ] []).

(** Goals about a concrete matrix: normalise, then split and close. *)
Ltac concrete := vm_compute; repeat split; try reflexivity; repeat constructor.

(** * Properties *)

(** ** The error monad and counted loops *)

Lemma bind_Ok {A B} (a : A) (f : A -> result B) : (Ok a ≫= f) = f a.
Proof. reflexivity. Qed.

Lemma bind_Err {A B} (e : error) (f : A -> result B) : (Err e ≫= f) = Err e.
Proof. reflexivity. Qed.

Lemma bind_Ok_inv {A B} (r : result A) (f : A -> result B) (b : B) :
  (r ≫= f) = Ok b -> exists a, r = Ok a /\ f a = Ok b.
Proof. destruct r as [a|e]; [eauto | discriminate]. Qed.

Lemma for_range_from_S {St} i n (body : nat -> St -> result St) s :
  for_range_from i (S n) body s = (body i s ≫= for_range_from (S i) n body).
Proof. reflexivity. Qed.

Lemma for_range_from_app {St} i n k (body : nat -> St -> result St) s :
  for_range_from i (n + k) body s
  = (for_range_from i n body s ≫= for_range_from (i + n) k body).
Proof.
  revert i s. induction n as [|n IH]; intros i s; simpl.
  - by rewrite Nat.add_0_r.
  - destruct (body i s) as [s'|e]; simpl; [|done].
    rewrite IH. by replace (S i + n) with (i + S n) by lia.
Qed.

(** ** Matrix storage *)

Section MatrixFacts.
Context {T : Type}.
Implicit Types (m : Matrix T) (g : nat -> nat -> T -> T).

Lemma cell_at_Some m r c x :
  Matrix_wf m -> cell_at m r c = Some x -> r < num_rows_ m /\ c < num_columns_ m.
Proof.
  intros [Hr Hc] H. unfold cell_at in H.
  destruct (data_ m !! r) as [row|] eqn:Hrow; simpl in H; [|done].
  split.
  - rewrite <- Hr. by eapply lookup_lt_Some.
  - rewrite Forall_lookup in Hc. rewrite <- (Hc _ _ Hrow). by eapply lookup_lt_Some.
Qed.

Lemma cell_at_is_Some m r c :
  Matrix_wf m -> r < num_rows_ m -> c < num_columns_ m -> is_Some (cell_at m r c).
Proof.
  intros [Hr Hc] Hlt1 Hlt2. unfold cell_at.
  destruct (lookup_lt_is_Some_2 (data_ m) r) as [row Hrow]; [lia|].
  rewrite Hrow. simpl. apply lookup_lt_is_Some_2.
  rewrite Forall_lookup in Hc. by rewrite (Hc _ _ Hrow).
Qed.

Lemma cell_at_imap g m r c : cell_at (Matrix_imap g m) r c = g r c <$> cell_at m r c.
Proof.
  unfold cell_at, Matrix_imap. simpl. rewrite list_lookup_imap.
  destruct (data_ m !! r) as [row|]; simpl; [|done]. by rewrite list_lookup_imap.
Qed.

Lemma Matrix_imap_wf g m : Matrix_wf m -> Matrix_wf (Matrix_imap g m).
Proof.
  intros [Hr Hc]. split; simpl.
  - by rewrite length_imap.
  - rewrite Forall_lookup. intros i row. rewrite list_lookup_imap.
    destruct (data_ m !! i) as [row'|] eqn:Hrow; simpl; [|done].
    intros [= <-]. rewrite length_imap. rewrite Forall_lookup in Hc. eauto.
Qed.

Lemma Matrix_imap_ext g1 g2 m :
  (forall i j x, cell_at m i j = Some x -> g1 i j x = g2 i j x) ->
  Matrix_imap g1 m = Matrix_imap g2 m.
Proof.
  intros H. unfold Matrix_imap. f_equal.
  apply imap_ext. intros i row Hrow. apply imap_ext. intros j x Hx.
  apply H. unfold cell_at. by rewrite Hrow.
Qed.

Lemma Matrix_imap_imap g1 g2 m :
  Matrix_imap g2 (Matrix_imap g1 m) = Matrix_imap (fun i j x => g2 i j (g1 i j x)) m.
Proof.
  unfold Matrix_imap. simpl. f_equal.
  apply list_eq. intros i. rewrite !list_lookup_imap.
  destruct (data_ m !! i) as [row|]; simpl; [|done]. f_equal.
  apply list_eq. intros j. rewrite !list_lookup_imap.
  by destruct (row !! j).
Qed.

Lemma Matrix_imap_id g m : (forall i j x, cell_at m i j = Some x -> g i j x = x) -> Matrix_imap g m = m.
Proof.
  intros H. destruct m as [R C d]. unfold Matrix_imap. simpl. f_equal.
  apply list_eq. intros i. rewrite list_lookup_imap.
  destruct (d !! i) as [row|] eqn:Hrow; simpl; [|done]. f_equal.
  apply list_eq. intros j. rewrite list_lookup_imap.
  destruct (row !! j) as [x|] eqn:Hx; simpl; [|done]. f_equal.
  apply H. unfold cell_at. simpl. by rewrite Hrow.
Qed.

Lemma Matrix_get_Ok m r c :
  Matrix_wf m -> r < num_rows_ m -> c < num_columns_ m ->
  exists x, cell_at m r c = Some x /\ Matrix_get m r c = Ok x.
Proof.
  intros Hwf Hr Hc. destruct (cell_at_is_Some m r c Hwf Hr Hc) as [x Hx].
  exists x. split; [done|]. unfold Matrix_get, GetNumRows, GetNumColumns.
  rewrite decide_True by done. by rewrite Hx.
Qed.

Lemma Matrix_get_Ok_inv m r c x :
  Matrix_get m r c = Ok x ->
  r < num_rows_ m /\ c < num_columns_ m /\ cell_at m r c = Some x.
Proof.
  unfold Matrix_get, GetNumRows, GetNumColumns. case_decide; [|done].
  destruct (cell_at m r c); [|done]. intros [= ->]. tauto.
Qed.

Lemma Matrix_get_out m r c :
  ¬ (r < num_rows_ m /\ c < num_columns_ m) -> Matrix_get m r c = Err OutOfRange.
Proof. intros H. unfold Matrix_get, GetNumRows, GetNumColumns. by rewrite decide_False. Qed.

Lemma alter_alter_imap (d : list (list T)) r c (f : T -> T) :
  alter (alter f c) r d
  = imap (fun i row => imap (fun j x => if decide (i = r /\ j = c) then f x else x) row) d.
Proof.
  apply list_eq. intros i. rewrite list_lookup_imap.
  destruct (decide (r = i)) as [->|Hne].
  - rewrite list_lookup_alter_eq. destruct (d !! i) as [row|]; simpl; [|done]. f_equal.
    apply list_eq. intros j. rewrite list_lookup_imap.
    destruct (decide (c = j)) as [->|Hne].
    + rewrite list_lookup_alter_eq. destruct (row !! j); simpl; [|done].
      by rewrite decide_True.
    + rewrite list_lookup_alter_ne by done. destruct (row !! j); simpl; [|done].
      by rewrite decide_False by (intros [? ?]; congruence).
  - rewrite list_lookup_alter_ne by done. destruct (d !! i) as [row|]; simpl; [|done].
    f_equal. apply list_eq. intros j. rewrite list_lookup_imap.
    destruct (row !! j); simpl; [|done]. by rewrite decide_False by (intros [? ?]; congruence).
Qed.

Lemma Matrix_update_Ok_inv m r c (f : T -> T) m' :
  Matrix_update m r c f = Ok m' ->
  r < num_rows_ m /\ c < num_columns_ m /\
  m' = Matrix_imap (fun i j x => if decide (i = r /\ j = c) then f x else x) m.
Proof.
  unfold Matrix_update, GetNumRows, GetNumColumns. case_decide as H; [|done].
  destruct (cell_at m r c) as [x|] eqn:Hx; [|done]. intros [= <-].
  split; [tauto|]. split; [tauto|]. unfold Matrix_imap. f_equal. apply alter_alter_imap.
Qed.

Lemma Matrix_update_Ok m r c (f : T -> T) :
  Matrix_wf m -> r < num_rows_ m -> c < num_columns_ m ->
  Matrix_update m r c f
  = Ok (Matrix_imap (fun i j x => if decide (i = r /\ j = c) then f x else x) m).
Proof.
  intros Hwf Hr Hc. destruct (cell_at_is_Some m r c Hwf Hr Hc) as [x Hx].
  unfold Matrix_update, GetNumRows, GetNumColumns.
  rewrite decide_True by done. rewrite Hx. f_equal. unfold Matrix_imap. f_equal.
  apply alter_alter_imap.
Qed.

Lemma Matrix_update_out m r c (f : T -> T) :
  ¬ (r < num_rows_ m /\ c < num_columns_ m) -> Matrix_update m r c f = Err OutOfRange.
Proof. intros H. unfold Matrix_update, GetNumRows, GetNumColumns. by rewrite decide_False. Qed.

Lemma SetSize_wf rows columns (d : T) : Matrix_wf (SetSize rows columns d).
Proof.
  split; simpl.
  - by rewrite length_replicate.
  - rewrite Forall_lookup. intros i row Hrow.
    apply lookup_replicate in Hrow as [-> _]. by rewrite length_replicate.
Qed.

End MatrixFacts.

(** ** Cost cells *)

Lemma cmi_sub_cell_minus elt mn : cmi_sub elt mn = cell_minus (value mn) elt.
Proof. reflexivity. Qed.

Lemma cell_minus_infinite d c : infinite (cell_minus d c) = infinite c.
Proof. unfold cell_minus. by destruct (infinite c) eqn:H. Qed.

Lemma cell_minus_value d c :
  infinite c = false -> value (cell_minus d c) = (value c - d)%Z.
Proof. unfold cell_minus. by intros ->. Qed.

Lemma cell_minus_edge d c : edge (cell_minus d c) = edge c.
Proof. unfold cell_minus. by destruct (infinite c). Qed.

Lemma cell_minus_0 c : cell_minus 0 c = c.
Proof.
  unfold cell_minus. destruct c as [x [] e]; simpl; [done|].
  f_equal. lia.
Qed.

Lemma cmi_lt_false_finite x y :
  cmi_lt x y = false -> infinite x = false ->
  infinite y = false /\ (value y <= value x)%Z.
Proof.
  unfold cmi_lt. intros H Hx. rewrite Hx in H. destruct (infinite y); [done|].
  split; [done|]. by apply Z.ltb_ge.
Qed.

Lemma cmi_lt_trans_neg x y z :
  cmi_lt x y = false -> cmi_lt z y = true -> cmi_lt x z = false.
Proof.
  unfold cmi_lt. destruct (infinite x), (infinite y), (infinite z); try done.
  intros H1%Z.ltb_ge H2%Z.ltb_lt. apply Z.ltb_ge. lia.
Qed.

Lemma cmi_lt_irrefl x : cmi_lt x x = false.
Proof. unfold cmi_lt. destruct (infinite x); [done|]. apply Z.ltb_irrefl. Qed.

(** ** Minima of lists of cells *)

Lemma foldr_min_le x rest : (foldr Z.min x rest <= x)%Z /\ Forall (fun y => (foldr Z.min x rest <= y)%Z) rest.
Proof.
  induction rest as [|y rest [IH1 IH2]]; simpl.
  - split; [lia | constructor].
  - split; [lia|]. constructor; [lia|].
    eapply Forall_impl; [exact IH2|]. simpl. intros. lia.
Qed.

Lemma foldr_min_elem x rest : foldr Z.min x rest ∈ x :: rest.
Proof.
  induction rest as [|y rest IH]; simpl.
  - apply list_elem_of_here.
  - apply elem_of_cons in IH.
    destruct (Z.min_spec y (foldr Z.min x rest)) as [[_ ->]|[_ ->]].
    + apply list_elem_of_further, list_elem_of_here.
    + destruct IH as [->|IH]; [apply list_elem_of_here|].
      by do 2 apply list_elem_of_further.
Qed.

Lemma least_Some l z :
  z ∈ l -> (forall w, w ∈ l -> (z <= w)%Z) -> least l = Some z.
Proof.
  destruct l as [|x rest]; [set_solver|]. intros Hz Hle. simpl. f_equal.
  destruct (foldr_min_le x rest) as [H1 H2]. rewrite Forall_forall in H2.
  pose proof (foldr_min_elem x rest) as H3.
  apply Z.le_antisymm.
  - apply elem_of_cons in Hz as [->|Hz]; [done | by apply H2].
  - by apply Hle.
Qed.

Lemma elem_of_finite_values z l :
  z ∈ finite_values l <-> exists c, c ∈ l /\ infinite c = false /\ value c = z.
Proof.
  unfold finite_values. rewrite list_elem_of_fmap. split.
  - intros [c [-> Hc]]. apply list_elem_of_filter in Hc as [? ?]. eauto.
  - intros [c (? & ? & <-)]. exists c. split; [done|]. by apply list_elem_of_filter.
Qed.

Lemma minimum_eq l y :
  y ∈ l -> infinite y = false -> (forall x, x ∈ l -> cmi_lt x y = false) ->
  minimum l = value y.
Proof.
  intros Hy Hfin Hmin. unfold minimum.
  rewrite (least_Some _ (value y)); [done| |].
  - apply elem_of_finite_values. eauto.
  - intros w [c (Hc & Hcfin & <-)]%elem_of_finite_values.
    by destruct (cmi_lt_false_finite _ _ (Hmin c Hc) Hcfin).
Qed.

Lemma has_finite_true l :
  has_finite l = true <-> exists c, c ∈ l /\ infinite c = false.
Proof.
  unfold has_finite. rewrite existsb_exists. split.
  - intros [c [Hc H]]. exists c. rewrite list_elem_of_In. by destruct (infinite c).
  - intros [c [Hc H]]. exists c. rewrite <- list_elem_of_In. by rewrite H.
Qed.

Lemma has_finite_false l :
  has_finite l = false <-> forall c, c ∈ l -> infinite c = true.
Proof.
  split.
  - intros H c Hc. destruct (infinite c) eqn:Hinf; [done|].
    assert (has_finite l = true) by (apply has_finite_true; eauto). congruence.
  - intros H. destruct (has_finite l) eqn:Hf; [|done].
    apply has_finite_true in Hf as [c [Hc Hinf]]. rewrite (H c Hc) in Hinf. done.
Qed.

(** The smallest cell under [operator<] is finite exactly when the list has
    a finite cell. *)
Lemma smallest_finite l y :
  y ∈ l -> (forall x, x ∈ l -> cmi_lt x y = false) ->
  infinite y = negb (has_finite l).
Proof.
  intros Hy Hmin. destruct (has_finite l) eqn:Hf; simpl.
  - apply has_finite_true in Hf as [c [Hc Hinf]].
    by destruct (cmi_lt_false_finite _ _ (Hmin c Hc) Hinf).
  - rewrite has_finite_false in Hf. auto.
Qed.

(** ** Views *)

Section Views.
Implicit Types (m : Matrix CostMatrixInteger) (cv : CostVector).

Lemma row_cells_lookup m r k : row_cells m r !! k = cell_at m r k.
Proof. unfold row_cells, cell_at. by destruct (data_ m !! r). Qed.

Lemma column_cells_lookup m c k :
  Matrix_wf m -> c < num_columns_ m -> column_cells m c !! k = cell_at m k c.
Proof.
  intros [_ Hc] Hlt. unfold column_cells, cell_at. rewrite list_lookup_fmap.
  destruct (data_ m !! k) as [row|] eqn:Hrow; simpl; [|done].
  rewrite Forall_lookup in Hc. specialize (Hc _ _ Hrow).
  destruct (lookup_lt_is_Some_2 row c) as [x ->]; [lia|]. done.
Qed.

Lemma view_cells_lookup m cv k :
  Matrix_wf m -> view_valid m cv ->
  view_cells m cv !! k = cell_at m (CostVector_GetRow cv k) (CostVector_GetColumn cv k).
Proof.
  intros Hwf Hv. destruct cv as [r|c]; simpl.
  - apply row_cells_lookup.
  - by apply column_cells_lookup.
Qed.

Lemma view_cells_length m cv :
  Matrix_wf m -> view_valid m cv -> length (view_cells m cv) = CostVector_Size m cv.
Proof.
  intros [Hr Hc] Hv. destruct cv as [r|c]; simpl in *.
  - unfold row_cells, GetNumRows, GetNumColumns in *.
    destruct (lookup_lt_is_Some_2 (data_ m) r) as [row Hrow]; [lia|].
    rewrite Hrow. simpl. rewrite Forall_lookup in Hc. eauto.
  - unfold column_cells, GetNumRows. by rewrite length_fmap.
Qed.

Lemma view_position cv i j :
  in_view cv i j = true ->
  CostVector_GetRow cv (view_index cv i j) = i /\
  CostVector_GetColumn cv (view_index cv i j) = j.
Proof. destruct cv; simpl; intros ->%bool_decide_eq_true; done. Qed.

Lemma in_view_position cv k :
  in_view cv (CostVector_GetRow cv k) (CostVector_GetColumn cv k) = true /\
  view_index cv (CostVector_GetRow cv k) (CostVector_GetColumn cv k) = k.
Proof. destruct cv; simpl; by rewrite bool_decide_eq_true. Qed.

Lemma view_position_range m cv k :
  view_valid m cv -> k < CostVector_Size m cv ->
  CostVector_GetRow cv k < num_rows_ m /\ CostVector_GetColumn cv k < num_columns_ m.
Proof. destruct cv; simpl; unfold GetNumRows, GetNumColumns; lia. Qed.

Lemma view_valid_imap g m cv : view_valid (Matrix_imap g m) cv <-> view_valid m cv.
Proof. by destruct cv. Qed.

Lemma CostVector_Size_imap g m cv : CostVector_Size (Matrix_imap g m) cv = CostVector_Size m cv.
Proof. by destruct cv. Qed.

Lemma row_cells_imap g m r : row_cells (Matrix_imap g m) r = imap (g r) (row_cells m r).
Proof.
  unfold row_cells, Matrix_imap. simpl. rewrite list_lookup_imap.
  by destruct (data_ m !! r).
Qed.

Lemma column_cells_imap g m c :
  Matrix_wf m -> c < num_columns_ m ->
  column_cells (Matrix_imap g m) c = imap (fun i => g i c) (column_cells m c).
Proof.
  intros Hwf Hc. apply list_eq. intros k.
  rewrite column_cells_lookup; [|by apply Matrix_imap_wf|done].
  rewrite list_lookup_imap, column_cells_lookup by done.
  apply cell_at_imap.
Qed.

(** A view that the rewriting leaves alone keeps its cells. *)
Lemma view_cells_imap_id g m cv :
  Matrix_wf m -> view_valid m cv ->
  (forall i j x, in_view cv i j = true -> g i j x = x) ->
  view_cells (Matrix_imap g m) cv = view_cells m cv.
Proof.
  intros Hwf Hv Hg. apply list_eq. intros k.
  rewrite !view_cells_lookup; [|done|done|by apply Matrix_imap_wf|by apply view_valid_imap].
  rewrite cell_at_imap.
  destruct (cell_at m _ _) as [x|]; simpl; [|done].
  f_equal. apply Hg. apply in_view_position.
Qed.

(** ** The view iterator *)

Lemma CostVector_Iterator_neq_index cv k n :
  CostVector_Iterator_neq (Build_CostVector_Iterator cv k) (Build_CostVector_Iterator cv n)
  = negb (bool_decide (k = n)).
Proof.
  unfold CostVector_Iterator_neq, CostVector_Iterator_eq. simpl.
  by rewrite bool_decide_eq_true_2.
Qed.

Lemma CostVector_Iterator_eq_index cv k n :
  CostVector_Iterator_eq (Build_CostVector_Iterator cv k) (Build_CostVector_Iterator cv n)
  = bool_decide (k = n).
Proof.
  unfold CostVector_Iterator_eq. simpl. by rewrite bool_decide_eq_true_2.
Qed.

Lemma CostVector_Iterator_incr_lt m cv k :
  k < CostVector_Size m cv ->
  CostVector_Iterator_incr m (Build_CostVector_Iterator cv k)
  = Build_CostVector_Iterator cv (S k).
Proof. intros H. unfold CostVector_Iterator_incr. simpl. by rewrite decide_True. Qed.

Lemma CostVector_Iterator_incr_ge m cv k :
  CostVector_Size m cv <= k ->
  CostVector_Iterator_incr m (Build_CostVector_Iterator cv k)
  = Build_CostVector_Iterator cv k.
Proof. intros H. unfold CostVector_Iterator_incr. simpl. by rewrite decide_False by lia. Qed.

Lemma CostVector_Iterator_deref_Ok m cv k :
  Matrix_wf m -> view_valid m cv -> k < CostVector_Size m cv ->
  exists x, view_cells m cv !! k = Some x /\
            CostVector_Iterator_deref m (Build_CostVector_Iterator cv k) = Ok x.
Proof.
  intros Hwf Hv Hk. destruct (view_position_range m cv k Hv Hk) as [Hr Hc].
  destruct (Matrix_get_Ok m _ _ Hwf Hr Hc) as [x [Hx Hget]].
  exists x. split; [|done]. by rewrite view_cells_lookup.
Qed.

Lemma CostVector_Iterator_deref_end m cv :
  CostVector_Iterator_deref m (CostVector_end m cv) = Err OutOfRange.
Proof.
  unfold CostVector_Iterator_deref, CostVector_at, CostVector_end. simpl.
  apply Matrix_get_out. destruct cv; simpl; unfold GetNumRows, GetNumColumns; lia.
Qed.

End Views.

(** ** min_element and for_each over a view *)

Section Algorithms.
Implicit Types (m : Matrix CostMatrixInteger) (cv : CostVector).

Lemma min_element_loop_unfold fuel m first smallest last :
  min_element_loop fuel m first smallest last
  = if CostVector_Iterator_neq first last then
      match fuel with
      | 0 => Err OutOfFuel
      | S fuel' =>
          a ← CostVector_Iterator_deref m first;
          b ← CostVector_Iterator_deref m smallest;
          min_element_loop fuel' m (CostVector_Iterator_incr m first)
            (if cmi_lt a b then first else smallest) last
      end
    else Ok smallest.
Proof. by destruct fuel. Qed.

Lemma for_each_loop_unfold fuel m first last f :
  for_each_loop fuel m first last f
  = if CostVector_Iterator_neq first last then
      match fuel with
      | 0 => Err OutOfFuel
      | S fuel' =>
          m' ← CostVector_Iterator_update m first f;
          for_each_loop fuel' m' (CostVector_Iterator_incr m' first) last f
      end
    else Ok m.
Proof. by destruct fuel. Qed.

(** The loop of [min_element] keeps [smallest] on a cell that no cell
    before [first] is less than, and with enough fuel it reaches [last]. *)
Lemma min_element_loop_spec m cv fuel k s y :
  Matrix_wf m -> view_valid m cv ->
  s < k -> k <= CostVector_Size m cv -> CostVector_Size m cv - k <= fuel ->
  view_cells m cv !! s = Some y ->
  (forall t x, t < k -> view_cells m cv !! t = Some x -> cmi_lt x y = false) ->
  exists s' y',
    min_element_loop fuel m (Build_CostVector_Iterator cv k)
      (Build_CostVector_Iterator cv s) (CostVector_end m cv)
    = Ok (Build_CostVector_Iterator cv s') /\
    s' < CostVector_Size m cv /\ view_cells m cv !! s' = Some y' /\
    forall x, x ∈ view_cells m cv -> cmi_lt x y' = false.
Proof.
  intros Hwf Hv. revert k s y.
  induction fuel as [|fuel IH]; intros k s y Hsk Hkn Hfuel Hs Hmin;
    rewrite min_element_loop_unfold; unfold CostVector_end;
    rewrite CostVector_Iterator_neq_index.
  - rewrite bool_decide_eq_true_2 by lia. simpl. exists s, y.
    split; [done|]. split; [lia|]. split; [done|].
    intros x [t Ht]%list_elem_of_lookup. apply (Hmin t); [|done].
    apply lookup_lt_Some in Ht. rewrite view_cells_length in Ht by done. lia.
  - destruct (decide (k = CostVector_Size m cv)) as [->|Hne].
    + rewrite bool_decide_eq_true_2 by done. simpl. exists s, y.
      split; [done|]. split; [lia|]. split; [done|].
      intros x [t Ht]%list_elem_of_lookup. apply (Hmin t); [|done].
      apply lookup_lt_Some in Ht. by rewrite view_cells_length in Ht.
    + rewrite bool_decide_eq_false_2 by done. simpl.
      destruct (CostVector_Iterator_deref_Ok m cv k) as [a [Ha ->]]; [done|done|lia|].
      destruct (CostVector_Iterator_deref_Ok m cv s) as [b [Hb ->]]; [done|done|lia|].
      rewrite Hs in Hb. injection Hb as <-. simpl.
      rewrite CostVector_Iterator_incr_lt by lia.
      destruct (cmi_lt a y) eqn:Hlt.
      * apply (IH (S k) k a); [lia|lia|lia|done|].
        intros t x Ht Hx. destruct (decide (t = k)) as [->|].
        -- rewrite Ha in Hx. injection Hx as <-. apply cmi_lt_irrefl.
        -- apply (cmi_lt_trans_neg x y a); [|done]. apply (Hmin t); [lia|done].
      * apply (IH (S k) s y); [lia|lia|lia|done|].
        intros t x Ht Hx. destruct (decide (t = k)) as [->|].
        -- rewrite Ha in Hx. by injection Hx as <-.
        -- apply (Hmin t); [lia|done].
Qed.

Lemma min_element_spec m cv :
  Matrix_wf m -> view_valid m cv -> 0 < CostVector_Size m cv ->
  exists s y,
    min_element m (CostVector_begin cv) (CostVector_end m cv)
    = Ok (Build_CostVector_Iterator cv s) /\
    s < CostVector_Size m cv /\ view_cells m cv !! s = Some y /\
    forall x, x ∈ view_cells m cv -> cmi_lt x y = false.
Proof.
  intros Hwf Hv Hn. unfold min_element, CostVector_begin.
  unfold CostVector_end at 1. rewrite CostVector_Iterator_eq_index.
  rewrite bool_decide_eq_false_2 by lia.
  rewrite CostVector_Iterator_incr_lt by done.
  destruct (CostVector_Iterator_deref_Ok m cv 0) as [y [Hy _]]; [done..|].
  apply (min_element_loop_spec m cv _ 1 0 y); [done|done|lia|lia|simpl; lia|done|].
  intros t x Ht Hx. replace t with 0 in Hx by lia.
  rewrite Hy in Hx. injection Hx as <-. apply cmi_lt_irrefl.
Qed.

Lemma min_element_empty m cv :
  CostVector_Size m cv = 0 ->
  min_element m (CostVector_begin cv) (CostVector_end m cv) = Ok (CostVector_end m cv).
Proof.
  intros Hn. unfold min_element, CostVector_begin.
  unfold CostVector_end at 1. rewrite CostVector_Iterator_eq_index.
  by rewrite bool_decide_eq_true_2.
Qed.

(** [for_each] rewrites exactly the cells of the view, each once. *)
Lemma for_each_loop_spec f m cv n fuel k :
  Matrix_wf m -> view_valid m cv -> n = CostVector_Size m cv ->
  k <= n -> n - k <= fuel ->
  for_each_loop fuel m (Build_CostVector_Iterator cv k) (Build_CostVector_Iterator cv n) f
  = Ok (Matrix_imap (fun i j x =>
          if in_view cv i j && bool_decide (k <= view_index cv i j) then f x else x) m).
Proof.
  revert m k. induction fuel as [|fuel IH]; intros m k Hwf Hv Hn Hkn Hfuel;
    rewrite for_each_loop_unfold, CostVector_Iterator_neq_index.
  - rewrite bool_decide_eq_true_2 by lia. simpl. f_equal. symmetry.
    apply Matrix_imap_id. intros i j x Hx.
    destruct (in_view cv i j) eqn:Hin; simpl; [|done].
    rewrite bool_decide_eq_false_2; [done|].
    destruct (view_position cv i j Hin) as [Hi Hj].
    apply (cell_at_Some _ _ _ _ Hwf) in Hx.
    destruct cv; simpl in *; unfold GetNumRows, GetNumColumns in *; lia.
  - destruct (decide (k = n)) as [->|Hne].
    + rewrite bool_decide_eq_true_2 by done. simpl. f_equal. symmetry.
      apply Matrix_imap_id. intros i j x Hx.
      destruct (in_view cv i j) eqn:Hin; simpl; [|done].
      rewrite bool_decide_eq_false_2; [done|].
      apply (cell_at_Some _ _ _ _ Hwf) in Hx.
      destruct cv; simpl in *; unfold GetNumRows, GetNumColumns in *; lia.
    + rewrite bool_decide_eq_false_2 by done. simpl.
      unfold CostVector_Iterator_update, CostVector_update. simpl.
      destruct (view_position_range m cv k Hv) as [Hr Hc]; [lia|].
      rewrite Matrix_update_Ok by done. simpl.
      rewrite CostVector_Iterator_incr_lt by (rewrite CostVector_Size_imap; lia).
      rewrite IH; [|by apply Matrix_imap_wf|by apply view_valid_imap
                   |by rewrite CostVector_Size_imap|lia|lia].
      f_equal. rewrite Matrix_imap_imap. apply Matrix_imap_ext. intros i j x _.
      destruct (in_view_position cv k) as [Hin Hidx].
      case_decide as Hpos.
      * destruct Hpos as [-> ->]. rewrite Hin, Hidx. simpl.
        rewrite bool_decide_eq_false_2 by lia. by rewrite bool_decide_eq_true_2.
      * destruct (in_view cv i j) eqn:Hin'; simpl; [|done].
        destruct (view_position cv i j Hin') as [Hi Hj].
        assert (view_index cv i j ≠ k) by (intros <-; apply Hpos; split; by symmetry).
        destruct (decide (k <= view_index cv i j)).
        -- rewrite !bool_decide_eq_true_2 by lia. done.
        -- rewrite !bool_decide_eq_false_2 by lia. done.
Qed.

Lemma for_each_spec f m cv :
  Matrix_wf m -> view_valid m cv ->
  for_each m (CostVector_begin cv) (CostVector_end m cv) f
  = Ok (Matrix_imap (fun i j x => if in_view cv i j then f x else x) m).
Proof.
  intros Hwf Hv. unfold for_each, CostVector_begin, CostVector_end. simpl.
  rewrite (for_each_loop_spec f m cv _ _ 0) by (done || lia).
  f_equal. apply Matrix_imap_ext. intros i j x _.
  rewrite bool_decide_eq_true_2 by lia. by rewrite andb_true_r.
Qed.

(** ** One row or column reduced *)

Lemma view_reduced_wf m cv : Matrix_wf m -> Matrix_wf (view_reduced m cv).
Proof. apply Matrix_imap_wf. Qed.

(** What the two loop bodies share: find the minimum, check it, subtract
    it from the whole view. *)
Lemma reduce_view_spec m cv :
  Matrix_wf m -> view_valid m cv -> 0 < CostVector_Size m cv ->
  exists min_it mn,
    min_element m (CostVector_begin cv) (CostVector_end m cv) = Ok min_it /\
    CostVector_Iterator_eq min_it (CostVector_end m cv) = false /\
    CostVector_Iterator_deref m min_it = Ok mn /\
    mn ∈ view_cells m cv /\
    IsInfinite mn = negb (has_finite (view_cells m cv)) /\
    (has_finite (view_cells m cv) = true -> cost_of mn = minimum (view_cells m cv)) /\
    for_each m (CostVector_begin cv) (CostVector_end m cv) (fun elt => cmi_sub elt mn)
    = Ok (Matrix_imap (fun i j x =>
            if in_view cv i j then cell_minus (cost_of mn) x else x) m).
Proof.
  intros Hwf Hv Hn.
  destruct (min_element_spec m cv Hwf Hv Hn) as (s & y & Hmin & Hs & Hy & Hle).
  exists (Build_CostVector_Iterator cv s), y.
  assert (y ∈ view_cells m cv) as Hel by (apply list_elem_of_lookup; eauto).
  split; [done|]. split.
  { unfold CostVector_end. rewrite CostVector_Iterator_eq_index.
    apply bool_decide_eq_false_2. lia. }
  split.
  { destruct (CostVector_Iterator_deref_Ok m cv s Hwf Hv Hs) as [y' [Hy' ->]]. congruence. }
  split; [done|]. split; [by apply smallest_finite|]. split.
  { intros Hfin. symmetry. apply minimum_eq; [done| |done].
    rewrite (smallest_finite _ _ Hel Hle), Hfin. done. }
  by rewrite for_each_spec.
Qed.

End Algorithms.

(** ** Arithmetic on [int] *)

Lemma int_wrap_fits z : fits_int z -> int_wrap z = z.
Proof. unfold fits_int, INT_MIN, INT_MAX, int_wrap. intros H. Z.div_mod_to_equations. lia. Qed.

Lemma int_wrap_range z : fits_int (int_wrap z).
Proof. unfold fits_int, INT_MIN, INT_MAX, int_wrap. Z.div_mod_to_equations. lia. Qed.

Lemma int_wrap_idemp z : int_wrap (int_wrap z) = int_wrap z.
Proof. apply int_wrap_fits, int_wrap_range. Qed.

Lemma int_wrap_add_l a b : int_wrap (int_wrap a + b) = int_wrap (a + b).
Proof.
  unfold int_wrap. f_equal.
  replace ((a + 2147483648) `mod` 4294967296 - 2147483648 + b + 2147483648)%Z
    with ((a + 2147483648) `mod` 4294967296 + b)%Z by lia.
  rewrite Z.add_mod_idemp_l by lia. f_equal. lia.
Qed.

Lemma int_wrap_0 : int_wrap 0 = 0%Z.
Proof. reflexivity. Qed.

(** ** The two loop bodies of ReduceMatrix *)

Section ReduceBodies.
Implicit Types (m : Matrix CostMatrixInteger) (cv : CostVector).

Lemma reduce_row_spec m d r :
  Matrix_wf m -> r < num_rows_ m ->
  reduce_row r (m, d)
  = if has_finite (row_cells m r)
    then Ok (view_reduced m (CostRow r), int_add d (minimum (row_cells m r)))
    else Err AssertionFailure.
Proof.
  intros Hwf Hr. unfold reduce_row.
  destruct (decide (CostVector_Size m (CostRow r) = 0)) as [Hz|Hnz].
  - rewrite min_element_empty by done. simpl.
    unfold CostVector_Iterator_eq. simpl. rewrite !bool_decide_eq_true_2 by done. simpl.
    pose proof (view_cells_length m (CostRow r) Hwf Hr) as Hlen.
    rewrite Hz in Hlen. apply nil_length_inv in Hlen. simpl in Hlen. by rewrite Hlen.
  - destruct (reduce_view_spec m (CostRow r) Hwf Hr) as
      (min_it & mn & -> & Hne & Hd & _ & Hinf & Hval & Hfe); [lia|].
    simpl. rewrite Hne, Hd. simpl. rewrite Hinf. simpl in *.
    destruct (has_finite (row_cells m r)); simpl; [|done].
    rewrite Hfe. simpl. unfold view_reduced. simpl. by rewrite Hval.
Qed.

Lemma reduce_column_spec m d c :
  Matrix_wf m -> c < num_columns_ m -> 0 < num_rows_ m ->
  reduce_column c (m, d)
  = if has_finite (column_cells m c)
    then Ok (view_reduced m (CostColumn c), int_add d (minimum (column_cells m c)))
    else Err AssertionFailure.
Proof.
  intros Hwf Hc HR. unfold reduce_column.
  destruct (reduce_view_spec m (CostColumn c) Hwf Hc) as
    (min_it & mn & -> & Hne & Hd & _ & Hinf & Hval & Hfe); [done|].
  simpl. rewrite Hd. simpl. rewrite Hinf. simpl in *.
  destruct (has_finite (column_cells m c)); simpl; [|done].
  rewrite Hfe. simpl. unfold view_reduced. simpl. by rewrite Hval.
Qed.

Lemma has_finite_imap (g : nat -> CostMatrixInteger -> CostMatrixInteger) l :
  (forall i x, infinite (g i x) = infinite x) ->
  has_finite (imap g l) = has_finite l.
Proof.
  intros Hg. revert g Hg. induction l as [|x l IH]; intros g Hg; simpl; [done|].
  rewrite Hg. f_equal. apply IH. intros i y. apply Hg.
Qed.

End ReduceBodies.

Lemma sumZ_cons x l : sumZ (x :: l) = (x + sumZ l)%Z.
Proof. reflexivity. Qed.

(** ** A loop that reduces the views of one axis, one after the other *)

Section ReduceLoop.
Implicit Types (m : Matrix CostMatrixInteger).

(** The family of views ([CostRow] or [CostColumn]), the coordinate that
    says which view a cell is in, how many views there are, and the side
    condition under which the body runs. *)
Variable mk : nat -> CostVector.
Variable axis : nat -> nat -> nat.
Variable bound : Matrix CostMatrixInteger -> nat.
Variable side : Matrix CostMatrixInteger -> Prop.
Variable body : nat -> Matrix CostMatrixInteger * Z -> result (Matrix CostMatrixInteger * Z).

Hypothesis mk_axis : forall k i j, in_view (mk k) i j = bool_decide (axis i j = k).
Hypothesis mk_valid : forall m k, view_valid m (mk k) <-> k < bound m.
Hypothesis bound_imap : forall g m, bound (Matrix_imap g m) = bound m.
Hypothesis side_imap : forall g m, side m -> side (Matrix_imap g m).
Hypothesis body_spec : forall m d k,
  Matrix_wf m -> k < bound m -> side m ->
  body k (m, d)
  = if has_finite (view_cells m (mk k))
    then Ok (view_reduced m (mk k), int_add d (minimum (view_cells m (mk k))))
    else Err AssertionFailure.

Lemma view_cells_view_reduced_ne m k i :
  Matrix_wf m -> i < bound m -> i ≠ k ->
  view_cells (view_reduced m (mk k)) (mk i) = view_cells m (mk i).
Proof using mk_axis mk_valid.
  intros Hwf Hi Hne. apply view_cells_imap_id; [done|by apply mk_valid|].
  intros a b x. rewrite !mk_axis. intros ->%bool_decide_eq_true.
  by rewrite bool_decide_eq_false_2.
Qed.

Lemma reduce_loop_spec n : forall k m d,
  Matrix_wf m -> k + n <= bound m -> side m -> int_wrap d = d ->
  for_range_from k n body (m, d)
  = if forallb (fun i => has_finite (view_cells m (mk i))) (seq k n)
    then Ok (Matrix_imap (fun i j c =>
               if bool_decide (k <= axis i j < k + n)
               then cell_minus (minimum (view_cells m (mk (axis i j)))) c else c) m,
             int_wrap (d + sumZ ((fun i => minimum (view_cells m (mk i))) <$> seq k n)))
    else Err AssertionFailure.
Proof using All.
  induction n as [|n IH]; intros k m d Hwf Hk Hside Hd.
  - simpl. do 2 f_equal; [|by rewrite Z.add_0_r]. symmetry. apply Matrix_imap_id.
    intros i j x _. by rewrite bool_decide_eq_false_2 by lia.
  - rewrite for_range_from_S, body_spec by (done || lia).
    cbn [seq forallb].
    destruct (has_finite (view_cells m (mk k))) eqn:Hfin; simpl; [|done].
    rewrite IH; [|by apply view_reduced_wf|unfold view_reduced; rewrite bound_imap; lia
                 |by apply side_imap|apply int_wrap_idemp].
    assert (forall i, i ∈ seq (S k) n ->
              view_cells (view_reduced m (mk k)) (mk i) = view_cells m (mk i)) as Hsame.
    { intros i [Hi1 Hi2]%elem_of_seq. apply view_cells_view_reduced_ne; [done|lia|lia]. }
    assert (forallb (fun i => has_finite (view_cells (view_reduced m (mk k)) (mk i))) (seq (S k) n)
            = forallb (fun i => has_finite (view_cells m (mk i))) (seq (S k) n)) as ->.
    { apply eq_true_iff_eq. rewrite !forallb_forall. split; intros H i Hi.
      - rewrite <- Hsame by (by apply list_elem_of_In). by apply H.
      - rewrite Hsame by (by apply list_elem_of_In). by apply H. }
    destruct (forallb _ (seq (S k) n)); [|done].
    f_equal. f_equal.
    + unfold view_reduced. rewrite Matrix_imap_imap. apply Matrix_imap_ext.
      intros i j x Hx. rewrite mk_axis.
      destruct (decide (axis i j = k)) as [Heq|Hne].
      * rewrite (bool_decide_eq_true_2 (axis i j = k)) by done.
        rewrite (bool_decide_eq_false_2 (S k <= axis i j < S k + n)) by lia.
        rewrite (bool_decide_eq_true_2 (k <= axis i j < k + S n)) by lia.
        by rewrite Heq.
      * rewrite (bool_decide_eq_false_2 (axis i j = k)) by done.
        destruct (decide (S k <= axis i j < S k + n)) as [Hin|Hout].
        -- rewrite !bool_decide_eq_true_2 by lia.
           fold (view_reduced m (mk k)).
           rewrite Hsame; [done|]. apply elem_of_seq. lia.
        -- rewrite !bool_decide_eq_false_2 by lia. done.
    + assert (((fun i => minimum (view_cells (view_reduced m (mk k)) (mk i))) <$> seq (S k) n)
              = ((fun i => minimum (view_cells m (mk i))) <$> seq (S k) n)) as ->.
      { apply list_fmap_ext. intros ? i Hi%list_elem_of_lookup_2. by rewrite Hsame. }
      unfold int_add. rewrite int_wrap_add_l, <-Z.add_assoc. reflexivity.
Qed.

End ReduceLoop.

(** ** The row loop, the column loop, and ReduceMatrix as a whole *)

Section ReduceWhole.
Implicit Types (m : Matrix CostMatrixInteger) (cm : CostMatrix).

Lemma reduce_rows_spec m d :
  Matrix_wf m -> int_wrap d = d ->
  for_range (num_rows_ m) reduce_row (m, d)
  = if rows_have_finite m
    then Ok (rows_reduced m, int_wrap (d + sumZ (row_minima m)))
    else Err AssertionFailure.
Proof.
  intros Hwf Hd. unfold for_range.
  rewrite (reduce_loop_spec CostRow (fun i _ => i) num_rows_ (fun _ => True) reduce_row);
    [|done|done|done|done|by intros; apply reduce_row_spec|done|simpl; lia|done|done].
  unfold rows_have_finite, row_minima, GetNumRows. simpl.
  destruct (forallb _ _); [|done]. do 2 f_equal.
  apply Matrix_imap_ext. intros i j x Hx.
  apply (cell_at_Some _ _ _ _ Hwf) in Hx. by rewrite bool_decide_eq_true_2 by lia.
Qed.

Lemma reduce_columns_spec m d :
  Matrix_wf m -> (0 < num_columns_ m -> 0 < num_rows_ m) -> int_wrap d = d ->
  for_range (num_columns_ m) reduce_column (m, d)
  = if columns_have_finite m
    then Ok (columns_reduced m, int_wrap (d + sumZ (column_minima m)))
    else Err AssertionFailure.
Proof.
  intros Hwf Hpos Hd. unfold for_range.
  destruct (decide (num_columns_ m = 0)) as [Hz|Hnz].
  - unfold columns_have_finite, column_minima, GetNumColumns. rewrite Hz. simpl.
    do 2 f_equal; [|unfold sumZ; simpl; by rewrite Z.add_0_r]. symmetry.
    apply Matrix_imap_id.
    intros i j x Hx. apply (cell_at_Some _ _ _ _ Hwf) in Hx. lia.
  - rewrite (reduce_loop_spec CostColumn (fun _ j => j) num_columns_
               (fun m => 0 < num_rows_ m) reduce_column);
      [|done|done|done|done|by intros; apply reduce_column_spec|done|simpl; lia|lia|done].
    unfold columns_have_finite, column_minima, GetNumColumns. simpl.
    destruct (forallb _ _); [|done]. do 2 f_equal.
    apply Matrix_imap_ext. intros i j x Hx.
    apply (cell_at_Some _ _ _ _ Hwf) in Hx. by rewrite bool_decide_eq_true_2 by lia.
Qed.

Lemma rows_reduced_wf m : Matrix_wf m -> Matrix_wf (rows_reduced m).
Proof. apply Matrix_imap_wf. Qed.

Lemma columns_reduced_wf m : Matrix_wf m -> Matrix_wf (columns_reduced m).
Proof. apply Matrix_imap_wf. Qed.

Lemma reduced_wf m : Matrix_wf m -> Matrix_wf (reduced m).
Proof. intros. by apply columns_reduced_wf, rows_reduced_wf. Qed.

Lemma row_cells_rows_reduced m i :
  row_cells (rows_reduced m) i = cell_minus (minimum (row_cells m i)) <$> row_cells m i.
Proof. unfold rows_reduced. rewrite row_cells_imap. apply imap_const. Qed.

Lemma column_cells_columns_reduced m j :
  Matrix_wf m -> j < num_columns_ m ->
  column_cells (columns_reduced m) j
  = cell_minus (minimum (column_cells m j)) <$> column_cells m j.
Proof.
  intros Hwf Hj. unfold columns_reduced. rewrite column_cells_imap by done.
  apply imap_const.
Qed.

Lemma has_finite_fmap_cell_minus d l : has_finite (cell_minus d <$> l) = has_finite l.
Proof.
  rewrite <- (imap_const (cell_minus d)). apply has_finite_imap.
  intros. apply cell_minus_infinite.
Qed.

Lemma columns_have_finite_rows_reduced m :
  Matrix_wf m -> columns_have_finite (rows_reduced m) = columns_have_finite m.
Proof.
  intros Hwf. unfold columns_have_finite. simpl.
  apply eq_true_iff_eq. rewrite !forallb_forall.
  assert (forall j, In j (seq 0 (GetNumColumns m)) ->
            has_finite (column_cells (rows_reduced m) j) = has_finite (column_cells m j)) as Heq.
  { intros j [_ Hj]%list_elem_of_In%elem_of_seq. unfold rows_reduced.
    rewrite column_cells_imap by (done || (unfold GetNumColumns in Hj; lia)).
    apply has_finite_imap. intros. apply cell_minus_infinite. }
  split; intros H j Hj; [rewrite <- Heq by done | rewrite Heq by done]; by apply H.
Qed.

(** On a square matrix whose dimension [Size()] returns, [ReduceMatrix]
    either fails an assertion or returns the row-then-column reduction. *)
Lemma ReduceMatrix_eq Size cm :
  Matrix_wf (cost_matrix_ cm) -> square Size (cost_matrix_ cm) ->
  ReduceMatrix Size cm
  = if reducible (cost_matrix_ cm)
    then Ok (int_wrap (reduction_total (cost_matrix_ cm)),
             with_matrix cm (reduced (cost_matrix_ cm)))
    else Err AssertionFailure.
Proof.
  intros Hwf [HR HC]. unfold ReduceMatrix, reducible, GetNumRows, GetNumColumns in *.
  rewrite <- HR at 1. rewrite reduce_rows_spec by done.
  destruct (rows_have_finite (cost_matrix_ cm)); simpl; [|done].
  replace Size with (num_columns_ (rows_reduced (cost_matrix_ cm))) by done.
  rewrite reduce_columns_spec;
    [|by apply rows_reduced_wf|simpl; lia|apply int_wrap_idemp].
  rewrite columns_have_finite_rows_reduced by done.
  destruct (columns_have_finite (cost_matrix_ cm)); simpl; [|done].
  unfold reduction_total, reduced, with_matrix. rewrite int_wrap_add_l. done.
Qed.

End ReduceWhole.

(** ** Reduction keeps the shape of the matrix *)

Section Shape.
Implicit Types (m : Matrix CostMatrixInteger) (cm : CostMatrix).

Lemma for_each_loop_shape f fuel : forall m first last m',
  for_each_loop fuel m first last f = Ok m' -> exists g, m' = Matrix_imap g m.
Proof.
  induction fuel as [|fuel IH]; intros m first last m';
    rewrite for_each_loop_unfold; destruct (CostVector_Iterator_neq first last);
    try discriminate;
    try (intros [= <-]; exists (fun _ _ x => x); symmetry; by apply Matrix_imap_id).
  intros (m1 & Hupd & Hrest)%bind_Ok_inv.
  apply Matrix_update_Ok_inv in Hupd as (_ & _ & ->).
  destruct (IH _ _ _ _ Hrest) as [g ->]. rewrite Matrix_imap_imap. eauto.
Qed.

Lemma reduce_row_shape r m d m' d' :
  reduce_row r (m, d) = Ok (m', d') -> exists g, m' = Matrix_imap g m.
Proof.
  unfold reduce_row. intros (min_it & _ & H)%bind_Ok_inv.
  destruct (CostVector_Iterator_eq _ _); [done|].
  apply bind_Ok_inv in H as (mn & _ & H). destruct (IsInfinite mn); [done|].
  apply bind_Ok_inv in H as (m1 & Hfe & [= <- _]).
  by eapply for_each_loop_shape.
Qed.

Lemma reduce_column_shape c m d m' d' :
  reduce_column c (m, d) = Ok (m', d') -> exists g, m' = Matrix_imap g m.
Proof.
  unfold reduce_column. intros (min_it & _ & H)%bind_Ok_inv.
  apply bind_Ok_inv in H as (mn & _ & H). destruct (IsInfinite mn); [done|].
  apply bind_Ok_inv in H as (m1 & Hfe & [= <- _]).
  by eapply for_each_loop_shape.
Qed.

Lemma for_range_from_shape body n : forall k (st st' : Matrix CostMatrixInteger * Z),
  (forall k m d m' d', body k (m, d) = Ok (m', d') -> exists g, m' = Matrix_imap g m) ->
  for_range_from k n body st = Ok st' ->
  exists g, fst st' = Matrix_imap g (fst st).
Proof.
  induction n as [|n IH]; intros k st st' Hbody; simpl.
  - intros [= <-]. exists (fun _ _ x => x). symmetry. by apply Matrix_imap_id.
  - intros ([m1 d1] & Hb & Hrest)%bind_Ok_inv. destruct st as [m d].
    destruct (Hbody _ _ _ _ _ Hb) as [g1 ->].
    destruct (IH _ _ _ Hbody Hrest) as [g2 ->]. simpl.
    rewrite Matrix_imap_imap. eauto.
Qed.

Lemma ReduceMatrix_shape Size cm decremented cm' :
  ReduceMatrix Size cm = Ok (decremented, cm') ->
  exists g, cm' = with_matrix cm (Matrix_imap g (cost_matrix_ cm)).
Proof.
  unfold ReduceMatrix, for_range. intros (st1 & H1 & H)%bind_Ok_inv.
  apply bind_Ok_inv in H as (st2 & H2 & [= _ <-]).
  destruct (for_range_from_shape _ _ _ _ _ reduce_row_shape H1) as [g1 Hg1].
  destruct (for_range_from_shape _ _ _ _ _ reduce_column_shape H2) as [g2 Hg2].
  simpl in Hg1. rewrite Hg2, Hg1, Matrix_imap_imap. eauto.
Qed.

Lemma ReduceMatrix_times_shape Size n : forall cm cm',
  ReduceMatrix_times Size n cm = Ok cm' ->
  exists g, cm' = with_matrix cm (Matrix_imap g (cost_matrix_ cm)).
Proof.
  induction n as [|n IH]; intros cm cm'; simpl.
  - intros [= <-]. exists (fun _ _ x => x). destruct cm as [m rm cmap].
    unfold with_matrix. simpl. f_equal. symmetry. by apply Matrix_imap_id.
  - intros ([d cm1] & H1 & Hrest)%bind_Ok_inv. simpl in Hrest.
    destruct (ReduceMatrix_shape _ _ _ _ H1) as [g1 ->].
    destruct (IH _ _ Hrest) as [g2 ->]. simpl. rewrite Matrix_imap_imap. eauto.
Qed.

End Shape.

(** ** Zeros and signs after reduction *)

Section Zeros.
Implicit Types (m : Matrix CostMatrixInteger) (l : list CostMatrixInteger).

Lemma least_spec (zs : list Z) z :
  least zs = Some z -> z ∈ zs /\ forall w, w ∈ zs -> (z <= w)%Z.
Proof.
  destruct zs as [|x rest]; [done|]. simpl. intros [= <-].
  destruct (foldr_min_le x rest) as [H1 H2]. rewrite Forall_forall in H2.
  split; [apply foldr_min_elem|].
  intros w [->|Hw]%elem_of_cons; [done | by apply H2].
Qed.

Lemma minimum_spec l :
  has_finite l = true ->
  (exists y, y ∈ l /\ infinite y = false /\ value y = minimum l) /\
  (forall x, x ∈ l -> infinite x = false -> (minimum l <= value x)%Z).
Proof.
  intros [c [Hc Hfin]]%has_finite_true. unfold minimum.
  destruct (least (finite_values l)) as [z|] eqn:Hz.
  - apply least_spec in Hz as [Hz1 Hz2]. simpl. split.
    + apply elem_of_finite_values in Hz1 as (y & ? & ? & ?). eauto.
    + intros x Hx Hxfin. apply Hz2. apply elem_of_finite_values. eauto.
  - assert (value c ∈ finite_values l) as Hin by (apply elem_of_finite_values; eauto).
    destruct (finite_values l); [|done]. by apply elem_of_nil in Hin.
Qed.

Lemma has_zero_true l :
  has_zero l = true <-> exists c, c ∈ l /\ infinite c = false /\ value c = 0%Z.
Proof.
  unfold has_zero, is_zero. rewrite existsb_exists. split.
  - intros [c [Hc [H1 H2]%andb_true_iff]]. exists c. rewrite list_elem_of_In.
    apply bool_decide_eq_true in H2. by destruct (infinite c).
  - intros [c (Hc & H1 & H2)]. exists c. rewrite <- list_elem_of_In.
    rewrite H1, H2. done.
Qed.

Lemma has_zero_has_finite l : has_zero l = true -> has_finite l = true.
Proof.
  intros (c & ? & ? & _)%has_zero_true. apply has_finite_true. eauto.
Qed.

Lemma has_zero_reduced l :
  has_finite l = true -> has_zero (cell_minus (minimum l) <$> l) = true.
Proof.
  intros [[y (Hy & Hfin & Hval)] _]%minimum_spec. apply has_zero_true.
  exists (cell_minus (minimum l) y). split; [by apply list_elem_of_fmap_2|].
  rewrite cell_minus_infinite, cell_minus_value by done. split; [done|lia].
Qed.

Lemma minimum_zero l :
  has_zero l = true ->
  (forall x, x ∈ l -> infinite x = false -> (0 <= value x)%Z) ->
  minimum l = 0%Z.
Proof.
  intros (z & Hz & Hfin & Hval)%has_zero_true Hpos.
  rewrite (minimum_eq l z); [done..|].
  intros x Hx. unfold cmi_lt. destruct (infinite x) eqn:Hxfin; [done|].
  rewrite Hfin. apply Z.ltb_ge. rewrite Hval. by apply Hpos.
Qed.

Lemma nonneg_rows_reduced m : nonneg (rows_reduced m).
Proof.
  intros i j x Hx Hfin. unfold rows_reduced in Hx. rewrite cell_at_imap in Hx.
  destruct (cell_at m i j) as [y|] eqn:Hy; [|done]. simpl in Hx. injection Hx as <-.
  rewrite cell_minus_infinite in Hfin. rewrite cell_minus_value by done.
  assert (y ∈ row_cells m i) as Hel.
  { apply list_elem_of_lookup. exists j. by rewrite row_cells_lookup. }
  assert (has_finite (row_cells m i) = true) as Hhas by (apply has_finite_true; eauto).
  destruct (minimum_spec _ Hhas) as [_ Hle]. specialize (Hle y Hel Hfin). lia.
Qed.

Lemma nonneg_columns_reduced m : Matrix_wf m -> nonneg (columns_reduced m).
Proof.
  intros Hwf i j x Hx Hfin. unfold columns_reduced in Hx. rewrite cell_at_imap in Hx.
  destruct (cell_at m i j) as [y|] eqn:Hy; [|done]. simpl in Hx. injection Hx as <-.
  rewrite cell_minus_infinite in Hfin. rewrite cell_minus_value by done.
  destruct (cell_at_Some _ _ _ _ Hwf Hy) as [_ Hj].
  assert (y ∈ column_cells m j) as Hel.
  { apply list_elem_of_lookup. exists i. by rewrite column_cells_lookup. }
  assert (has_finite (column_cells m j) = true) as Hhas by (apply has_finite_true; eauto).
  destruct (minimum_spec _ Hhas) as [_ Hle]. specialize (Hle y Hel Hfin). lia.
Qed.

Lemma nonneg_row m i x :
  nonneg m -> x ∈ row_cells m i -> infinite x = false -> (0 <= value x)%Z.
Proof.
  intros Hpos [j Hj]%list_elem_of_lookup. rewrite row_cells_lookup in Hj. by eapply Hpos.
Qed.

Lemma nonneg_column m j x :
  Matrix_wf m -> j < num_columns_ m ->
  nonneg m -> x ∈ column_cells m j -> infinite x = false -> (0 <= value x)%Z.
Proof.
  intros Hwf Hlt Hpos [i Hi]%list_elem_of_lookup.
  rewrite column_cells_lookup in Hi by done. by eapply Hpos.
Qed.

(** A zero of a row survives the column step when nothing is negative. *)
Lemma has_zero_row_columns_reduced m i :
  Matrix_wf m -> nonneg m ->
  has_zero (row_cells m i) = true ->
  has_zero (row_cells (columns_reduced m) i) = true.
Proof.
  intros Hwf Hpos (z & [j Hj]%list_elem_of_lookup & Hfin & Hval)%has_zero_true.
  rewrite row_cells_lookup in Hj.
  destruct (cell_at_Some _ _ _ _ Hwf Hj) as [_ Hlt].
  assert (minimum (column_cells m j) = 0%Z) as Hmin.
  { apply minimum_zero; [|intros x; by apply nonneg_column].
    apply has_zero_true. exists z. split; [|done].
    apply list_elem_of_lookup. exists i. by rewrite column_cells_lookup. }
  apply has_zero_true. exists z. split; [|done].
  apply list_elem_of_lookup. exists j.
  rewrite row_cells_lookup. unfold columns_reduced. rewrite cell_at_imap, Hj. simpl.
  by rewrite Hmin, cell_minus_0.
Qed.

Lemma rows_have_zero_reduced m :
  Matrix_wf m -> rows_have_finite m = true -> rows_have_zero (reduced m) = true.
Proof.
  intros Hwf Hrows. unfold rows_have_zero, rows_have_finite in *.
  rewrite forallb_forall in *. intros i Hi. simpl in Hi.
  apply has_zero_row_columns_reduced;
    [by apply rows_reduced_wf | apply nonneg_rows_reduced |].
  rewrite row_cells_rows_reduced. apply has_zero_reduced. by apply Hrows.
Qed.

Lemma columns_have_zero_reduced m :
  Matrix_wf m -> columns_have_finite m = true -> columns_have_zero (reduced m) = true.
Proof.
  intros Hwf Hcols. rewrite <- columns_have_finite_rows_reduced in Hcols by done.
  unfold columns_have_zero, columns_have_finite, reduced in *.
  rewrite forallb_forall in *. intros j Hj. simpl in Hj.
  assert (j < num_columns_ (rows_reduced m)) as Hlt.
  { apply list_elem_of_In, elem_of_seq in Hj. simpl. unfold GetNumColumns in Hj. lia. }
  rewrite column_cells_columns_reduced by (done || by apply rows_reduced_wf).
  apply has_zero_reduced. by apply Hcols.
Qed.

Lemma nonneg_reduced m : Matrix_wf m -> nonneg (reduced m).
Proof. intros Hwf. apply nonneg_columns_reduced. by apply rows_reduced_wf. Qed.

Lemma sumZ_zero {A} (f : A -> Z) (xs : list A) :
  (forall x, x ∈ xs -> f x = 0%Z) -> sumZ (f <$> xs) = 0%Z.
Proof.
  induction xs as [|x xs IH]; intros H; [done|].
  rewrite fmap_cons, sumZ_cons, H, IH; [done| |apply list_elem_of_here].
  intros y Hy. apply H. by apply list_elem_of_further.
Qed.

(** A matrix that already has a zero in every row and column, and nothing
    negative, is a fixed point of the reduction, at no cost. *)
Lemma reduced_fixpoint m :
  Matrix_wf m -> nonneg m ->
  rows_have_zero m = true -> columns_have_zero m = true ->
  reducible m = true /\ reduction_total m = 0%Z /\ reduced m = m.
Proof.
  intros Hwf Hpos Hrows Hcols.
  unfold rows_have_zero, columns_have_zero in *. rewrite forallb_forall in Hrows, Hcols.
  assert (forall i, i < num_rows_ m -> minimum (row_cells m i) = 0%Z) as Hrmin.
  { intros i Hi. apply minimum_zero; [|intros x; by apply nonneg_row].
    apply Hrows, list_elem_of_In, elem_of_seq. unfold GetNumRows. lia. }
  assert (forall j, j < num_columns_ m -> minimum (column_cells m j) = 0%Z) as Hcmin.
  { intros j Hj. apply minimum_zero; [|intros x; by apply nonneg_column].
    apply Hcols, list_elem_of_In, elem_of_seq. unfold GetNumColumns. lia. }
  assert (rows_reduced m = m) as Hrr.
  { apply Matrix_imap_id. intros i j x Hx.
    destruct (cell_at_Some _ _ _ _ Hwf Hx) as [Hi _]. by rewrite Hrmin, cell_minus_0. }
  assert (columns_reduced m = m) as Hcr.
  { apply Matrix_imap_id. intros i j x Hx.
    destruct (cell_at_Some _ _ _ _ Hwf Hx) as [_ Hj]. by rewrite Hcmin, cell_minus_0. }
  split; [|split].
  - unfold reducible, rows_have_finite, columns_have_finite.
    apply andb_true_iff. rewrite !forallb_forall.
    split; intros k Hk; apply has_zero_has_finite; auto.
  - unfold reduction_total. rewrite Hrr. unfold row_minima, column_minima.
    rewrite !sumZ_zero; [done| |].
    + intros j [_ Hj]%elem_of_seq. apply Hcmin. unfold GetNumColumns in Hj. lia.
    + intros i [_ Hi]%elem_of_seq. apply Hrmin. unfold GetNumRows in Hi. lia.
  - unfold reduced. by rewrite Hrr, Hcr.
Qed.

End Zeros.

(** ** ReduceMatrix whatever [Size()] returns *)

Section Partial.
Implicit Types (m : Matrix CostMatrixInteger) (cm : CostMatrix).

Lemma reduce_rows_upto m d k :
  Matrix_wf m -> k <= num_rows_ m -> int_wrap d = d ->
  for_range k reduce_row (m, d)
  = if rows_have_finite_upto k m
    then Ok (rows_reduced_upto k m,
             int_wrap (d + sumZ ((fun i => minimum (row_cells m i)) <$> seq 0 k)))
    else Err AssertionFailure.
Proof.
  intros Hwf Hk Hd. unfold for_range.
  rewrite (reduce_loop_spec CostRow (fun i _ => i) num_rows_ (fun _ => True) reduce_row);
    [|done|done|done|done|by intros; apply reduce_row_spec|done|simpl; lia|done|done].
  unfold rows_have_finite_upto. simpl.
  destruct (forallb _ _); [|done]. do 2 f_equal.
  apply Matrix_imap_ext. intros i j x _.
  by rewrite (bool_decide_ext (0 <= i < 0 + k) (i < k)) by lia.
Qed.

Lemma reduce_columns_upto m d k :
  Matrix_wf m -> k <= num_columns_ m -> (0 < k -> 0 < num_rows_ m) -> int_wrap d = d ->
  for_range k reduce_column (m, d)
  = if columns_have_finite_upto k m
    then Ok (columns_reduced_upto k m,
             int_wrap (d + sumZ ((fun j => minimum (column_cells m j)) <$> seq 0 k)))
    else Err AssertionFailure.
Proof.
  intros Hwf Hk Hpos Hd. unfold for_range.
  destruct k as [|k].
  - simpl. do 2 f_equal; [|unfold sumZ; simpl; by rewrite Z.add_0_r]. symmetry.
    by apply Matrix_imap_id.
  - rewrite (reduce_loop_spec CostColumn (fun _ j => j) num_columns_
               (fun m => 0 < num_rows_ m) reduce_column);
      [|done|done|done|done|by intros; apply reduce_column_spec|done|simpl; lia|lia|done].
    unfold columns_have_finite_upto.
    destruct (forallb _ _); [|done]. do 2 f_equal.
    apply Matrix_imap_ext. intros i j x _.
    by rewrite (bool_decide_ext (0 <= j < 0 + S k) (j < S k)) by lia.
Qed.

(** [min_element] returns an iterator of the view it was given. *)
Lemma min_element_loop_ptr cv fuel : forall m first smallest last it,
  min_element_loop fuel m first smallest last = Ok it ->
  cost_vector_ptr_ first = cv -> cost_vector_ptr_ smallest = cv ->
  cost_vector_ptr_ it = cv.
Proof.
  induction fuel as [|fuel IH]; intros m first smallest last it;
    rewrite min_element_loop_unfold; destruct (CostVector_Iterator_neq first last);
    try discriminate; try (by intros [= <-]).
  intros (a & _ & H)%bind_Ok_inv Hf Hs. apply bind_Ok_inv in H as (b & _ & H).
  eapply IH; [exact H| |].
  - unfold CostVector_Iterator_incr. by case_decide.
  - by destruct (cmi_lt a b).
Qed.

Lemma min_element_ptr m cv it :
  min_element m (CostVector_begin cv) (CostVector_end m cv) = Ok it ->
  cost_vector_ptr_ it = cv.
Proof.
  unfold min_element. destruct (CostVector_Iterator_eq _ _); [by intros [= <-]|].
  intros H. eapply min_element_loop_ptr; [exact H| |done].
  unfold CostVector_Iterator_incr. by case_decide.
Qed.

(** A loop body that returns has touched a row, resp. a column, that the
    matrix has. *)
Lemma reduce_row_Ok_range r m d st :
  reduce_row r (m, d) = Ok st -> r < num_rows_ m.
Proof.
  unfold reduce_row. intros (min_it & Hmin & H)%bind_Ok_inv.
  destruct (CostVector_Iterator_eq _ _); [done|].
  apply bind_Ok_inv in H as (mn & Hd & _).
  apply min_element_ptr in Hmin.
  unfold CostVector_Iterator_deref, CostVector_at in Hd. rewrite Hmin in Hd.
  by apply Matrix_get_Ok_inv in Hd as (? & _).
Qed.

Lemma reduce_column_Ok_range c m d st :
  reduce_column c (m, d) = Ok st -> c < num_columns_ m /\ 0 < num_rows_ m.
Proof.
  unfold reduce_column. intros (min_it & Hmin & H)%bind_Ok_inv.
  apply bind_Ok_inv in H as (mn & Hd & _).
  apply min_element_ptr in Hmin.
  unfold CostVector_Iterator_deref, CostVector_at in Hd. rewrite Hmin in Hd.
  apply Matrix_get_Ok_inv in Hd as (? & ? & _). simpl in *. lia.
Qed.

Lemma for_range_Ok_last (body : nat -> Matrix CostMatrixInteger * Z
                                 -> result (Matrix CostMatrixInteger * Z)) n st st' :
  (forall k m d m' d', body k (m, d) = Ok (m', d') -> exists g, m' = Matrix_imap g m) ->
  for_range (S n) body st = Ok st' ->
  exists g d st'', body n (Matrix_imap g (fst st), d) = Ok st''.
Proof.
  intros Hshape. unfold for_range. replace (S n) with (n + 1) by lia.
  rewrite for_range_from_app. intros ([m1 d1] & H1 & H2)%bind_Ok_inv.
  destruct (for_range_from_shape _ _ _ _ _ Hshape H1) as [g Hg]. simpl in Hg, H2.
  apply bind_Ok_inv in H2 as (st'' & H2 & _). subst m1. eauto.
Qed.

(** What a call that returns has done, whatever [Size()] returned. *)
Lemma ReduceMatrix_Ok_inv Size cm decremented cm' :
  Matrix_wf (cost_matrix_ cm) ->
  ReduceMatrix Size cm = Ok (decremented, cm') ->
  Size <= num_rows_ (cost_matrix_ cm) /\ Size <= num_columns_ (cost_matrix_ cm) /\
  rows_have_finite_upto Size (cost_matrix_ cm) = true /\
  columns_have_finite_upto Size (rows_reduced_upto Size (cost_matrix_ cm)) = true /\
  cm' = with_matrix cm
          (columns_reduced_upto Size (rows_reduced_upto Size (cost_matrix_ cm))).
Proof.
  intros Hwf Hred. pose proof Hred as Hred0. unfold ReduceMatrix in Hred.
  apply bind_Ok_inv in Hred as (st1 & H1 & H).
  apply bind_Ok_inv in H as (st2 & H2 & [= _ <-]).
  assert (Size <= num_rows_ (cost_matrix_ cm)) as HR.
  { destruct Size as [|n]; [lia|].
    destruct (for_range_Ok_last _ _ _ _ reduce_row_shape H1) as (g & d & st'' & Hb).
    apply reduce_row_Ok_range in Hb. simpl in Hb. lia. }
  rewrite reduce_rows_upto in H1 by done.
  destruct (rows_have_finite_upto Size (cost_matrix_ cm)) eqn:Hrows; [|done].
  injection H1 as <-.
  assert (Size <= num_columns_ (cost_matrix_ cm)) as HC.
  { destruct Size as [|n]; [lia|].
    destruct (for_range_Ok_last _ _ _ _ reduce_column_shape H2) as (g & d & st'' & Hb).
    apply reduce_column_Ok_range in Hb. simpl in Hb. lia. }
  rewrite reduce_columns_upto in H2;
    [|by apply Matrix_imap_wf|done|simpl; lia|apply int_wrap_idemp].
  destruct (columns_have_finite_upto Size _) eqn:Hcols; [|done].
  injection H2 as <-. done.
Qed.

Lemma ReduceMatrix_eq_upto Size cm :
  Matrix_wf (cost_matrix_ cm) ->
  Size <= num_rows_ (cost_matrix_ cm) -> Size <= num_columns_ (cost_matrix_ cm) ->
  ReduceMatrix Size cm
  = if rows_have_finite_upto Size (cost_matrix_ cm)
       && columns_have_finite_upto Size (rows_reduced_upto Size (cost_matrix_ cm))
    then Ok (int_wrap (reduction_total_upto Size (cost_matrix_ cm)),
             with_matrix cm
               (columns_reduced_upto Size (rows_reduced_upto Size (cost_matrix_ cm))))
    else Err AssertionFailure.
Proof.
  intros Hwf HR HC. unfold ReduceMatrix.
  rewrite reduce_rows_upto by done.
  destruct (rows_have_finite_upto Size (cost_matrix_ cm)); simpl; [|done].
  rewrite reduce_columns_upto;
    [|by apply Matrix_imap_wf|done|simpl; lia|apply int_wrap_idemp].
  destruct (columns_have_finite_upto Size _); simpl; [|done].
  unfold reduction_total_upto. by rewrite int_wrap_add_l.
Qed.

(** Signs and zeros after the two partial steps. *)
Lemma nonneg_rows_reduced_upto k m :
  nonneg m \/ num_rows_ m <= k -> Matrix_wf m -> nonneg (rows_reduced_upto k m).
Proof.
  intros Hcase Hwf i j x Hx Hfin. unfold rows_reduced_upto in Hx.
  rewrite cell_at_imap in Hx.
  destruct (cell_at m i j) as [y|] eqn:Hy; [|done]. simpl in Hx. injection Hx as <-.
  destruct (cell_at_Some _ _ _ _ Hwf Hy) as [Hi _].
  case_bool_decide as Hik.
  - rewrite cell_minus_infinite in Hfin. rewrite cell_minus_value by done.
    assert (y ∈ row_cells m i) as Hel.
    { apply list_elem_of_lookup. exists j. by rewrite row_cells_lookup. }
    assert (has_finite (row_cells m i) = true) as Hhas by (apply has_finite_true; eauto).
    destruct (minimum_spec _ Hhas) as [_ Hle]. specialize (Hle y Hel Hfin). lia.
  - destruct Hcase as [Hpos|Hge]; [by eapply Hpos | lia].
Qed.

Lemma nonneg_columns_reduced_upto k m :
  Matrix_wf m -> nonneg m -> nonneg (columns_reduced_upto k m).
Proof.
  intros Hwf Hpos i j x Hx Hfin. unfold columns_reduced_upto in Hx.
  rewrite cell_at_imap in Hx.
  destruct (cell_at m i j) as [y|] eqn:Hy; [|done]. simpl in Hx. injection Hx as <-.
  destruct (cell_at_Some _ _ _ _ Hwf Hy) as [_ Hj].
  case_bool_decide as Hjk; [|by eapply Hpos].
  rewrite cell_minus_infinite in Hfin. rewrite cell_minus_value by done.
  assert (y ∈ column_cells m j) as Hel.
  { apply list_elem_of_lookup. exists i. by rewrite column_cells_lookup. }
  assert (has_finite (column_cells m j) = true) as Hhas by (apply has_finite_true; eauto).
  destruct (minimum_spec _ Hhas) as [_ Hle]. specialize (Hle y Hel Hfin). lia.
Qed.

Lemma has_zero_rows_reduced_upto k m i :
  i < k -> has_finite (row_cells m i) = true ->
  has_zero (row_cells (rows_reduced_upto k m) i) = true.
Proof.
  intros Hi Hfin.
  assert (row_cells (rows_reduced_upto k m) i
          = cell_minus (minimum (row_cells m i)) <$> row_cells m i) as ->.
  { unfold rows_reduced_upto. rewrite row_cells_imap.
    rewrite bool_decide_eq_true_2 by done. apply imap_const. }
  by apply has_zero_reduced.
Qed.

Lemma has_zero_columns_reduced_upto k m j :
  Matrix_wf m -> j < k -> j < num_columns_ m -> has_finite (column_cells m j) = true ->
  has_zero (column_cells (columns_reduced_upto k m) j) = true.
Proof.
  intros Hwf Hj Hlt Hfin.
  assert (column_cells (columns_reduced_upto k m) j
          = cell_minus (minimum (column_cells m j)) <$> column_cells m j) as ->.
  { unfold columns_reduced_upto. rewrite column_cells_imap by done.
    rewrite bool_decide_eq_true_2 by done. apply imap_const. }
  by apply has_zero_reduced.
Qed.

Lemma has_zero_row_columns_reduced_upto k m i :
  Matrix_wf m -> nonneg m ->
  has_zero (row_cells m i) = true ->
  has_zero (row_cells (columns_reduced_upto k m) i) = true.
Proof.
  intros Hwf Hpos (z & [j Hj]%list_elem_of_lookup & Hfin & Hval)%has_zero_true.
  rewrite row_cells_lookup in Hj.
  destruct (cell_at_Some _ _ _ _ Hwf Hj) as [_ Hlt].
  assert (minimum (column_cells m j) = 0%Z) as Hmin.
  { apply minimum_zero; [|intros x; by apply nonneg_column].
    apply has_zero_true. exists z. split; [|done].
    apply list_elem_of_lookup. exists i. by rewrite column_cells_lookup. }
  apply has_zero_true. exists z. split; [|done].
  apply list_elem_of_lookup. exists j.
  rewrite row_cells_lookup. unfold columns_reduced_upto. rewrite cell_at_imap, Hj. simpl.
  rewrite Hmin, cell_minus_0. by case_bool_decide.
Qed.

(** Where the first [k] rows and columns have a zero and nothing is
    negative, a call with [Size() = k] changes nothing and returns 0. *)
Lemma ReduceMatrix_fixpoint k cm :
  Matrix_wf (cost_matrix_ cm) -> nonneg (cost_matrix_ cm) ->
  k <= num_rows_ (cost_matrix_ cm) -> k <= num_columns_ (cost_matrix_ cm) ->
  (forall i, i < k -> has_zero (row_cells (cost_matrix_ cm) i) = true) ->
  (forall j, j < k -> has_zero (column_cells (cost_matrix_ cm) j) = true) ->
  ReduceMatrix k cm = Ok (0%Z, cm).
Proof.
  intros Hwf Hpos HR HC Hrows Hcols.
  assert (forall i, i < k -> minimum (row_cells (cost_matrix_ cm) i) = 0%Z) as Hrmin.
  { intros i Hi. apply minimum_zero; [by apply Hrows|intros x; by apply nonneg_row]. }
  assert (forall j, j < k -> minimum (column_cells (cost_matrix_ cm) j) = 0%Z) as Hcmin.
  { intros j Hj. apply minimum_zero; [by apply Hcols|].
    intros x. apply nonneg_column; [done|lia|done]. }
  assert (rows_reduced_upto k (cost_matrix_ cm) = cost_matrix_ cm) as Hrr.
  { apply Matrix_imap_id. intros i j x Hx. case_bool_decide; [|done].
    by rewrite Hrmin, cell_minus_0. }
  assert (columns_reduced_upto k (cost_matrix_ cm) = cost_matrix_ cm) as Hcr.
  { apply Matrix_imap_id. intros i j x Hx. case_bool_decide; [|done].
    by rewrite Hcmin, cell_minus_0. }
  rewrite ReduceMatrix_eq_upto by done. rewrite Hrr, Hcr.
  assert (rows_have_finite_upto k (cost_matrix_ cm) = true) as ->.
  { apply forallb_forall. intros i [_ Hi]%list_elem_of_In%elem_of_seq.
    apply has_zero_has_finite, Hrows. lia. }
  assert (columns_have_finite_upto k (cost_matrix_ cm) = true) as ->.
  { apply forallb_forall. intros j [_ Hj]%list_elem_of_In%elem_of_seq.
    apply has_zero_has_finite, Hcols. lia. }
  simpl. unfold reduction_total_upto. rewrite Hrr, !sumZ_zero.
  - destruct cm as [m rm cmap]. done.
  - intros j [_ Hj]%elem_of_seq. apply Hcmin. lia.
  - intros i [_ Hi]%elem_of_seq. apply Hrmin. lia.
Qed.

End Partial.

(** ** The example inputs *)

Lemma matrix4_constructed : CostMatrix_new graph4 [] loops4 = Ok matrix4.
Proof. vm_compute. reflexivity. Qed.

Lemma matrix4_wf : Matrix_wf (cost_matrix_ matrix4).
Proof. concrete. Qed.

Lemma matrix4_square : square 4 (cost_matrix_ matrix4).
Proof. concrete. Qed.

Lemma matrix_2x1_constructed :
  CostMatrix_new graph3 [ {| u := 0; v := 1 |}; {| u := 0; v := 2 |} ] [] = Ok matrix_2x1.
Proof. vm_compute. reflexivity. Qed.

Lemma matrix_1x2_constructed :
  CostMatrix_new graph3 [ {| u := 1; v := 0 |}; {| u := 2; v := 0 |} ]
    [ {| u := 0; v := 2 |} ] = Ok matrix_1x2.
Proof. vm_compute. reflexivity. Qed.

Lemma matrix_1x0_constructed :
  CostMatrix_new graph3
    [ {| u := 0; v := 0 |}; {| u := 1; v := 1 |}; {| u := 1; v := 2 |} ] [] = Ok matrix_1x0.
Proof. vm_compute. reflexivity. Qed.

(** The scenario of the specification: the 4-vertex graph with an infinite
    diagonal is condensed to 4×4; one reduction takes 10 + 10 + 15 + 20 off
    the rows and 0 + 0 + 5 + 10 off the columns of the row-reduced matrix,
    and leaves a zero in every row and column. *)
Example reduce_matrix4 :
  (GetNumRows (cost_matrix_ matrix4), GetNumColumns (cost_matrix_ matrix4)) = (4, 4) /\
  row_minima (cost_matrix_ matrix4) = [10; 10; 15; 20]%Z /\
  column_minima (rows_reduced (cost_matrix_ matrix4)) = [0; 0; 5; 10]%Z /\
  (fun r => (fst r, rows_have_zero (cost_matrix_ (snd r)),
             columns_have_zero (cost_matrix_ (snd r)))) <$> ReduceMatrix 4 matrix4
  = Ok (70%Z, true, true).
Proof. repeat split; by vm_compute. Qed.

(** Each cell of the reduced matrix is the original cell less its row's
    minimum, less the minimum of its column in the row-reduced matrix. *)
Lemma cell_at_reduced m i j :
  cell_at (reduced m) i j
  = (fun x => cell_minus (minimum (column_cells (rows_reduced m) j))
                (cell_minus (minimum (row_cells m i)) x)) <$> cell_at m i j.
Proof.
  unfold reduced, columns_reduced, rows_reduced at 2. rewrite !cell_at_imap.
  by destruct (cell_at m i j).
Qed.

(** ** ReduceMatrix: the claims *)

(** C1 (amended).  On a square condensed matrix, of the dimension [Size()]
    returns, in which every row and every column has a finite cell,
    [ReduceMatrix] subtracts each row's minimum from the cells of that row,
    all rows first, then each column's minimum of the row-reduced matrix
    from the cells of that column.  The total is accumulated in
    [int decremented]: what is returned is the sum of the row minima plus
    the sum of those column minima as an [int], which is that sum itself
    whenever it is representable as an [int]. *)
Theorem ReduceMatrix_rows_then_columns Size cm :
  Matrix_wf (cost_matrix_ cm) -> square Size (cost_matrix_ cm) ->
  reducible (cost_matrix_ cm) = true ->
  ReduceMatrix Size cm
  = Ok (int_wrap (sumZ (row_minima (cost_matrix_ cm))
                  + sumZ (column_minima (rows_reduced (cost_matrix_ cm)))),
        with_matrix cm (columns_reduced (rows_reduced (cost_matrix_ cm)))) /\
  (fits_int (sumZ (row_minima (cost_matrix_ cm))
             + sumZ (column_minima (rows_reduced (cost_matrix_ cm)))) ->
   ReduceMatrix Size cm
   = Ok ((sumZ (row_minima (cost_matrix_ cm))
          + sumZ (column_minima (rows_reduced (cost_matrix_ cm))))%Z,
         with_matrix cm (columns_reduced (rows_reduced (cost_matrix_ cm))))).
Proof.
  intros Hwf Hsq Hred. rewrite ReduceMatrix_eq by done. rewrite Hred.
  split; [done|]. intros Hfits. unfold reduction_total.
  by rewrite int_wrap_fits.
Qed.

Lemma ReduceMatrix_rows_then_columns_witness :
  fits_int (sumZ (row_minima (cost_matrix_ matrix4))
            + sumZ (column_minima (rows_reduced (cost_matrix_ matrix4)))) /\
  ReduceMatrix 4 matrix4
  = Ok ((sumZ (row_minima (cost_matrix_ matrix4))
         + sumZ (column_minima (rows_reduced (cost_matrix_ matrix4))))%Z,
        with_matrix matrix4 (columns_reduced (rows_reduced (cost_matrix_ matrix4)))).
Proof.
  assert (fits_int (sumZ (row_minima (cost_matrix_ matrix4))
                    + sumZ (column_minima (rows_reduced (cost_matrix_ matrix4)))))
    as Hfits by (split; by vm_compute).
  split; [exact Hfits|].
  apply (ReduceMatrix_rows_then_columns 4 matrix4); [| | |exact Hfits].
  - apply matrix4_wf.
  - apply matrix4_square.
  - vm_compute. reflexivity.
Defined.

(** Past [INT_MAX] the total comes back wrapped around: on the 2×2 matrix
    of the graph with cost 2^30 in both directions, loops excluded, the two
    row minima add up to 2^31 and the call returns -2^31. *)
Example ReduceMatrix_total_wraps :
  let cm := Ok_or empty_CostMatrix
              (CostMatrix_new (graph_of [[0; 1073741824]; [1073741824; 0]]%Z) []
                 [ {| u := 0; v := 0 |}; {| u := 1; v := 1 |} ]) in
  square 2 (cost_matrix_ cm) /\ reducible (cost_matrix_ cm) = true /\
  reduction_total (cost_matrix_ cm) = 2147483648%Z /\
  fst <$> ReduceMatrix 2 cm = Ok (-2147483648)%Z.
Proof. by vm_compute. Qed.

(** C1 as stated fails on the 2×1 matrix that including (0,1) and (0,2)
    leaves: both loops run [Size()] times, so whatever [Size()] returns,
    a row is left unreduced or a row or column outside the storage is
    touched. *)
Lemma ReduceMatrix_rows_then_columns_counterexample :
  CostMatrix_new graph3 [ {| u := 0; v := 1 |}; {| u := 0; v := 2 |} ] [] = Ok matrix_2x1 /\
  map (map value) (data_ (cost_matrix_ matrix_2x1)) = [[5%Z]; [7%Z]] /\
  reducible (cost_matrix_ matrix_2x1) = true /\
  reduction_total (cost_matrix_ matrix_2x1) = 12%Z /\
  fst <$> ReduceMatrix 0 matrix_2x1 = Ok 0%Z /\
  fst <$> ReduceMatrix 1 matrix_2x1 = Ok 5%Z /\
  ReduceMatrix 2 matrix_2x1 = Err OutOfRange /\
  (forall Size,
     ReduceMatrix Size matrix_2x1
     ≠ Ok (reduction_total (cost_matrix_ matrix_2x1),
           with_matrix matrix_2x1 (reduced (cost_matrix_ matrix_2x1)))).
Proof.
  repeat (split; [by vm_compute|]).
  intros [|[|[|n]]]; by vm_compute.
Qed.

(** C4 (amended).  After one call of [ReduceMatrix] on a square condensed
    matrix, of the dimension [Size()] returns, with no all-infinite row or
    column, every row and every column of the matrix as it is left contains
    a cell with value 0. *)
Theorem ReduceMatrix_leaves_zeros Size cm :
  Matrix_wf (cost_matrix_ cm) -> square Size (cost_matrix_ cm) ->
  reducible (cost_matrix_ cm) = true ->
  exists decremented cm',
    ReduceMatrix Size cm = Ok (decremented, cm') /\
    rows_have_zero (cost_matrix_ cm') = true /\
    columns_have_zero (cost_matrix_ cm') = true.
Proof.
  intros Hwf Hsq Hred. rewrite ReduceMatrix_eq by done. rewrite Hred.
  apply andb_true_iff in Hred as [Hrows Hcols].
  eexists _, _. split; [reflexivity|]. simpl.
  split; [by apply rows_have_zero_reduced | by apply columns_have_zero_reduced].
Qed.

Lemma ReduceMatrix_leaves_zeros_witness :
  exists decremented cm',
    ReduceMatrix 4 matrix4 = Ok (decremented, cm') /\
    rows_have_zero (cost_matrix_ cm') = true /\
    columns_have_zero (cost_matrix_ cm') = true.
Proof.
  apply (ReduceMatrix_leaves_zeros 4 matrix4).
  - apply matrix4_wf.
  - apply matrix4_square.
  - vm_compute. reflexivity.
Defined.

(** C4 as stated fails on the same 2×1 matrix: where the call returns, its
    second row has no zero. *)
Lemma ReduceMatrix_leaves_zeros_counterexample :
  CostMatrix_new graph3 [ {| u := 0; v := 1 |}; {| u := 0; v := 2 |} ] [] = Ok matrix_2x1 /\
  map (map value) (data_ (cost_matrix_ matrix_2x1)) = [[5%Z]; [7%Z]] /\
  reducible (cost_matrix_ matrix_2x1) = true /\
  (fun r => rows_have_zero (cost_matrix_ (snd r))) <$> ReduceMatrix 0 matrix_2x1 = Ok false /\
  (fun r => rows_have_zero (cost_matrix_ (snd r))) <$> ReduceMatrix 1 matrix_2x1 = Ok false /\
  ReduceMatrix 2 matrix_2x1 = Err OutOfRange /\
  (forall Size, ¬ exists decremented cm',
     ReduceMatrix Size matrix_2x1 = Ok (decremented, cm') /\
     rows_have_zero (cost_matrix_ cm') = true /\
     columns_have_zero (cost_matrix_ cm') = true).
Proof.
  repeat (split; [by vm_compute|]).
  intros [|[|[|n]]] (d & cm' & H & Hr & _); vm_compute in H; try discriminate;
    injection H as <- <-; by vm_compute in Hr.
Qed.

(** C5.  When a call of [ReduceMatrix] has returned, a second call on the
    matrix as it was left returns 0 (and leaves the matrix as it is).  This
    holds whatever [Size()] returns when no finite cost is negative, and
    for any costs when [Size()] is the number of condensed rows. *)
Theorem ReduceMatrix_twice Size cm decremented cm' :
  Matrix_wf (cost_matrix_ cm) ->
  nonneg (cost_matrix_ cm) \/ GetNumRows (cost_matrix_ cm) = Size ->
  ReduceMatrix Size cm = Ok (decremented, cm') ->
  ReduceMatrix Size cm' = Ok (0%Z, cm').
Proof.
  intros Hwf Hcase Hred.
  destruct (ReduceMatrix_Ok_inv _ _ _ _ Hwf Hred) as (HR & HC & Hrows & Hcols & ->).
  set (m1 := rows_reduced_upto Size (cost_matrix_ cm)) in *.
  assert (Matrix_wf m1) as Hwf1 by (by apply Matrix_imap_wf).
  assert (nonneg m1) as Hpos1.
  { apply nonneg_rows_reduced_upto; [|done].
    destruct Hcase as [?|Heq]; [by left|right]. unfold GetNumRows in Heq. lia. }
  unfold rows_have_finite_upto, columns_have_finite_upto in *.
  rewrite forallb_forall in Hrows, Hcols.
  apply ReduceMatrix_fixpoint; simpl.
  - by apply Matrix_imap_wf.
  - by apply nonneg_columns_reduced_upto.
  - done.
  - done.
  - intros i Hi. apply has_zero_row_columns_reduced_upto; [done|done|].
    apply has_zero_rows_reduced_upto; [done|].
    apply Hrows, list_elem_of_In, elem_of_seq. lia.
  - intros j Hj. apply has_zero_columns_reduced_upto; [done|done|simpl; lia|].
    apply Hcols, list_elem_of_In, elem_of_seq. lia.
Qed.

Lemma ReduceMatrix_twice_witness :
  ReduceMatrix 4 (Ok_or matrix4 (snd <$> ReduceMatrix 4 matrix4))
  = Ok (0%Z, Ok_or matrix4 (snd <$> ReduceMatrix 4 matrix4)).
Proof.
  apply (ReduceMatrix_twice 4 matrix4 70%Z).
  - apply matrix4_wf.
  - right. reflexivity.
  - vm_compute. reflexivity.
Defined.

(** On a square matrix with a finite cell in every row and column the
    first call does return, so the second returns 0. *)
Lemma second_call_on_square Size cm :
  Matrix_wf (cost_matrix_ cm) -> square Size (cost_matrix_ cm) ->
  reducible (cost_matrix_ cm) = true ->
  exists decremented cm',
    ReduceMatrix Size cm = Ok (decremented, cm') /\
    ReduceMatrix Size cm' = Ok (0%Z, cm').
Proof.
  intros Hwf Hsq Hred. rewrite ReduceMatrix_eq by done. rewrite Hred.
  eexists _, _. split; [reflexivity|].
  apply andb_true_iff in Hred as [Hrows Hcols].
  destruct (reduced_fixpoint (reduced (cost_matrix_ cm))) as (Hred' & Htot & Hfix);
    [by apply reduced_wf | by apply nonneg_reduced
    | by apply rows_have_zero_reduced | by apply columns_have_zero_reduced |].
  rewrite ReduceMatrix_eq; [|by apply reduced_wf|done]. simpl.
  rewrite Hred', Htot, Hfix. done.
Qed.

(** A second call can return something else than 0 only on a matrix with a
    negative cost whose rows [Size()] does not all cover: here a 2×1 matrix
    with the costs 5 and -7, reduced with [Size() = 1]. *)
Example second_call_needs_sign :
  let cm := {| cost_matrix_ := {| num_rows_ := 2; num_columns_ := 1;
                                  data_ := [[graph_cell graph3 0 1];
                                            [mkCostMatrixInteger (-7) {| u := 1; v := 0 |}]] |};
               row_mapping_ := ∅; column_mapping_ := ∅ |} in
  fst <$> ReduceMatrix 1 cm = Ok (-2)%Z /\
  fst <$> ReduceMatrix 1 (Ok_or cm (snd <$> ReduceMatrix 1 cm)) = Ok 7%Z.
Proof. split; by vm_compute. Qed.

(** C8 (amended).  On a square condensed matrix, of the dimension [Size()]
    returns: if every row and every column has a finite cell, then every
    minimum [ReduceMatrix] looks for exists and is finite, for each row of
    the matrix and for each column of the row-reduced matrix, and the call
    returns; if some row or column is all-infinite, the call fails an
    assertion instead of returning a bound. *)
Theorem ReduceMatrix_assertions Size cm :
  Matrix_wf (cost_matrix_ cm) -> square Size (cost_matrix_ cm) ->
  (reducible (cost_matrix_ cm) = true ->
     is_Ok (ReduceMatrix Size cm) = true /\
     forall cv m, (exists r, r < Size /\ cv = CostRow r /\ m = cost_matrix_ cm) \/
                  (exists c, c < Size /\ cv = CostColumn c /\ m = rows_reduced (cost_matrix_ cm)) ->
       exists min_it mn,
         min_element m (CostVector_begin cv) (CostVector_end m cv) = Ok min_it /\
         CostVector_Iterator_eq min_it (CostVector_end m cv) = false /\
         CostVector_Iterator_deref m min_it = Ok mn /\
         IsInfinite mn = false) /\
  (reducible (cost_matrix_ cm) = false -> ReduceMatrix Size cm = Err AssertionFailure).
Proof.
  intros Hwf Hsq. rewrite ReduceMatrix_eq by done. split; intros Hred; rewrite Hred; [|done].
  split; [done|]. destruct Hsq as [HR HC]. unfold GetNumRows, GetNumColumns in *.
  apply andb_true_iff in Hred as [Hrows Hcols].
  intros cv m [(r & Hr & -> & ->)|(c & Hc & -> & ->)].
  - destruct (reduce_view_spec (cost_matrix_ cm) (CostRow r)) as
      (min_it & mn & Hmin & Hne & Hd & _ & Hinf & _);
      [done | simpl; unfold GetNumRows; lia | simpl; unfold GetNumColumns; lia |].
    exists min_it, mn. repeat (split; [done|]). rewrite Hinf. simpl.
    unfold rows_have_finite in Hrows. rewrite forallb_forall in Hrows.
    rewrite Hrows; [done|]. apply list_elem_of_In, elem_of_seq. unfold GetNumRows. lia.
  - rewrite <- columns_have_finite_rows_reduced in Hcols by done.
    destruct (reduce_view_spec (rows_reduced (cost_matrix_ cm)) (CostColumn c)) as
      (min_it & mn & Hmin & Hne & Hd & _ & Hinf & _);
      [by apply rows_reduced_wf | simpl; unfold GetNumColumns; simpl; lia
      | simpl; unfold GetNumRows; simpl; lia |].
    exists min_it, mn. repeat (split; [done|]). rewrite Hinf. simpl.
    unfold columns_have_finite in Hcols. rewrite forallb_forall in Hcols.
    rewrite Hcols; [done|]. apply list_elem_of_In, elem_of_seq.
    unfold GetNumColumns. simpl. lia.
Qed.

Lemma ReduceMatrix_assertions_witness :
  is_Ok (ReduceMatrix 4 matrix4) = true /\
  ReduceMatrix 4 matrix4_blocked = Err AssertionFailure.
Proof.
  split.
  - apply (ReduceMatrix_assertions 4 matrix4).
    + apply matrix4_wf.
    + apply matrix4_square.
    + vm_compute. reflexivity.
  - apply (ReduceMatrix_assertions 4 matrix4_blocked).
    + concrete.
    + concrete.
    + vm_compute. reflexivity.
Defined.

(** C8 as stated fails on the 1×2 matrix that including (1,0) and (2,0)
    and excluding (0,2) leaves: its second column is all-infinite, yet
    whatever [Size()] returns no assertion fails. *)
Lemma ReduceMatrix_assertions_counterexample :
  CostMatrix_new graph3 [ {| u := 1; v := 0 |}; {| u := 2; v := 0 |} ]
    [ {| u := 0; v := 2 |} ] = Ok matrix_1x2 /\
  map (map (fun c => (value c, infinite c))) (data_ (cost_matrix_ matrix_1x2))
  = [[(5%Z, false); (9%Z, true)]] /\
  columns_have_finite (cost_matrix_ matrix_1x2) = false /\
  fst <$> ReduceMatrix 0 matrix_1x2 = Ok 0%Z /\
  fst <$> ReduceMatrix 1 matrix_1x2 = Ok 5%Z /\
  ReduceMatrix 2 matrix_1x2 = Err OutOfRange /\
  (forall Size, ReduceMatrix Size matrix_1x2 ≠ Err AssertionFailure).
Proof.
  repeat (split; [by vm_compute|]).
  intros [|[|[|n]]]; by vm_compute.
Qed.

(** ** Infinite cells *)

Section Infinite.
Implicit Types (m : Matrix CostMatrixInteger).

Lemma cmi_sub_infinite elt mn : IsInfinite (cmi_sub elt mn) = IsInfinite elt.
Proof. unfold IsInfinite. rewrite cmi_sub_cell_minus. apply cell_minus_infinite. Qed.

Lemma for_each_loop_infinite f fuel : forall m first last m',
  (forall x, IsInfinite (f x) = IsInfinite x) ->
  for_each_loop fuel m first last f = Ok m' ->
  forall i j, infinite_at m' i j = infinite_at m i j.
Proof.
  induction fuel as [|fuel IH]; intros m first last m' Hf;
    rewrite for_each_loop_unfold; destruct (CostVector_Iterator_neq first last);
    try discriminate; try (by intros [= <-]).
  intros (m1 & Hupd & Hrest)%bind_Ok_inv i j.
  rewrite (IH _ _ _ _ Hf Hrest).
  apply Matrix_update_Ok_inv in Hupd as (_ & _ & ->).
  unfold infinite_at. rewrite cell_at_imap.
  destruct (cell_at m i j) as [x|]; simpl; [|done]. f_equal. by case_decide.
Qed.

Lemma reduce_row_infinite r m d m' d' :
  reduce_row r (m, d) = Ok (m', d') ->
  forall i j, infinite_at m' i j = infinite_at m i j.
Proof.
  unfold reduce_row. intros (min_it & _ & H)%bind_Ok_inv.
  destruct (CostVector_Iterator_eq _ _); [done|].
  apply bind_Ok_inv in H as (mn & _ & H). destruct (IsInfinite mn); [done|].
  apply bind_Ok_inv in H as (m1 & Hfe & [= <- _]).
  eapply for_each_loop_infinite; [|exact Hfe]. intros x. apply cmi_sub_infinite.
Qed.

Lemma reduce_column_infinite c m d m' d' :
  reduce_column c (m, d) = Ok (m', d') ->
  forall i j, infinite_at m' i j = infinite_at m i j.
Proof.
  unfold reduce_column. intros (min_it & _ & H)%bind_Ok_inv.
  apply bind_Ok_inv in H as (mn & _ & H). destruct (IsInfinite mn); [done|].
  apply bind_Ok_inv in H as (m1 & Hfe & [= <- _]).
  eapply for_each_loop_infinite; [|exact Hfe]. intros x. apply cmi_sub_infinite.
Qed.

Lemma for_range_from_infinite body n : forall k (st st' : Matrix CostMatrixInteger * Z),
  (forall k m d m' d', body k (m, d) = Ok (m', d') ->
     forall i j, infinite_at m' i j = infinite_at m i j) ->
  for_range_from k n body st = Ok st' ->
  forall i j, infinite_at (fst st') i j = infinite_at (fst st) i j.
Proof.
  induction n as [|n IH]; intros k st st' Hbody; simpl.
  - by intros [= <-].
  - intros ([m1 d1] & Hb & Hrest)%bind_Ok_inv i j.
    rewrite (IH _ _ _ Hbody Hrest). destruct st as [m d]. by eapply Hbody.
Qed.

Lemma ReduceMatrix_infinite Size cm decremented cm' :
  ReduceMatrix Size cm = Ok (decremented, cm') ->
  forall i j, infinite_at (cost_matrix_ cm') i j = infinite_at (cost_matrix_ cm) i j.
Proof.
  unfold ReduceMatrix, for_range. intros (st1 & H1 & H)%bind_Ok_inv.
  apply bind_Ok_inv in H as (st2 & H2 & [= _ <-]). simpl. intros i j.
  rewrite (for_range_from_infinite _ _ _ _ _ reduce_column_infinite H2).
  by rewrite (for_range_from_infinite _ _ _ _ _ reduce_row_infinite H1).
Qed.

Lemma ReduceMatrix_times_infinite Size n : forall cm cm',
  ReduceMatrix_times Size n cm = Ok cm' ->
  forall i j, infinite_at (cost_matrix_ cm') i j = infinite_at (cost_matrix_ cm) i j.
Proof.
  induction n as [|n IH]; intros cm cm'; simpl.
  - by intros [= <-].
  - intros ([d cm1] & H1 & Hrest)%bind_Ok_inv i j.
    rewrite (IH _ _ Hrest). by eapply ReduceMatrix_infinite.
Qed.

End Infinite.

(** C6.  Subtracting from an infinite cell leaves it infinite; a cell that
    is infinite stays infinite through any number of [ReduceMatrix] calls
    (whatever [Size()] returns); and the element [min_element] selects in a
    row or column is infinite only if every cell of that row or column is. *)
Theorem infinite_is_absorbing :
  (forall elt mn, IsInfinite elt = true -> IsInfinite (cmi_sub elt mn) = true) /\
  (forall Size n cm cm' i j x,
     ReduceMatrix_times Size n cm = Ok cm' ->
     cell_at (cost_matrix_ cm) i j = Some x -> IsInfinite x = true ->
     exists x', cell_at (cost_matrix_ cm') i j = Some x' /\ IsInfinite x' = true) /\
  (forall m cv min_it mn,
     Matrix_wf m -> view_valid m cv ->
     min_element m (CostVector_begin cv) (CostVector_end m cv) = Ok min_it ->
     CostVector_Iterator_deref m min_it = Ok mn -> IsInfinite mn = true ->
     forall x, x ∈ view_cells m cv -> IsInfinite x = true).
Proof.
  split; [|split].
  - intros elt mn H. by rewrite cmi_sub_infinite.
  - intros Size n cm cm' i j x Hred Hx Hinf.
    pose proof (ReduceMatrix_times_infinite _ _ _ _ Hred i j) as H.
    unfold infinite_at in H. rewrite Hx in H. simpl in H.
    destruct (cell_at (cost_matrix_ cm') i j) as [x'|]; [|done].
    exists x'. split; [done|]. simpl in H. congruence.
  - intros m cv min_it mn Hwf Hv Hmin Hd Hinf x Hx.
    destruct (decide (CostVector_Size m cv = 0)) as [Hz|Hnz].
    + rewrite min_element_empty in Hmin by done. injection Hmin as <-.
      by rewrite CostVector_Iterator_deref_end in Hd.
    + destruct (reduce_view_spec m cv Hwf Hv) as
        (min_it' & mn' & Hmin' & _ & Hd' & _ & Hinf' & _); [lia|].
      rewrite Hmin in Hmin'. injection Hmin' as <-.
      rewrite Hd in Hd'. injection Hd' as <-.
      rewrite Hinf in Hinf'. symmetry in Hinf'. apply negb_true_iff in Hinf'.
      rewrite has_finite_false in Hinf'. by apply Hinf'.
Qed.

Lemma infinite_is_absorbing_witness :
  IsInfinite (cmi_sub (SetInfinite default_cell) default_cell) = true /\
  (exists x', cell_at (cost_matrix_ (Ok_or matrix4 (ReduceMatrix_times 4 3 matrix4))) 0 0
              = Some x' /\ IsInfinite x' = true) /\
  (forall x, x ∈ view_cells (cost_matrix_ matrix4_blocked) (CostRow 0) -> IsInfinite x = true).
Proof.
  destruct infinite_is_absorbing as (H1 & H2 & H3).
  split; [|split].
  - apply H1. reflexivity.
  - apply (H2 4 3 matrix4 _ 0 0 (SetInfinite (mkCostMatrixInteger 0 {| u := 0; v := 0 |}))).
    + vm_compute. reflexivity.
    + vm_compute. reflexivity.
    + reflexivity.
  - apply (H3 (cost_matrix_ matrix4_blocked) (CostRow 0)
             (CostVector_begin (CostRow 0))
             (SetInfinite (mkCostMatrixInteger 0 {| u := 0; v := 0 |}))).
    + concrete.
    + vm_compute. lia.
    + vm_compute. reflexivity.
    + vm_compute. reflexivity.
    + reflexivity.
Defined.

(** ** MakeVectorMapping *)

Section Mapping.
Implicit Types (available : list bool) (mapping : gmap nat nat).

Lemma count_available_cons a available :
  count_available (a :: available)
  = (if a then 1 else 0) + count_available available.
Proof. unfold count_available. rewrite filter_cons. by destruct a. Qed.

Lemma condensed_index_0 available : condensed_index available 0 = 0.
Proof. unfold condensed_index. by rewrite take_0. Qed.

Lemma condensed_index_S a available i :
  condensed_index (a :: available) (S i)
  = (if a then 1 else 0) + condensed_index available i.
Proof. unfold condensed_index. simpl. apply count_available_cons. Qed.

Lemma MakeVectorMapping_loop_lookup available : forall cell_num cur mapping i,
  MakeVectorMapping_loop available cell_num cur mapping !! i
  = if decide (cell_num <= i /\ available !! (i - cell_num) = Some true)
    then Some (cur + condensed_index available (i - cell_num))
    else mapping !! i.
Proof.
  induction available as [|a available IH]; intros cell_num cur mapping i; simpl.
  - rewrite decide_False; [done|]. intros [_ H]. by rewrite lookup_nil in H.
  - destruct a; simpl; rewrite IH.
    + destruct (decide (cell_num = i)) as [->|Hne].
      * rewrite decide_False by lia. rewrite Nat.sub_diag. simpl.
        rewrite decide_True by (split; [lia|done]).
        rewrite lookup_insert_eq, condensed_index_0. f_equal. lia.
      * rewrite lookup_insert_ne by done.
        destruct (decide (cell_num <= i)) as [Hle|Hgt].
        -- replace (i - cell_num) with (S (i - S cell_num)) by lia. simpl.
           rewrite condensed_index_S.
           destruct (available !! (i - S cell_num)) as [[]|] eqn:Hav.
           ++ rewrite !decide_True by (split; [lia|done]). f_equal. lia.
           ++ rewrite !decide_False by (intros [_ ?]; done). done.
           ++ rewrite !decide_False by (intros [_ ?]; done). done.
        -- rewrite !decide_False by (intros [? _]; lia). done.
    + destruct (decide (cell_num = i)) as [->|Hne].
      * rewrite decide_False by lia. rewrite Nat.sub_diag. simpl.
        rewrite decide_False by (intros [_ ?]; done). done.
      * destruct (decide (cell_num <= i)) as [Hle|Hgt].
        -- replace (i - cell_num) with (S (i - S cell_num)) by lia. simpl.
           rewrite condensed_index_S.
           destruct (available !! (i - S cell_num)) as [[]|] eqn:Hav.
           ++ rewrite !decide_True by (split; [lia|done]). f_equal.
           ++ rewrite !decide_False by (intros [_ ?]; done). done.
           ++ rewrite !decide_False by (intros [_ ?]; done). done.
        -- rewrite !decide_False by (intros [? _]; lia). done.
Qed.

(** A vertex is in the mapping exactly when it is available, and it maps
    to the number of available vertices before it. *)
Lemma MakeVectorMapping_lookup available i :
  MakeVectorMapping available !! i
  = match available !! i with
    | Some true => Some (condensed_index available i)
    | _ => None
    end.
Proof.
  unfold MakeVectorMapping. rewrite MakeVectorMapping_loop_lookup.
  rewrite Nat.sub_0_r, lookup_empty.
  destruct (available !! i) as [[]|].
  - by rewrite decide_True by (split; [lia|done]).
  - by rewrite decide_False by (intros [_ ?]; done).
  - by rewrite decide_False by (intros [_ ?]; done).
Qed.

Lemma MakeVectorMapping_loop_size available : forall cell_num cur mapping,
  (forall i, cell_num <= i -> mapping !! i = None) ->
  size (MakeVectorMapping_loop available cell_num cur mapping)
  = size mapping + count_available available.
Proof.
  induction available as [|a available IH]; intros cell_num cur mapping Hfresh; simpl.
  - unfold count_available. simpl. lia.
  - rewrite count_available_cons. destruct a; simpl.
    + rewrite IH.
      * rewrite map_size_insert_None by (apply Hfresh; lia). lia.
      * intros i Hi. rewrite lookup_insert_ne by lia. apply Hfresh. lia.
    + rewrite IH; [lia|]. intros i Hi. apply Hfresh. lia.
Qed.

Lemma MakeVectorMapping_size available :
  size (MakeVectorMapping available) = count_available available.
Proof.
  unfold MakeVectorMapping. rewrite MakeVectorMapping_loop_size.
  - by rewrite map_size_empty.
  - intros. apply lookup_empty.
Qed.

Lemma condensed_index_lt available i :
  available !! i = Some true -> condensed_index available i < count_available available.
Proof.
  revert i. induction available as [|a available IH]; intros i; [by rewrite lookup_nil|].
  destruct i as [|i]; simpl.
  - intros [= ->]. rewrite condensed_index_0, count_available_cons. lia.
  - intros H. rewrite condensed_index_S, count_available_cons. specialize (IH i H). lia.
Qed.

Lemma condensed_index_onto available k :
  k < count_available available ->
  exists i, available !! i = Some true /\ condensed_index available i = k.
Proof.
  revert k. induction available as [|a available IH]; intros k.
  - unfold count_available. simpl. lia.
  - rewrite count_available_cons. destruct a; simpl.
    + destruct k as [|k].
      * intros _. exists 0. split; [done|]. apply condensed_index_0.
      * intros Hk. destruct (IH k) as (i & Hi & Hidx); [lia|].
        exists (S i). split; [done|]. rewrite condensed_index_S. lia.
    + intros Hk. destruct (IH k Hk) as (i & Hi & Hidx).
      exists (S i). split; [done|]. by rewrite condensed_index_S.
Qed.

Lemma condensed_index_mono available i i' :
  i <= i' -> condensed_index available i <= condensed_index available i'.
Proof.
  revert i i'. induction available as [|a available IH]; intros i i' Hle.
  - unfold condensed_index. by rewrite !take_nil.
  - destruct i as [|i]; [rewrite condensed_index_0; lia|].
    destruct i' as [|i']; [lia|]. rewrite !condensed_index_S.
    specialize (IH i i'). lia.
Qed.

Lemma condensed_index_step available i :
  available !! i = Some true ->
  condensed_index available (S i) = S (condensed_index available i).
Proof.
  revert i. induction available as [|a available IH]; intros i; [by rewrite lookup_nil|].
  destruct i as [|i]; simpl.
  - intros [= ->]. rewrite condensed_index_S, !condensed_index_0. done.
  - intros H. rewrite !condensed_index_S, (IH i H). lia.
Qed.

Lemma condensed_index_strict available i i' :
  available !! i = Some true -> i < i' ->
  condensed_index available i < condensed_index available i'.
Proof.
  intros Hi Hlt. pose proof (condensed_index_mono available (S i) i') as H.
  rewrite condensed_index_step in H by done. lia.
Qed.

Lemma MakeVectorMapping_condensing available :
  condensing (MakeVectorMapping available) (count_available available).
Proof.
  split; [|split].
  - intros i k. rewrite MakeVectorMapping_lookup.
    destruct (available !! i) as [[]|] eqn:Hi; [|done|done].
    intros [= <-]. by apply condensed_index_lt.
  - intros k Hk. destruct (condensed_index_onto available k Hk) as (i & Hi & Hidx).
    exists i. rewrite MakeVectorMapping_lookup, Hi. by rewrite Hidx.
  - intros i i' k k'. rewrite !MakeVectorMapping_lookup.
    destruct (available !! i) as [[]|] eqn:Hi; [|done|done].
    destruct (available !! i') as [[]|] eqn:Hi'; [|done|done].
    intros [= <-] [= <-]. split.
    + by apply condensed_index_strict.
    + intros Hlt. destruct (decide (i < i')) as [|Hge]; [done|].
      pose proof (condensed_index_mono available i' i). lia.
Qed.

Lemma condensing_inj mapping count i i' k :
  condensing mapping count ->
  mapping !! i = Some k -> mapping !! i' = Some k -> i = i'.
Proof.
  intros (_ & _ & Hord) Hi Hi'.
  pose proof (Hord i i' k k Hi Hi'). pose proof (Hord i' i k k Hi' Hi). lia.
Qed.

End Mapping.

(** ** The constructor: availability *)

Section Availability.
Implicit Types (include : list Edge) (cm : CostMatrix).

Lemma for_range_from_invariant {St} (I : nat -> St -> Prop) body n : forall i (s : St),
  I i s ->
  (forall k s, i <= k < i + n -> I k s -> exists s', body k s = Ok s' /\ I (S k) s') ->
  exists s', for_range_from i n body s = Ok s' /\ I (i + n) s'.
Proof.
  induction n as [|n IH]; intros i s Hi Hstep; simpl.
  - exists s. by rewrite Nat.add_0_r.
  - destruct (Hstep i s) as (s1 & -> & Hs1); [lia|done|]. simpl.
    destruct (IH (S i) s1) as (s' & Hs' & HI); [done| |].
    + intros k s2 Hk. apply Hstep. lia.
    + exists s'. split; [done|]. by replace (i + S n) with (S i + n) by lia.
Qed.

Lemma parse_included_spec n include : forall row_available column_available,
  length row_available = n -> length column_available = n ->
  edges_in_range n include ->
  exists row_available' column_available',
    parse_included include (row_available, column_available)
    = Ok (row_available', column_available') /\
    length row_available' = n /\ length column_available' = n /\
    (forall i, row_available' !! i
               = (fun a => a && bool_decide (i ∉ u <$> include)) <$> row_available !! i) /\
    (forall j, column_available' !! j
               = (fun a => a && bool_decide (j ∉ v <$> include)) <$> column_available !! j).
Proof.
  induction include as [|e include IH]; intros ra ca Hra Hca Hin; simpl.
  - exists ra, ca. split; [done|]. split; [done|]. split; [done|].
    split; intros i.
    + destruct (ra !! i); simpl; [|done]. by rewrite andb_true_r.
    + destruct (ca !! i); simpl; [|done]. by rewrite andb_true_r.
  - apply Forall_cons in Hin as [[Hu Hv] Hin]. unfold set_unavailable.
    rewrite !decide_True by lia. simpl.
    destruct (IH (<[u e := false]> ra) (<[v e := false]> ca)) as
      (ra' & ca' & -> & Hra' & Hca' & Hrow & Hcol);
      [by rewrite length_insert | by rewrite length_insert | done |].
    exists ra', ca'. split; [done|]. split; [done|]. split; [done|].
    split; intros i.
    + rewrite Hrow. destruct (decide (i = u e)) as [->|Hne].
      * rewrite list_lookup_insert_eq by lia.
        destruct (lookup_lt_is_Some_2 ra (u e)) as [a ->]; [lia|]. simpl.
        rewrite (bool_decide_eq_false_2 (u e ∉ u e :: _)); [by rewrite andb_false_r|].
        intros H. apply H, list_elem_of_here.
      * rewrite list_lookup_insert_ne by done.
        destruct (ra !! i); simpl; [|done]. do 2 f_equal.
        apply bool_decide_ext. rewrite not_elem_of_cons. tauto.
    + rewrite Hcol. destruct (decide (i = v e)) as [->|Hne].
      * rewrite list_lookup_insert_eq by lia.
        destruct (lookup_lt_is_Some_2 ca (v e)) as [a ->]; [lia|]. simpl.
        rewrite (bool_decide_eq_false_2 (v e ∉ v e :: _)); [by rewrite andb_false_r|].
        intros H. apply H, list_elem_of_here.
      * rewrite list_lookup_insert_ne by done.
        destruct (ca !! i); simpl; [|done]. do 2 f_equal.
        apply bool_decide_ext. rewrite not_elem_of_cons. tauto.
Qed.

(** The constructor touches the availability vectors out of range, which
    is undefined behaviour, exactly when an include edge names a vertex the
    graph does not have. *)
Lemma parse_included_out_of_range include : forall avail,
  length (fst avail) = length (snd avail) ->
  ¬ edges_in_range (length (fst avail)) include ->
  parse_included include avail = Err OutOfRange.
Proof.
  induction include as [|e include IH]; intros [ra ca] Hlen Hnot; simpl in *.
  - exfalso. apply Hnot. constructor.
  - unfold set_unavailable.
    destruct (decide (u e < length ra)) as [Hu|Hu]; simpl; [|done].
    destruct (decide (v e < length ca)) as [Hv|Hv]; simpl; [|done].
    apply IH; simpl; [by rewrite !length_insert|].
    rewrite length_insert. intros Hin. apply Hnot. constructor; [lia|done].
Qed.

(** The vertices of a mapping built from flags of which exactly the
    vertices outside [gone] are set. *)
Lemma MakeVectorMapping_dom n (gone : list nat) available :
  (forall i, available !! i
             = (fun a => a && bool_decide (i ∉ gone)) <$> replicate n true !! i) ->
  dom (MakeVectorMapping available) = set_seq 0 n ∖ list_to_set gone.
Proof.
  intros Hav. apply set_eq. intros i.
  rewrite elem_of_dom, MakeVectorMapping_lookup, elem_of_difference,
    elem_of_set_seq, elem_of_list_to_set, Hav.
  destruct (decide (i < n)) as [Hlt|Hge].
  - rewrite lookup_replicate_2 by done. simpl.
    destruct (decide (i ∈ gone)) as [Hin|Hout].
    + rewrite bool_decide_eq_false_2 by tauto. simpl.
      split; [by intros [? ?]|tauto].
    + rewrite bool_decide_eq_true_2 by done. simpl.
      split; [intros _; split; [lia|done] | eauto].
  - rewrite (proj1 (lookup_replicate_None _ _ _)) by lia. simpl.
    split; [by intros [? ?]|lia].
Qed.

Lemma MakeVectorMapping_size_gone n (gone : list nat) available :
  (forall i, available !! i
             = (fun a => a && bool_decide (i ∉ gone)) <$> replicate n true !! i) ->
  Forall (fun k => k < n) gone ->
  size (MakeVectorMapping available) = n - size (list_to_set gone : gset nat).
Proof.
  intros Hav Hin.
  rewrite <- (size_dom (D := gset nat)), (MakeVectorMapping_dom n gone) by done.
  rewrite size_difference, size_set_seq; [done|].
  intros k Hk%elem_of_list_to_set. apply elem_of_set_seq.
  rewrite Forall_forall in Hin. specialize (Hin k Hk). lia.
Qed.

Lemma IsRowAvailable_true cm i :
  IsRowAvailable cm i = true <-> is_Some (row_mapping_ cm !! i).
Proof. unfold IsRowAvailable. apply bool_decide_eq_true. Qed.

Lemma IsColumnAvailable_true cm j :
  IsColumnAvailable cm j = true <-> is_Some (column_mapping_ cm !! j).
Proof. unfold IsColumnAvailable. apply bool_decide_eq_true. Qed.

Lemma GetCondensedRowNum_Ok cm i r :
  row_mapping_ cm !! i = Some r -> GetCondensedRowNum cm i = Ok r.
Proof.
  intros H. unfold GetCondensedRowNum, IsRowAvailable.
  rewrite bool_decide_eq_true_2 by eauto. simpl. by rewrite H.
Qed.

Lemma GetCondensedColumnNum_Ok cm j c :
  column_mapping_ cm !! j = Some c -> GetCondensedColumnNum cm j = Ok c.
Proof.
  intros H. unfold GetCondensedColumnNum, IsColumnAvailable.
  rewrite bool_decide_eq_true_2 by eauto. simpl. by rewrite H.
Qed.

Lemma GetCondensedRowNum_unavailable cm i :
  IsRowAvailable cm i = false -> GetCondensedRowNum cm i = Err NotAvailableError.
Proof. intros H. unfold GetCondensedRowNum. by rewrite H. Qed.

Lemma GetCondensedColumnNum_unavailable cm j :
  IsColumnAvailable cm j = false -> GetCondensedColumnNum cm j = Err NotAvailableError.
Proof. intros H. unfold GetCondensedColumnNum. by rewrite H. Qed.

Lemma GetCondensedRowNum_cases cm i :
  (exists r, row_mapping_ cm !! i = Some r /\ GetCondensedRowNum cm i = Ok r) \/
  GetCondensedRowNum cm i = Err NotAvailableError.
Proof.
  destruct (row_mapping_ cm !! i) as [r|] eqn:H.
  - left. exists r. split; [done|]. by apply GetCondensedRowNum_Ok.
  - right. apply GetCondensedRowNum_unavailable, bool_decide_eq_false.
    rewrite H. by intros [? ?].
Qed.

Lemma with_matrix_imap_wf cm g :
  CostMatrix_wf cm -> CostMatrix_wf (with_matrix cm (Matrix_imap g (cost_matrix_ cm))).
Proof.
  intros (Hwf & Hr & Hc). split; [|split]; simpl; [by apply Matrix_imap_wf|done|done].
Qed.

Lemma with_matrix_with_matrix cm m m' :
  with_matrix (with_matrix cm m) m' = with_matrix cm m'.
Proof. reflexivity. Qed.

Lemma CostMatrix_update_Ok cm i j r c f :
  CostMatrix_wf cm ->
  row_mapping_ cm !! i = Some r -> column_mapping_ cm !! j = Some c ->
  CostMatrix_update cm i j f
  = Ok (with_matrix cm
          (Matrix_imap (fun a b x => if decide (a = r /\ b = c) then f x else x)
             (cost_matrix_ cm))).
Proof.
  intros (Hwf & (Hr & _) & (Hc & _)) Hi Hj.
  unfold CostMatrix_update, CostMatrix_update_edge. simpl.
  rewrite (GetCondensedRowNum_Ok _ _ _ Hi), (GetCondensedColumnNum_Ok _ _ _ Hj). simpl.
  rewrite Matrix_update_Ok; [done|done|by apply (Hr i)|by apply (Hc j)].
Qed.

Lemma CostMatrix_at_Ok cm i j r c :
  CostMatrix_wf cm ->
  row_mapping_ cm !! i = Some r -> column_mapping_ cm !! j = Some c ->
  exists x, cell_at (cost_matrix_ cm) r c = Some x /\ CostMatrix_at cm i j = Ok x.
Proof.
  intros (Hwf & (Hr & _) & (Hc & _)) Hi Hj.
  unfold CostMatrix_at, CostMatrix_at_edge. simpl.
  rewrite (GetCondensedRowNum_Ok _ _ _ Hi), (GetCondensedColumnNum_Ok _ _ _ Hj). simpl.
  apply Matrix_get_Ok; [done|by apply (Hr i)|by apply (Hc j)].
Qed.

End Availability.

(** ** The constructor: filling the condensed matrix *)

Section Fill.
Variable graph : Graph.
Implicit Types (cm : CostMatrix).

Lemma fill_row_spec cm0 i r :
  CostMatrix_wf cm0 -> row_mapping_ cm0 !! i = Some r ->
  exists g,
    fill_row graph i cm0 = Ok (with_matrix cm0 (Matrix_imap g (cost_matrix_ cm0))) /\
    (forall j c x, j < GetNumVertices graph -> column_mapping_ cm0 !! j = Some c ->
                   g r c x = graph_cell graph i j) /\
    (forall a b x, a ≠ r -> g a b x = x).
Proof.
  intros Hwf Hi. unfold fill_row, for_range.
  destruct (for_range_from_invariant
    (fun k cm => exists g,
       cm = with_matrix cm0 (Matrix_imap g (cost_matrix_ cm0)) /\
       (forall j c x, j < k -> column_mapping_ cm0 !! j = Some c -> g r c x = graph_cell graph i j) /\
       (forall a b x, a ≠ r -> g a b x = x))
    (fun j cm =>
       if negb (IsColumnAvailable cm j) then Ok cm
       else CostMatrix_update cm i j (fun _ => graph_cell graph i j))
    (GetNumVertices graph) 0 cm0) as (cm' & Hloop & g & -> & Hg1 & Hg2).
  - exists (fun _ _ x => x). split; [|split; [intros; lia|done]].
    unfold with_matrix. destruct cm0 as [m rm cmap]. simpl. f_equal.
    symmetry. by apply Matrix_imap_id.
  - intros k cm _ (g & -> & Hg1 & Hg2).
    destruct (column_mapping_ cm0 !! k) as [ck|] eqn:Hk.
    + unfold IsColumnAvailable. simpl. rewrite bool_decide_eq_true_2 by eauto. simpl.
      rewrite (CostMatrix_update_Ok _ i k r ck); [|by apply with_matrix_imap_wf|done|done].
      eexists. split; [reflexivity|]. simpl. rewrite Matrix_imap_imap.
      eexists. split; [reflexivity|]. simpl. split.
      * intros j c x Hj Hc. case_decide as Hpos.
        -- destruct Hpos as [_ ->]. destruct Hwf as (_ & _ & Hcond).
           by rewrite (condensing_inj _ _ _ _ _ Hcond Hc Hk).
        -- apply Hg1; [|done]. destruct (decide (j = k)) as [->|]; [|lia].
           rewrite Hk in Hc. injection Hc as <-. tauto.
      * intros a b x Ha. rewrite decide_False by tauto. by apply Hg2.
    + unfold IsColumnAvailable. simpl. rewrite bool_decide_eq_false_2; simpl.
      2:{ rewrite Hk. by intros [? ?]. }
      eexists. split; [reflexivity|]. exists g. split; [done|]. split; [|done].
      intros j c x Hj Hc. apply Hg1; [|done].
      destruct (decide (j = k)) as [->|]; [congruence|lia].
  - exists g. split; [done|]. split; [|done]. intros j c x Hj. by apply Hg1.
Qed.

Lemma fill_matrix_spec cm0 :
  CostMatrix_wf cm0 ->
  exists g,
    fill_matrix graph cm0 = Ok (with_matrix cm0 (Matrix_imap g (cost_matrix_ cm0))) /\
    (forall i j r c x,
       i < GetNumVertices graph -> j < GetNumVertices graph ->
       row_mapping_ cm0 !! i = Some r -> column_mapping_ cm0 !! j = Some c ->
       g r c x = graph_cell graph i j).
Proof.
  intros Hwf. unfold fill_matrix, for_range.
  destruct (for_range_from_invariant
    (fun k cm => exists g,
       cm = with_matrix cm0 (Matrix_imap g (cost_matrix_ cm0)) /\
       (forall i j r c x,
          i < k -> j < GetNumVertices graph ->
          row_mapping_ cm0 !! i = Some r -> column_mapping_ cm0 !! j = Some c ->
          g r c x = graph_cell graph i j))
    (fun i cm => if negb (IsRowAvailable cm i) then Ok cm else fill_row graph i cm)
    (GetNumVertices graph) 0 cm0) as (cm' & Hloop & g & -> & Hg).
  - exists (fun _ _ x => x). split; [|intros; lia].
    unfold with_matrix. destruct cm0 as [m rm cmap]. simpl. f_equal.
    symmetry. by apply Matrix_imap_id.
  - intros k cm _ (g & -> & Hg).
    destruct (row_mapping_ cm0 !! k) as [rk|] eqn:Hk.
    + unfold IsRowAvailable. simpl. rewrite bool_decide_eq_true_2 by eauto. simpl.
      destruct (fill_row_spec (with_matrix cm0 (Matrix_imap g (cost_matrix_ cm0))) k rk)
        as (g2 & -> & Hg21 & Hg22); [by apply with_matrix_imap_wf|done|].
      eexists. split; [reflexivity|]. simpl. rewrite Matrix_imap_imap.
      eexists. split; [reflexivity|]. simpl.
      intros i j r c x Hi Hj Hr Hc. destruct (decide (i = k)) as [->|Hne].
      * rewrite Hk in Hr. injection Hr as <-. by apply Hg21.
      * rewrite Hg22.
        -- apply Hg; [lia|done..].
        -- intros ->. destruct Hwf as (_ & Hcond & _).
           apply Hne. by apply (condensing_inj _ _ _ _ _ Hcond Hr Hk).
    + unfold IsRowAvailable. simpl. rewrite bool_decide_eq_false_2; simpl.
      2:{ rewrite Hk. by intros [? ?]. }
      eexists. split; [reflexivity|]. exists g. split; [done|].
      intros i j r c x Hi Hj Hr Hc. apply Hg; [|done..].
      destruct (decide (i = k)) as [->|]; [congruence|lia].
  - exists g. split; [done|]. intros i j r c x Hi Hj. by apply Hg.
Qed.

End Fill.

(** ** The constructor: the excluded cells *)

Section Exclude.
Implicit Types (cm : CostMatrix) (exclude : list Edge).

Lemma SetInfinite_idemp x : SetInfinite (SetInfinite x) = SetInfinite x.
Proof. reflexivity. Qed.

Lemma mark_excluded_spec exclude : forall cm,
  CostMatrix_wf cm ->
  mark_excluded exclude cm
  = Ok (with_matrix cm
          (Matrix_imap (fun a b x => if excluded_at cm exclude a b then SetInfinite x else x)
             (cost_matrix_ cm))).
Proof.
  induction exclude as [|e exclude IH]; intros cm Hwf; simpl.
  - f_equal. unfold with_matrix. destruct cm as [m rm cmap]. simpl. f_equal.
    symmetry. by apply Matrix_imap_id.
  - unfold IsRowAvailable, IsColumnAvailable.
    destruct (row_mapping_ cm !! u e) as [r|] eqn:Hr.
    + destruct (column_mapping_ cm !! v e) as [c|] eqn:Hc.
      * rewrite !bool_decide_eq_true_2 by eauto. simpl.
        rewrite (CostMatrix_update_Ok _ _ _ r c) by done. simpl.
        rewrite IH by (by apply with_matrix_imap_wf). simpl.
        rewrite Matrix_imap_imap. do 2 f_equal. apply Matrix_imap_ext.
        intros a b x _. unfold excluded_at. simpl.
        destruct (decide (a = r /\ b = c)) as [[-> ->]|Hne].
        -- rewrite bool_decide_eq_true_2 by done. simpl.
           by destruct (existsb _ exclude).
        -- rewrite bool_decide_eq_false_2; [done|]. intros [? ?]. apply Hne. split; congruence.
      * rewrite (bool_decide_eq_false_2 (is_Some None)) by (by intros [? ?]).
        rewrite orb_true_r. rewrite IH by done. f_equal.
        unfold with_matrix. f_equal.
        apply Matrix_imap_ext. intros a b x _. unfold excluded_at. simpl.
        rewrite bool_decide_eq_false_2; [done|]. intros [_ ?]. congruence.
    + rewrite (bool_decide_eq_false_2 (is_Some None)) by (by intros [? ?]). simpl.
      by rewrite IH.
Qed.

Lemma excluded_at_available cm exclude i j r c :
  CostMatrix_wf cm ->
  row_mapping_ cm !! i = Some r -> column_mapping_ cm !! j = Some c ->
  excluded_at cm exclude r c = bool_decide ({| u := i; v := j |} ∈ exclude).
Proof.
  intros (_ & Hrow & Hcol) Hi Hj. unfold excluded_at.
  apply eq_true_iff_eq. rewrite existsb_exists, bool_decide_eq_true. split.
  - intros [e [He [Hu Hv]%bool_decide_eq_true]].
    pose proof (condensing_inj _ _ _ _ _ Hrow Hu Hi) as Hue.
    pose proof (condensing_inj _ _ _ _ _ Hcol Hv Hj) as Hve.
    apply list_elem_of_In in He. destruct e as [eu ev]. simpl in *. by subst.
  - intros He. exists {| u := i; v := j |}. split; [by apply list_elem_of_In|].
    apply bool_decide_eq_true. done.
Qed.

(** An exclude edge with an endpoint that is not available changes nothing. *)
Lemma mark_excluded_skip exclude1 e exclude2 : forall cm,
  IsRowAvailable cm (u e) = false \/ IsColumnAvailable cm (v e) = false ->
  mark_excluded (exclude1 ++ e :: exclude2) cm = mark_excluded (exclude1 ++ exclude2) cm.
Proof.
  induction exclude1 as [|e1 exclude1 IH]; intros cm Hun; simpl.
  - destruct Hun as [-> | ->]; simpl; [done|]. by rewrite orb_true_r.
  - destruct (negb (IsRowAvailable cm (u e1)) || negb (IsColumnAvailable cm (v e1))).
    + by apply IH.
    + destruct (CostMatrix_update cm (u e1) (v e1) SetInfinite) as [cm1|err] eqn:Hup;
        simpl; [|done].
      apply IH. unfold CostMatrix_update, CostMatrix_update_edge in Hup.
      apply bind_Ok_inv in Hup as (r & _ & Hup).
      apply bind_Ok_inv in Hup as (c & _ & Hup).
      apply bind_Ok_inv in Hup as (m' & _ & [= <-]). done.
Qed.

End Exclude.

(** ** The constructor as a whole *)

Section Constructor.
Variable graph : Graph.
Implicit Types (include exclude : list Edge) (cm : CostMatrix).

Lemma MakeVectorMapping_key_range available i k :
  MakeVectorMapping available !! i = Some k -> i < length available.
Proof.
  rewrite MakeVectorMapping_lookup.
  destruct (available !! i) as [[]|] eqn:H; [|done|done]. intros _.
  by apply lookup_lt_Some in H.
Qed.

Lemma CostMatrix_new_spec include exclude :
  edges_in_range (GetNumVertices graph) include ->
  exists cm,
    CostMatrix_new graph include exclude = Ok cm /\
    CostMatrix_wf cm /\
    GetNumRows (cost_matrix_ cm) = size (row_mapping_ cm) /\
    GetNumColumns (cost_matrix_ cm) = size (column_mapping_ cm) /\
    dom (row_mapping_ cm) = set_seq 0 (GetNumVertices graph) ∖ origins include /\
    dom (column_mapping_ cm) = set_seq 0 (GetNumVertices graph) ∖ destinations include /\
    size (row_mapping_ cm) = GetNumVertices graph - size (origins include) /\
    size (column_mapping_ cm) = GetNumVertices graph - size (destinations include) /\
    (forall i j r c,
       row_mapping_ cm !! i = Some r -> column_mapping_ cm !! j = Some c ->
       cell_at (cost_matrix_ cm) r c = Some (constructed_cell graph exclude i j)).
Proof.
  intros Hin. unfold CostMatrix_new.
  set (n := GetNumVertices graph) in *.
  destruct (parse_included_spec n include (replicate n true) (replicate n true))
    as (ra & ca & -> & Hra & Hca & Hrow & Hcol);
    [by rewrite length_replicate | by rewrite length_replicate | done |].
  simpl.
  set (rm := MakeVectorMapping ra). set (cmap := MakeVectorMapping ca).
  set (cm0 := {| cost_matrix_ := SetSize (size rm) (size cmap) default_cell;
                 row_mapping_ := rm; column_mapping_ := cmap |}).
  assert (CostMatrix_wf cm0) as Hwf0.
  { split; [apply SetSize_wf|]. simpl. unfold GetNumRows, GetNumColumns. simpl.
    unfold rm, cmap. rewrite !MakeVectorMapping_size.
    split; apply MakeVectorMapping_condensing. }
  destruct (fill_matrix_spec graph cm0 Hwf0) as (g & Hfill & Hg). rewrite Hfill. simpl.
  rewrite mark_excluded_spec by (by apply with_matrix_imap_wf).
  eexists. split; [reflexivity|]. simpl. rewrite Matrix_imap_imap.
  split; [by apply (with_matrix_imap_wf cm0)|].
  split; [done|]. split; [done|].
  split; [by apply (MakeVectorMapping_dom n (u <$> include))|].
  split; [by apply (MakeVectorMapping_dom n (v <$> include))|].
  split.
  { apply (MakeVectorMapping_size_gone n (u <$> include)); [done|].
    apply Forall_fmap. eapply Forall_impl; [exact Hin|]. simpl. tauto. }
  split.
  { apply (MakeVectorMapping_size_gone n (v <$> include)); [done|].
    apply Forall_fmap. eapply Forall_impl; [exact Hin|]. simpl. tauto. }
  intros i j r c Hi Hj. rewrite cell_at_imap.
  pose proof Hwf0 as (Hmwf & (Hr & _) & (Hc & _)).
  destruct (cell_at_is_Some (cost_matrix_ cm0) r c Hmwf) as [x Hx];
    [by apply (Hr i) | by apply (Hc j) |].
  match goal with
  | |- context [cell_at ?m r c] =>
      change (cell_at m r c) with (cell_at (cost_matrix_ cm0) r c)
  end.
  rewrite Hx. simpl. f_equal.
  rewrite (excluded_at_available _ exclude i j r c);
    [|by apply (with_matrix_imap_wf cm0)|done|done].
  unfold constructed_cell. rewrite (Hg i j r c x); [done| | |done|done].
  - apply MakeVectorMapping_key_range in Hi. lia.
  - apply MakeVectorMapping_key_range in Hj. lia.
Qed.

Lemma CostMatrix_new_filled include exclude :
  CostMatrix_new graph include exclude
  = (CostMatrix_filled graph include ≫= mark_excluded exclude).
Proof.
  unfold CostMatrix_filled, CostMatrix_new.
  destruct (parse_included _ _) as [avail|]; simpl; [|done].
  by destruct (fill_matrix _ _).
Qed.

Lemma mark_excluded_mappings exclude : forall cm cm',
  mark_excluded exclude cm = Ok cm' ->
  row_mapping_ cm' = row_mapping_ cm /\ column_mapping_ cm' = column_mapping_ cm.
Proof.
  induction exclude as [|e exclude IH]; intros cm cm'; simpl; [by intros [= <-]|].
  destruct (_ || _); [apply IH|].
  intros (cm1 & Hup & Hrest)%bind_Ok_inv. apply IH in Hrest as [-> ->].
  unfold CostMatrix_update, CostMatrix_update_edge in Hup.
  apply bind_Ok_inv in Hup as (r & _ & Hup).
  apply bind_Ok_inv in Hup as (c & _ & Hup).
  by apply bind_Ok_inv in Hup as (m' & _ & [= <-]).
Qed.

End Constructor.

(** ** The constructor and the accessors: the claims *)

(** C2.  For a graph of [N] vertices and include edges among its vertices,
    the condensed matrix has [N] minus the number of distinct include
    origins rows and [N] minus the number of distinct include destinations
    columns; the row mapping holds exactly the vertices that are no include
    origin, the column mapping exactly those that are no include
    destination; and each mapping is injective onto [0, R), resp. [0, C),
    without gaps, and keeps the order of the vertices. *)
Theorem CostMatrix_condensation graph include exclude :
  edges_in_range (GetNumVertices graph) include ->
  exists cm,
    CostMatrix_new graph include exclude = Ok cm /\
    GetNumRows (cost_matrix_ cm) = GetNumVertices graph - size (origins include) /\
    GetNumColumns (cost_matrix_ cm) = GetNumVertices graph - size (destinations include) /\
    (forall i, is_Some (row_mapping_ cm !! i)
               <-> i < GetNumVertices graph /\ i ∉ origins include) /\
    (forall j, is_Some (column_mapping_ cm !! j)
               <-> j < GetNumVertices graph /\ j ∉ destinations include) /\
    condensing (row_mapping_ cm) (GetNumRows (cost_matrix_ cm)) /\
    condensing (column_mapping_ cm) (GetNumColumns (cost_matrix_ cm)).
Proof.
  intros Hin.
  destruct (CostMatrix_new_spec graph include exclude Hin) as
    (cm & Hnew & (_ & Hrow & Hcol) & HR & HC & Hdr & Hdc & Hsr & Hsc & _).
  exists cm. split; [done|]. split; [congruence|]. split; [congruence|].
  split; [|split; [|done]].
  - intros i. rewrite <- elem_of_dom, Hdr, elem_of_difference, elem_of_set_seq.
    split; intros [? ?]; (split; [lia|done]).
  - intros j. rewrite <- elem_of_dom, Hdc, elem_of_difference, elem_of_set_seq.
    split; intros [? ?]; (split; [lia|done]).
Qed.

Lemma CostMatrix_condensation_witness :
  exists cm,
    CostMatrix_new graph4 [ {| u := 0; v := 1 |} ] loops4 = Ok cm /\
    GetNumRows (cost_matrix_ cm)
    = GetNumVertices graph4 - size (origins [ {| u := 0; v := 1 |} ]) /\
    GetNumColumns (cost_matrix_ cm)
    = GetNumVertices graph4 - size (destinations [ {| u := 0; v := 1 |} ]) /\
    (forall i, is_Some (row_mapping_ cm !! i)
               <-> i < GetNumVertices graph4 /\ i ∉ origins [ {| u := 0; v := 1 |} ]) /\
    (forall j, is_Some (column_mapping_ cm !! j)
               <-> j < GetNumVertices graph4 /\ j ∉ destinations [ {| u := 0; v := 1 |} ]) /\
    condensing (row_mapping_ cm) (GetNumRows (cost_matrix_ cm)) /\
    condensing (column_mapping_ cm) (GetNumColumns (cost_matrix_ cm)).
Proof.
  apply (CostMatrix_condensation graph4 [ {| u := 0; v := 1 |} ] loops4).
  repeat constructor.
Defined.

(** The scenario of the specification: including (0,1) leaves a 3×3 matrix
    whose rows are the vertices 1, 2, 3 and whose columns are 0, 2, 3. *)
Example matrix4_incl_mappings :
  CostMatrix_new graph4 [ {| u := 0; v := 1 |} ] loops4 = Ok matrix4_incl /\
  (GetNumRows (cost_matrix_ matrix4_incl), GetNumColumns (cost_matrix_ matrix4_incl)) = (3, 3) /\
  (fun i => row_mapping_ matrix4_incl !! i) <$> [0; 1; 2; 3]
  = [None; Some 0; Some 1; Some 2] /\
  (fun j => column_mapping_ matrix4_incl !! j) <$> [0; 1; 2; 3]
  = [Some 0; None; Some 1; Some 2].
Proof. repeat split; by vm_compute. Qed.

(** C3.  In the matrix as constructed, before any reduction, a vertex of
    the graph is available as a row exactly when it is the origin of no
    include edge, and as a column exactly when it is the destination of no
    include edge.  An exclude edge whose endpoints are both available has an
    infinite cell; an exclude edge with an unavailable row or column
    endpoint is skipped (the constructor builds the same matrix as without
    it); and the cell of an available pair [(i, j)] that no exclude edge
    names is the graph's cost [graph(i, j)] with provenance [Edge{i, j}]. *)
Theorem CostMatrix_cells graph include exclude :
  edges_in_range (GetNumVertices graph) include ->
  exists cm,
    CostMatrix_new graph include exclude = Ok cm /\
    (forall i, IsRowAvailable cm i = true
               <-> i < GetNumVertices graph /\ i ∉ origins include) /\
    (forall j, IsColumnAvailable cm j = true
               <-> j < GetNumVertices graph /\ j ∉ destinations include) /\
    (forall e, e ∈ exclude ->
       u e < GetNumVertices graph -> u e ∉ origins include ->
       v e < GetNumVertices graph -> v e ∉ destinations include ->
       exists x, CostMatrix_at_edge cm e = Ok x /\ IsInfinite x = true) /\
    (forall exclude1 e exclude2,
       exclude = exclude1 ++ e :: exclude2 ->
       u e ∈ origins include \/ v e ∈ destinations include \/
       GetNumVertices graph <= u e \/ GetNumVertices graph <= v e ->
       CostMatrix_new graph include (exclude1 ++ exclude2) = Ok cm) /\
    (forall i j,
       i < GetNumVertices graph -> i ∉ origins include ->
       j < GetNumVertices graph -> j ∉ destinations include ->
       {| u := i; v := j |} ∉ exclude ->
       CostMatrix_at cm i j
       = Ok (mkCostMatrixInteger (graph_cost graph i j) {| u := i; v := j |})).
Proof.
  intros Hin.
  destruct (CostMatrix_new_spec graph include exclude Hin) as
    (cm & Hnew & Hwf & _ & _ & Hdr & Hdc & _ & _ & Hcell).
  assert (forall i, IsRowAvailable cm i = true
                    <-> i < GetNumVertices graph /\ i ∉ origins include) as Hrow.
  { intros i. rewrite IsRowAvailable_true, <- elem_of_dom, Hdr, elem_of_difference,
      elem_of_set_seq. split; intros [? ?]; (split; [lia|done]). }
  assert (forall j, IsColumnAvailable cm j = true
                    <-> j < GetNumVertices graph /\ j ∉ destinations include) as Hcol.
  { intros j. rewrite IsColumnAvailable_true, <- elem_of_dom, Hdc, elem_of_difference,
      elem_of_set_seq. split; intros [? ?]; (split; [lia|done]). }
  exists cm. split; [done|]. split; [done|]. split; [done|]. split; [|split].
  - intros [i j] He Hi1 Hi2 Hj1 Hj2. simpl in *.
    destruct (proj1 (IsRowAvailable_true cm i) (proj2 (Hrow i) (conj Hi1 Hi2))) as [r Hr].
    destruct (proj1 (IsColumnAvailable_true cm j) (proj2 (Hcol j) (conj Hj1 Hj2)))
      as [c Hc].
    destruct (CostMatrix_at_Ok cm i j r c Hwf Hr Hc) as (x & Hx & Hat).
    exists x. split; [done|]. rewrite (Hcell i j r c Hr Hc) in Hx. injection Hx as <-.
    unfold constructed_cell. by rewrite bool_decide_eq_true_2.
  - intros exclude1 e exclude2 -> Hun.
    assert (IsRowAvailable cm (u e) = false \/ IsColumnAvailable cm (v e) = false)
      as Hun'.
    { destruct (IsRowAvailable cm (u e)) eqn:Hr; [|by left].
      destruct (IsColumnAvailable cm (v e)) eqn:Hc; [|by right].
      apply Hrow in Hr as [? ?]. apply Hcol in Hc as [? ?].
      destruct Hun as [?|[?|[?|?]]]; [done|done|lia|lia]. }
    rewrite CostMatrix_new_filled in Hnew |- *.
    apply bind_Ok_inv in Hnew as (cm1 & -> & Hmark). simpl.
    rewrite <- Hmark. symmetry. apply mark_excluded_skip.
    apply mark_excluded_mappings in Hmark as [Hrm Hcm].
    unfold IsRowAvailable, IsColumnAvailable in *. by rewrite <- Hrm, <- Hcm.
  - intros i j Hi1 Hi2 Hj1 Hj2 Hne.
    destruct (proj1 (IsRowAvailable_true cm i) (proj2 (Hrow i) (conj Hi1 Hi2))) as [r Hr].
    destruct (proj1 (IsColumnAvailable_true cm j) (proj2 (Hcol j) (conj Hj1 Hj2)))
      as [c Hc].
    destruct (CostMatrix_at_Ok cm i j r c Hwf Hr Hc) as (x & Hx & ->).
    rewrite (Hcell i j r c Hr Hc) in Hx. injection Hx as <-.
    unfold constructed_cell. by rewrite bool_decide_eq_false_2.
Qed.

Lemma CostMatrix_cells_witness :
  exists cm,
    CostMatrix_new graph4 [ {| u := 0; v := 1 |} ] loops4 = Ok cm /\
    (forall i, IsRowAvailable cm i = true
               <-> i < GetNumVertices graph4 /\ i ∉ origins [ {| u := 0; v := 1 |} ]) /\
    (forall j, IsColumnAvailable cm j = true
               <-> j < GetNumVertices graph4 /\ j ∉ destinations [ {| u := 0; v := 1 |} ]) /\
    (forall e, e ∈ loops4 ->
       u e < GetNumVertices graph4 -> u e ∉ origins [ {| u := 0; v := 1 |} ] ->
       v e < GetNumVertices graph4 -> v e ∉ destinations [ {| u := 0; v := 1 |} ] ->
       exists x, CostMatrix_at_edge cm e = Ok x /\ IsInfinite x = true) /\
    (forall exclude1 e exclude2,
       loops4 = exclude1 ++ e :: exclude2 ->
       u e ∈ origins [ {| u := 0; v := 1 |} ] \/ v e ∈ destinations [ {| u := 0; v := 1 |} ] \/
       GetNumVertices graph4 <= u e \/ GetNumVertices graph4 <= v e ->
       CostMatrix_new graph4 [ {| u := 0; v := 1 |} ] (exclude1 ++ exclude2) = Ok cm) /\
    (forall i j,
       i < GetNumVertices graph4 -> i ∉ origins [ {| u := 0; v := 1 |} ] ->
       j < GetNumVertices graph4 -> j ∉ destinations [ {| u := 0; v := 1 |} ] ->
       {| u := i; v := j |} ∉ loops4 ->
       CostMatrix_at cm i j
       = Ok (mkCostMatrixInteger (graph_cost graph4 i j) {| u := i; v := j |})).
Proof.
  apply (CostMatrix_cells graph4 [ {| u := 0; v := 1 |} ] loops4).
  repeat constructor.
Defined.

(** The scenario of the specification: excluding (0,1), with no include
    edge, keeps the matrix 4×4 and makes the cell (0,1) infinite. *)
Example exclude_marks_infinite :
  (fun cm => (GetNumRows (cost_matrix_ cm), GetNumColumns (cost_matrix_ cm),
              IsInfinite <$> CostMatrix_at cm 0 1, cost_of <$> CostMatrix_at cm 0 2))
    <$> CostMatrix_new graph4 [] [ {| u := 0; v := 1 |} ]
  = Ok (4, 4, Ok true, Ok 15%Z).
Proof. by vm_compute. Qed.

Lemma CostMatrix_new_in_range graph include exclude cm :
  CostMatrix_new graph include exclude = Ok cm ->
  edges_in_range (GetNumVertices graph) include.
Proof.
  intros Hnew. unfold edges_in_range.
  destruct (Forall_dec (fun e => u e < GetNumVertices graph /\ v e < GetNumVertices graph)
              include) as [Hin|Hout]; [done|].
  unfold CostMatrix_new in Hnew.
  rewrite parse_included_out_of_range in Hnew; [done| |]; simpl.
  - by rewrite !length_replicate.
  - by rewrite length_replicate.
Qed.

(** C7.  On a constructed matrix, also after any number of reductions: a
    query that names a vertex committed as the origin of an include edge as
    its row, or one committed as the destination of an include edge as its
    column, fails with NotAvailableError, for [operator()(row, column)],
    [operator()(Edge)], [GetRow] and [GetColumn]; and when the row vertex
    and the column vertex are both available, these operations succeed and
    yield the condensed cell, resp. a view of the condensed row or column. *)
Theorem unavailable_index_error graph include exclude Size n cm cm' :
  CostMatrix_new graph include exclude = Ok cm ->
  ReduceMatrix_times Size n cm = Ok cm' ->
  (forall i j, i ∈ origins include ->
     GetCondensedRowNum cm' i = Err NotAvailableError /\
     CostMatrix_at cm' i j = Err NotAvailableError /\
     CostMatrix_at_edge cm' {| u := i; v := j |} = Err NotAvailableError /\
     GetRow cm' i = Err NotAvailableError) /\
  (forall i j, j ∈ destinations include ->
     GetCondensedColumnNum cm' j = Err NotAvailableError /\
     CostMatrix_at cm' i j = Err NotAvailableError /\
     CostMatrix_at_edge cm' {| u := i; v := j |} = Err NotAvailableError /\
     GetColumn cm' j = Err NotAvailableError) /\
  (forall i j,
     i < GetNumVertices graph -> j < GetNumVertices graph ->
     i ∉ origins include -> j ∉ destinations include ->
     exists r c x,
       row_mapping_ cm' !! i = Some r /\ column_mapping_ cm' !! j = Some c /\
       cell_at (cost_matrix_ cm') r c = Some x /\
       CostMatrix_at cm' i j = Ok x /\
       CostMatrix_at_edge cm' {| u := i; v := j |} = Ok x /\
       GetRow cm' i = Ok (CostRow r) /\ view_valid (cost_matrix_ cm') (CostRow r) /\
       GetColumn cm' j = Ok (CostColumn c) /\ view_valid (cost_matrix_ cm') (CostColumn c)).
Proof.
  intros Hnew Hred.
  pose proof (CostMatrix_new_in_range _ _ _ _ Hnew) as Hin.
  destruct (CostMatrix_new_spec graph include exclude Hin) as
    (cm0 & Hnew0 & Hwf & _ & _ & Hdr & Hdc & _).
  rewrite Hnew in Hnew0. injection Hnew0 as <-.
  destruct (ReduceMatrix_times_shape _ _ _ _ Hred) as [g ->].
  pose proof (with_matrix_imap_wf cm g Hwf) as Hwf'.
  set (cm' := with_matrix cm (Matrix_imap g (cost_matrix_ cm))) in *.
  assert (forall i, i ∈ origins include -> IsRowAvailable cm' i = false) as Hrow.
  { intros i Hi. apply bool_decide_eq_false. simpl.
    rewrite <- elem_of_dom, Hdr, elem_of_difference. tauto. }
  assert (forall j, j ∈ destinations include -> IsColumnAvailable cm' j = false) as Hcol.
  { intros j Hj. apply bool_decide_eq_false. simpl.
    rewrite <- elem_of_dom, Hdc, elem_of_difference. tauto. }
  split; [|split].
  - intros i j Hi. unfold CostMatrix_at, CostMatrix_at_edge, GetRow. simpl.
    by rewrite (GetCondensedRowNum_unavailable _ _ (Hrow i Hi)).
  - intros i j Hj. unfold CostMatrix_at, CostMatrix_at_edge, GetColumn. simpl.
    rewrite (GetCondensedColumnNum_unavailable _ _ (Hcol j Hj)). simpl.
    split; [done|].
    by destruct (GetCondensedRowNum_cases cm' i) as [(r & _ & ->)| ->].
  - intros i j Hi Hj Hio Hjd.
    assert (is_Some (row_mapping_ cm' !! i)) as [r Hr].
    { simpl. rewrite <- elem_of_dom, Hdr, elem_of_difference, elem_of_set_seq.
      split; [lia|done]. }
    assert (is_Some (column_mapping_ cm' !! j)) as [c Hc].
    { simpl. rewrite <- elem_of_dom, Hdc, elem_of_difference, elem_of_set_seq.
      split; [lia|done]. }
    destruct (CostMatrix_at_Ok cm' i j r c Hwf' Hr Hc) as (x & Hx & Hat).
    exists r, c, x. split; [done|]. split; [done|]. split; [done|].
    split; [done|]. split; [done|].
    destruct Hwf' as (_ & (Hrr & _) & (Hcr & _)).
    unfold GetRow, GetColumn.
    rewrite (GetCondensedRowNum_Ok _ _ _ Hr), (GetCondensedColumnNum_Ok _ _ _ Hc).
    split; [done|]. split; [by apply (Hrr i)|]. split; [done|]. by apply (Hcr j).
Qed.

Lemma unavailable_index_error_witness :
  let cm' := Ok_or matrix4_incl (ReduceMatrix_times 3 1 matrix4_incl) in
  (forall i j, i ∈ origins [ {| u := 0; v := 1 |} ] ->
     GetCondensedRowNum cm' i = Err NotAvailableError /\
     CostMatrix_at cm' i j = Err NotAvailableError /\
     CostMatrix_at_edge cm' {| u := i; v := j |} = Err NotAvailableError /\
     GetRow cm' i = Err NotAvailableError) /\
  (forall i j, j ∈ destinations [ {| u := 0; v := 1 |} ] ->
     GetCondensedColumnNum cm' j = Err NotAvailableError /\
     CostMatrix_at cm' i j = Err NotAvailableError /\
     CostMatrix_at_edge cm' {| u := i; v := j |} = Err NotAvailableError /\
     GetColumn cm' j = Err NotAvailableError) /\
  (forall i j,
     i < GetNumVertices graph4 -> j < GetNumVertices graph4 ->
     i ∉ origins [ {| u := 0; v := 1 |} ] -> j ∉ destinations [ {| u := 0; v := 1 |} ] ->
     exists r c x,
       row_mapping_ cm' !! i = Some r /\ column_mapping_ cm' !! j = Some c /\
       cell_at (cost_matrix_ cm') r c = Some x /\
       CostMatrix_at cm' i j = Ok x /\
       CostMatrix_at_edge cm' {| u := i; v := j |} = Ok x /\
       GetRow cm' i = Ok (CostRow r) /\
       view_valid (cost_matrix_ cm') (CostRow r) /\
       GetColumn cm' j = Ok (CostColumn c) /\
       view_valid (cost_matrix_ cm') (CostColumn c)).
Proof.
  apply (unavailable_index_error graph4 [ {| u := 0; v := 1 |} ] loops4 3 1 matrix4_incl).
  - vm_compute. reflexivity.
  - vm_compute. reflexivity.
Defined.

(** The scenario of the specification: with (0,1) included, querying row 0
    or column 1 fails with the unavailable-index error, also after a
    reduction. *)
Example excluded_row_and_column :
  CostMatrix_at matrix4_incl 0 2 = Err NotAvailableError /\
  CostMatrix_at matrix4_incl 2 1 = Err NotAvailableError /\
  GetRow matrix4_incl 0 = Err NotAvailableError /\
  GetColumn matrix4_incl 1 = Err NotAvailableError /\
  (fun r => (fst r, GetRow (snd r) 0, GetColumn (snd r) 1, GetRow (snd r) 1))
    <$> ReduceMatrix 3 matrix4_incl
  = Ok (70%Z, Err NotAvailableError, Err NotAvailableError, Ok (CostRow 0)).
Proof. repeat split; by vm_compute. Qed.

(** ** Iterators *)

Section Iterators.
Implicit Types (m : Matrix CostMatrixInteger) (cv : CostVector).

Lemma CostVector_Iterator_advance_index m cv n : forall k,
  CostVector_Iterator_advance m n (Build_CostVector_Iterator cv k)
  = Build_CostVector_Iterator cv (Nat.min (k + n) (Nat.max k (CostVector_Size m cv))).
Proof.
  induction n as [|n IH]; intros k; simpl.
  - f_equal. lia.
  - destruct (decide (k < CostVector_Size m cv)).
    + rewrite CostVector_Iterator_incr_lt, IH by done. f_equal. lia.
    + rewrite CostVector_Iterator_incr_ge, IH by lia. f_equal. lia.
Qed.

Lemma CostVector_traverse_unfold fuel m it last :
  CostVector_traverse fuel m it last
  = if CostVector_Iterator_neq it last then
      match fuel with
      | 0 => Err OutOfFuel
      | S fuel' =>
          x ← CostVector_Iterator_deref m it;
          rest ← CostVector_traverse fuel' m (CostVector_Iterator_incr m it) last;
          Ok (x :: rest)
      end
    else Ok [].
Proof. by destruct fuel. Qed.

Lemma CostVector_traverse_from m cv fuel : forall k,
  Matrix_wf m -> view_valid m cv ->
  k <= CostVector_Size m cv -> CostVector_Size m cv - k <= fuel ->
  CostVector_traverse fuel m (Build_CostVector_Iterator cv k) (CostVector_end m cv)
  = Ok (drop k (view_cells m cv)).
Proof.
  induction fuel as [|fuel IH]; intros k Hwf Hv Hk Hfuel;
    rewrite CostVector_traverse_unfold; unfold CostVector_end;
    rewrite CostVector_Iterator_neq_index.
  - rewrite bool_decide_eq_true_2 by lia. simpl.
    rewrite drop_ge; [done|]. rewrite view_cells_length by done. lia.
  - destruct (decide (k = CostVector_Size m cv)) as [->|Hne].
    + rewrite bool_decide_eq_true_2 by done. simpl.
      rewrite drop_ge; [done|]. by rewrite view_cells_length.
    + rewrite bool_decide_eq_false_2 by done. simpl.
      destruct (CostVector_Iterator_deref_Ok m cv k) as [x [Hx ->]]; [done|done|lia|].
      simpl. rewrite CostVector_Iterator_incr_lt by lia.
      fold (CostVector_end m cv). rewrite IH by (done || lia). simpl.
      by rewrite (drop_S _ _ _ Hx).
Qed.

(** Arithmetic of the row-major position. *)
Lemma position_next columns k :
  0 < columns ->
  position columns (S k)
  = let column_num := (column_num_ (position columns k) + 1) `mod` columns in
    {| row_num_ := if decide (column_num = 0) then S (row_num_ (position columns k))
                   else row_num_ (position columns k);
       column_num_ := column_num |}.
Proof.
  intros HC. unfold position. simpl.
  pose proof (Nat.div_mod_eq k columns) as Hk.
  pose proof (Nat.mod_upper_bound k columns) as Hlt.
  destruct (decide (k `mod` columns + 1 = columns)) as [Heq|Hne].
  - rewrite Heq, Nat.Div0.mod_same. simpl.
    destruct (Nat.div_mod_unique columns (S k / columns) (S (k / columns))
                (S k `mod` columns) 0) as [-> ->]; [apply Nat.mod_upper_bound; lia|lia| |done].
    rewrite <- (Nat.div_mod_eq (S k) columns). nia.
  - rewrite (Nat.mod_small (k `mod` columns + 1)) by lia.
    rewrite decide_False by lia.
    destruct (Nat.div_mod_unique columns (S k / columns) (k / columns)
                (S k `mod` columns) (k `mod` columns + 1)) as [-> ->];
      [apply Nat.mod_upper_bound; lia|lia| |done].
    rewrite <- (Nat.div_mod_eq (S k) columns). nia.
Qed.

Lemma position_range rows columns k :
  0 < columns -> k < rows * columns ->
  k / columns < rows /\ k `mod` columns < columns.
Proof.
  intros HC Hk. split; [|apply Nat.mod_upper_bound; lia].
  apply Nat.Div0.div_lt_upper_bound. lia.
Qed.

Lemma position_end rows columns :
  0 < columns ->
  position columns (rows * columns) = {| row_num_ := rows; column_num_ := 0 |}.
Proof.
  intros HC. unfold position. rewrite Nat.div_mul by lia.
  by rewrite Nat.Div0.mod_mul.
Qed.

Lemma position_is_end m k :
  0 < GetNumColumns m -> k <= GetNumRows m * GetNumColumns m ->
  CostMatrix_Iterator_eq (position (GetNumColumns m) k) (CostMatrix_end m)
  = bool_decide (k = GetNumRows m * GetNumColumns m).
Proof.
  intros HC Hk. unfold CostMatrix_Iterator_eq, CostMatrix_end. simpl.
  destruct (decide (k = GetNumRows m * GetNumColumns m)) as [->|Hne].
  - rewrite Nat.div_mul, Nat.Div0.mod_mul by lia.
    by rewrite !bool_decide_eq_true_2.
  - destruct (position_range (GetNumRows m) (GetNumColumns m) k) as [Hr _]; [done|lia|].
    rewrite (bool_decide_eq_false_2 (k / _ = _)) by lia.
    rewrite (bool_decide_eq_false_2 (k = _)) by done. apply andb_false_r.
Qed.

Lemma MoveToNextCell_position m k :
  0 < GetNumColumns m -> k < GetNumRows m * GetNumColumns m ->
  MoveToNextCell m (position (GetNumColumns m) k)
  = Ok (position (GetNumColumns m) (S k)).
Proof.
  intros HC Hk. unfold MoveToNextCell.
  destruct (position_range (GetNumRows m) (GetNumColumns m) k) as [Hr _]; [done..|].
  rewrite (bool_decide_eq_false_2 (row_num_ _ = _)) by (simpl; lia). simpl.
  rewrite decide_False by lia. by rewrite position_next.
Qed.

Lemma CostMatrix_Iterator_advance_position m n : forall k,
  0 < GetNumColumns m -> k + n <= GetNumRows m * GetNumColumns m ->
  CostMatrix_Iterator_advance m n (position (GetNumColumns m) k)
  = Ok (position (GetNumColumns m) (k + n)).
Proof.
  induction n as [|n IH]; intros k HC Hk; simpl.
  - by rewrite Nat.add_0_r.
  - unfold CostMatrix_Iterator_incr. rewrite MoveToNextCell_position by (done || lia).
    simpl. rewrite IH by (done || lia). do 2 f_equal. lia.
Qed.

Lemma CostMatrix_traverse_unfold fuel m it last :
  CostMatrix_traverse fuel m it last
  = if CostMatrix_Iterator_neq it last then
      match fuel with
      | 0 => Err OutOfFuel
      | S fuel' =>
          _ ← CostMatrix_Iterator_deref m it;
          it' ← CostMatrix_Iterator_incr m it;
          rest ← CostMatrix_traverse fuel' m it' last;
          Ok ((row_num_ it, column_num_ it) :: rest)
      end
    else Ok [].
Proof. by destruct fuel. Qed.

Lemma CostMatrix_traverse_from m fuel : forall k,
  Matrix_wf m -> 0 < GetNumColumns m ->
  k <= GetNumRows m * GetNumColumns m -> GetNumRows m * GetNumColumns m - k <= fuel ->
  CostMatrix_traverse fuel m (position (GetNumColumns m) k) (CostMatrix_end m)
  = Ok ((fun k => (k / GetNumColumns m, k `mod` GetNumColumns m))
          <$> seq k (GetNumRows m * GetNumColumns m - k)).
Proof.
  induction fuel as [|fuel IH]; intros k Hwf HC Hk Hfuel;
    rewrite CostMatrix_traverse_unfold; unfold CostMatrix_Iterator_neq;
    rewrite position_is_end by done.
  - rewrite bool_decide_eq_true_2 by lia. simpl.
    by replace (GetNumRows m * GetNumColumns m - k) with 0 by lia.
  - destruct (decide (k = GetNumRows m * GetNumColumns m)) as [->|Hne].
    + rewrite bool_decide_eq_true_2 by done. simpl. by rewrite Nat.sub_diag.
    + rewrite bool_decide_eq_false_2 by done. simpl.
      destruct (position_range (GetNumRows m) (GetNumColumns m) k) as [Hr Hc]; [done|lia|].
      unfold CostMatrix_Iterator_deref. simpl.
      destruct (Matrix_get_Ok m _ _ Hwf Hr Hc) as [x [_ ->]]. simpl.
      unfold CostMatrix_Iterator_incr. rewrite MoveToNextCell_position by (done || lia).
      simpl. rewrite IH by (done || lia). simpl.
      replace (GetNumRows m * GetNumColumns m - k)
        with (S (GetNumRows m * GetNumColumns m - S k)) by lia.
      done.
Qed.

Lemma row_major_positions rows columns :
  0 < columns ->
  row_major rows columns
  = (fun k => (k / columns, k `mod` columns)) <$> seq 0 (rows * columns).
Proof.
  intros HC. unfold row_major. induction rows as [|rows IH]; [done|].
  rewrite seq_S, flat_map_app, IH. simpl. rewrite app_nil_r.
  replace (columns + rows * columns) with (rows * columns + columns) by lia.
  rewrite seq_app, fmap_app. f_equal. simpl.
  apply list_eq. intros j. rewrite !list_lookup_fmap.
  destruct (decide (j < columns)) as [Hj|Hj].
  - rewrite !lookup_seq_lt by done. simpl. f_equal.
    rewrite (Nat.add_comm (rows * columns) j), Nat.div_add, Nat.Div0.mod_add by lia.
    rewrite Nat.div_small, Nat.mod_small by done. done.
  - by rewrite !lookup_seq_ge by lia.
Qed.

Lemma length_row_major rows columns : length (row_major rows columns) = rows * columns.
Proof.
  unfold row_major. induction rows as [|rows IH]; [done|].
  rewrite seq_S, flat_map_app, length_app, IH. simpl.
  rewrite app_nil_r, length_fmap, length_seq. lia.
Qed.

End Iterators.

(** ** Iterators: the claims *)

(** C9 (amended).  The iterator of a row or column view compares equal to
    its end sentinel after exactly [size] increments, having read the
    [size] cells of the view in order.  On a matrix that has a column, or
    has no row, the whole-matrix iterator is after [k] increments at row
    [k / columns], column [k mod columns], compares equal to its end state
    [(numRows, 0)] exactly when [k = rows × columns], and a traversal reads
    exactly the [rows × columns] cells in row-major order; on a matrix with
    no rows its begin compares equal to its end and nothing is read. *)
Theorem iterators_visit_every_cell m :
  Matrix_wf m ->
  (forall cv, view_valid m cv ->
     (forall k, k <= CostVector_Size m cv ->
        CostVector_Iterator_eq
          (CostVector_Iterator_advance m k (CostVector_begin cv)) (CostVector_end m cv)
        = bool_decide (k = CostVector_Size m cv)) /\
     CostVector_traverse (CostVector_Size m cv) m (CostVector_begin cv) (CostVector_end m cv)
     = Ok (view_cells m cv) /\
     length (view_cells m cv) = CostVector_Size m cv) /\
  (0 < GetNumColumns m \/ GetNumRows m = 0 ->
     (forall k, k <= GetNumRows m * GetNumColumns m ->
        CostMatrix_Iterator_advance m k CostMatrix_begin
        = Ok (position (GetNumColumns m) k) /\
        CostMatrix_Iterator_eq (position (GetNumColumns m) k) (CostMatrix_end m)
        = bool_decide (k = GetNumRows m * GetNumColumns m)) /\
     CostMatrix_traverse (GetNumRows m * GetNumColumns m) m
       CostMatrix_begin (CostMatrix_end m)
     = Ok (row_major (GetNumRows m) (GetNumColumns m)) /\
     length (row_major (GetNumRows m) (GetNumColumns m))
     = GetNumRows m * GetNumColumns m) /\
  (GetNumRows m = 0 ->
     CostMatrix_Iterator_eq CostMatrix_begin (CostMatrix_end m) = true /\
     forall fuel, CostMatrix_traverse fuel m CostMatrix_begin (CostMatrix_end m) = Ok []).
Proof.
  intros Hwf. split; [|split].
  - intros cv Hv. split; [|split].
    + intros k Hk. unfold CostVector_begin.
      rewrite CostVector_Iterator_advance_index. unfold CostVector_end.
      rewrite CostVector_Iterator_eq_index. apply bool_decide_ext. lia.
    + unfold CostVector_begin.
      rewrite CostVector_traverse_from by (done || lia). by rewrite drop_0.
    + by apply view_cells_length.
  - assert (forall c, CostMatrix_begin = position c 0) as Hbegin.
    { intros c. unfold CostMatrix_begin, position.
      by rewrite Nat.Div0.div_0_l, Nat.Div0.mod_0_l. }
    intros [HC|HR].
    + split; [|split].
      * intros k Hk. split; [|by apply position_is_end].
        rewrite (Hbegin (GetNumColumns m)).
        by rewrite CostMatrix_Iterator_advance_position.
      * rewrite (Hbegin (GetNumColumns m)).
        rewrite CostMatrix_traverse_from by (done || lia).
        rewrite Nat.sub_0_r. by rewrite row_major_positions.
      * apply length_row_major.
    + rewrite HR. simpl. split; [|split; [|done]].
      * intros k Hk. replace k with 0 by lia. simpl.
        rewrite <- Hbegin. split; [done|].
        unfold CostMatrix_Iterator_eq, CostMatrix_begin, CostMatrix_end. simpl.
        by rewrite HR.
      * unfold CostMatrix_Iterator_neq, CostMatrix_Iterator_eq, CostMatrix_begin,
          CostMatrix_end. simpl. by rewrite HR.
  - intros HR.
    assert (CostMatrix_Iterator_eq CostMatrix_begin (CostMatrix_end m) = true) as Heq.
    { unfold CostMatrix_Iterator_eq, CostMatrix_begin, CostMatrix_end. simpl.
      by rewrite HR. }
    split; [done|]. intros fuel. rewrite CostMatrix_traverse_unfold.
    unfold CostMatrix_Iterator_neq. by rewrite Heq.
Qed.

Lemma iterators_visit_every_cell_witness :
  CostVector_traverse 4 (cost_matrix_ matrix4) (CostVector_begin (CostColumn 1))
    (CostVector_end (cost_matrix_ matrix4) (CostColumn 1))
  = Ok (view_cells (cost_matrix_ matrix4) (CostColumn 1)) /\
  CostMatrix_traverse 16 (cost_matrix_ matrix4) CostMatrix_begin
    (CostMatrix_end (cost_matrix_ matrix4))
  = Ok (row_major 4 4).
Proof.
  destruct (iterators_visit_every_cell (cost_matrix_ matrix4) matrix4_wf)
    as (Hview & Hall & _).
  split.
  - apply (Hview (CostColumn 1)). vm_compute. lia.
  - apply Hall. left. vm_compute. lia.
Defined.

(** C9 as stated fails on the 1×0 matrix that including (0,0), (1,1) and
    (1,2) leaves: it has no cell, yet its begin differs from its end, and
    the first increment divides by zero columns. *)
Lemma iterators_visit_every_cell_counterexample :
  CostMatrix_new graph3
    [ {| u := 0; v := 0 |}; {| u := 1; v := 1 |}; {| u := 1; v := 2 |} ] [] = Ok matrix_1x0 /\
  Matrix_wf (cost_matrix_ matrix_1x0) /\
  GetNumRows (cost_matrix_ matrix_1x0) * GetNumColumns (cost_matrix_ matrix_1x0) = 0 /\
  CostMatrix_Iterator_eq CostMatrix_begin (CostMatrix_end (cost_matrix_ matrix_1x0)) = false /\
  CostMatrix_Iterator_incr (cost_matrix_ matrix_1x0) CostMatrix_begin = Err DivisionByZero /\
  CostMatrix_traverse 1 (cost_matrix_ matrix_1x0) CostMatrix_begin
    (CostMatrix_end (cost_matrix_ matrix_1x0)) = Err OutOfRange.
Proof.
  split; [by vm_compute|]. split; [concrete|].
  repeat split; by vm_compute.
Qed.

(** C10.  Incrementing an iterator that is at its end position changes
    nothing: the prefix and the postfix [operator++] of the view iterator
    advance only while the index is below [Size()], and [MoveToNextCell]
    returns at once at [(numRows, 0)]; so no number of increments moves
    either iterator past its end sentinel. *)
Theorem increment_at_end_is_noop m cv n :
  (forall it,
     CostVector_Iterator_incr m it
     = (if decide (traversing_cell_index_ it < CostVector_Size m (cost_vector_ptr_ it))
        then {| cost_vector_ptr_ := cost_vector_ptr_ it;
                traversing_cell_index_ := S (traversing_cell_index_ it) |}
        else it) /\
     CostVector_Iterator_post_incr m it = (it, CostVector_Iterator_incr m it)) /\
  CostVector_Iterator_incr m (CostVector_end m cv) = CostVector_end m cv /\
  CostVector_Iterator_post_incr m (CostVector_end m cv)
  = (CostVector_end m cv, CostVector_end m cv) /\
  CostVector_Iterator_advance m n (CostVector_end m cv) = CostVector_end m cv /\
  (forall k, traversing_cell_index_
               (CostVector_Iterator_advance m n (Build_CostVector_Iterator cv k))
             <= Nat.max k (CostVector_Size m cv)) /\
  MoveToNextCell m (CostMatrix_end m) = Ok (CostMatrix_end m) /\
  CostMatrix_Iterator_incr m (CostMatrix_end m) = Ok (CostMatrix_end m) /\
  CostMatrix_Iterator_post_incr m (CostMatrix_end m)
  = Ok (CostMatrix_end m, CostMatrix_end m) /\
  CostMatrix_Iterator_advance m n (CostMatrix_end m) = Ok (CostMatrix_end m).
Proof.
  assert (MoveToNextCell m (CostMatrix_end m) = Ok (CostMatrix_end m)) as Hend.
  { unfold MoveToNextCell, CostMatrix_end. simpl. by rewrite !bool_decide_eq_true_2. }
  assert (CostVector_Iterator_incr m (CostVector_end m cv) = CostVector_end m cv) as Hvend.
  { unfold CostVector_end. by rewrite CostVector_Iterator_incr_ge. }
  split; [|split; [|split; [|split; [|split; [|split; [|split; [|split]]]]]]].
  - intros [p k]. split; [done|].
    unfold CostVector_Iterator_post_incr, CostVector_Iterator_incr. done.
  - done.
  - unfold CostVector_Iterator_post_incr. fold (CostVector_Iterator_incr m (CostVector_end m cv)).
    by rewrite Hvend.
  - unfold CostVector_end. rewrite CostVector_Iterator_advance_index. f_equal. lia.
  - intros k. rewrite CostVector_Iterator_advance_index. simpl. lia.
  - done.
  - done.
  - unfold CostMatrix_Iterator_post_incr. by rewrite Hend.
  - induction n as [|n IH]; simpl; [done|].
    unfold CostMatrix_Iterator_incr. by rewrite Hend.
Qed.

Lemma increment_at_end_is_noop_witness :
  CostVector_Iterator_advance (cost_matrix_ matrix4) 3
    (CostVector_end (cost_matrix_ matrix4) (CostRow 2))
  = CostVector_end (cost_matrix_ matrix4) (CostRow 2) /\
  CostMatrix_Iterator_advance (cost_matrix_ matrix_1x0) 3
    (CostMatrix_end (cost_matrix_ matrix_1x0))
  = Ok (CostMatrix_end (cost_matrix_ matrix_1x0)).
Proof.
  split.
  - apply (increment_at_end_is_noop (cost_matrix_ matrix4) (CostRow 2) 3).
  - apply (increment_at_end_is_noop (cost_matrix_ matrix_1x0) (CostRow 0) 3).
Defined.

(** ** The constructed matrix in closed form *)

Section Table.
Implicit Types (include exclude : list Edge) (cm : CostMatrix).

Lemma filter_seq_lookup (P : nat -> Prop) `{!forall i, Decision (P i)} n k i :
  filter P (seq 0 n) !! k = Some i
  <-> i < n /\ P i /\ length (filter P (seq 0 i)) = k.
Proof.
  assert (forall i', i' < n -> P i' ->
            filter P (seq 0 n) !! length (filter P (seq 0 i')) = Some i') as Hfwd.
  { intros i' Hi HP. replace n with (i' + S (n - S i')) by lia.
    rewrite seq_app, filter_app. simpl. rewrite filter_cons_True by done.
    rewrite lookup_app_r by lia. by rewrite Nat.sub_diag. }
  split.
  - intros Hk. pose proof (list_elem_of_lookup_2 _ _ _ Hk) as Hin.
    apply list_elem_of_filter in Hin as [HP Hin]. apply elem_of_seq in Hin.
    split; [lia|]. split; [done|].
    eapply NoDup_lookup; [|apply Hfwd; [lia|done]|exact Hk].
    apply NoDup_filter, NoDup_seq.
  - intros (Hi & HP & <-). by apply Hfwd.
Qed.

Lemma count_available_fmap (P : nat -> Prop) `{!forall i, Decision (P i)} (l : list nat) :
  count_available ((fun i => bool_decide (P i)) <$> l) = length (filter P l).
Proof.
  induction l as [|a l IH]; [done|].
  rewrite fmap_cons, count_available_cons, filter_cons, IH.
  destruct (decide (P a)).
  - by rewrite bool_decide_eq_true_2.
  - by rewrite bool_decide_eq_false_2.
Qed.

Lemma available_flags n (gone : list nat) available :
  (forall i, available !! i
             = (fun a => a && bool_decide (i ∉ gone)) <$> replicate n true !! i) ->
  available = (fun i => bool_decide (i ∉ gone)) <$> seq 0 n.
Proof.
  intros H. apply list_eq. intros i. rewrite H, list_lookup_fmap.
  destruct (decide (i < n)).
  - by rewrite lookup_replicate_2, lookup_seq_lt.
  - rewrite lookup_seq_ge by lia.
    by rewrite (lookup_ge_None_2 (replicate n true)) by (rewrite length_replicate; lia).
Qed.

(** The k-th available vertex, in increasing order, gets the condensed
    index k. *)
Lemma MakeVectorMapping_available n (gone : list nat) available i k :
  (forall i, available !! i
             = (fun a => a && bool_decide (i ∉ gone)) <$> replicate n true !! i) ->
  MakeVectorMapping available !! i = Some k
  <-> available_vertices n gone !! k = Some i.
Proof.
  intros ->%available_flags. unfold available_vertices.
  rewrite filter_seq_lookup, MakeVectorMapping_lookup, list_lookup_fmap.
  destruct (decide (i < n)) as [Hi|Hi].
  - rewrite lookup_seq_lt by done. simpl.
    unfold condensed_index. rewrite <-fmap_take, take_seq, Nat.min_l by lia.
    rewrite count_available_fmap.
    destruct (decide (i ∉ gone)) as [Hg|Hg].
    + rewrite bool_decide_eq_true_2 by done. split.
      * by intros [= <-].
      * by intros (_ & _ & <-).
    + rewrite bool_decide_eq_false_2 by done. split; [done|]. by intros (_ & ? & _).
  - rewrite lookup_seq_ge by lia. simpl. split; [done|]. intros (? & _); lia.
Qed.

Lemma CostMatrix_new_mappings graph include exclude cm :
  CostMatrix_new graph include exclude = Ok cm ->
  (forall i k, row_mapping_ cm !! i = Some k
     <-> available_vertices (GetNumVertices graph) (u <$> include) !! k = Some i) /\
  (forall j k, column_mapping_ cm !! j = Some k
     <-> available_vertices (GetNumVertices graph) (v <$> include) !! k = Some j).
Proof.
  intros Hnew. pose proof (CostMatrix_new_in_range _ _ _ _ Hnew) as Hin.
  revert Hnew. unfold CostMatrix_new.
  set (n := GetNumVertices graph) in *.
  destruct (parse_included_spec n include (replicate n true) (replicate n true))
    as (ra & ca & -> & Hra & Hca & Hrow & Hcol);
    [by rewrite length_replicate | by rewrite length_replicate | done |].
  simpl.
  set (cm0 := {| cost_matrix_ := SetSize _ _ default_cell;
                 row_mapping_ := MakeVectorMapping ra;
                 column_mapping_ := MakeVectorMapping ca |}).
  assert (CostMatrix_wf cm0) as Hwf0.
  { split; [apply SetSize_wf|]. simpl. unfold GetNumRows, GetNumColumns. simpl.
    rewrite !MakeVectorMapping_size.
    split; apply MakeVectorMapping_condensing. }
  destruct (fill_matrix_spec graph cm0 Hwf0) as (g & -> & _). simpl.
  intros [-> ->]%mark_excluded_mappings. simpl.
  split; intros; by apply MakeVectorMapping_available.
Qed.

Lemma cell_at_None {T} (m : Matrix T) r c :
  Matrix_wf m -> ¬ (r < num_rows_ m /\ c < num_columns_ m) -> cell_at m r c = None.
Proof.
  intros Hwf Hout. destruct (cell_at m r c) as [x|] eqn:H; [|done].
  by apply cell_at_Some in H.
Qed.

(** Rectangular storage is determined by its cells. *)
Lemma Matrix_data_ext {T} (m : Matrix T) (d : list (list T)) :
  Matrix_wf m -> length d = num_rows_ m ->
  Forall (fun row => length row = num_columns_ m) d ->
  (forall r c, r < num_rows_ m -> c < num_columns_ m ->
     d !! r ≫= (fun row => row !! c) = cell_at m r c) ->
  data_ m = d.
Proof.
  intros [Hlen Hrows] Hd Hdrows Hcells. apply list_eq. intros r.
  destruct (decide (r < num_rows_ m)) as [Hr|Hr].
  - destruct (lookup_lt_is_Some_2 (data_ m) r) as [row1 H1]; [lia|].
    destruct (lookup_lt_is_Some_2 d r) as [row2 H2]; [lia|].
    rewrite H1, H2. f_equal. apply list_eq. intros c.
    pose proof (Forall_lookup_1 _ _ _ _ Hrows H1) as Hl1.
    pose proof (Forall_lookup_1 _ _ _ _ Hdrows H2) as Hl2. simpl in *.
    destruct (decide (c < num_columns_ m)) as [Hc|Hc].
    + specialize (Hcells r c Hr Hc). unfold cell_at in Hcells.
      rewrite H1, H2 in Hcells. simpl in Hcells. done.
    + by rewrite !lookup_ge_None_2 by lia.
  - by rewrite !lookup_ge_None_2 by lia.
Qed.

Lemma CostMatrix_new_table graph include exclude cm :
  CostMatrix_new graph include exclude = Ok cm ->
  GetNumRows (cost_matrix_ cm)
  = length (available_vertices (GetNumVertices graph) (u <$> include)) /\
  GetNumColumns (cost_matrix_ cm)
  = length (available_vertices (GetNumVertices graph) (v <$> include)) /\
  data_ (cost_matrix_ cm) = condensed_table graph include exclude.
Proof.
  intros Hnew. pose proof (CostMatrix_new_in_range _ _ _ _ Hnew) as Hin.
  destruct (CostMatrix_new_mappings _ _ _ _ Hnew) as [Hrm Hcm].
  destruct (CostMatrix_new_spec graph include exclude Hin)
    as (cm1 & Hnew1 & Hwf & _ & _ & _ & _ & _ & _ & Hcells).
  rewrite Hnew in Hnew1. injection Hnew1 as <-.
  destruct Hwf as (Hmwf & (Hr1 & Hr2 & _) & (Hc1 & Hc2 & _)).
  set (rows := available_vertices (GetNumVertices graph) (u <$> include)) in *.
  set (cols := available_vertices (GetNumVertices graph) (v <$> include)) in *.
  assert (GetNumRows (cost_matrix_ cm) = length rows) as Hrows.
  { apply Nat.le_antisymm; apply Nat.nlt_ge; intros Hlt.
    - destruct (Hr2 (length rows)) as [i Hi]; [done|].
      apply Hrm, lookup_lt_Some in Hi. lia.
    - destruct (lookup_lt_is_Some_2 rows (GetNumRows (cost_matrix_ cm))) as [i Hi];
        [done|]. apply Hrm, Hr1 in Hi. lia. }
  assert (GetNumColumns (cost_matrix_ cm) = length cols) as Hcols.
  { apply Nat.le_antisymm; apply Nat.nlt_ge; intros Hlt.
    - destruct (Hc2 (length cols)) as [j Hj]; [done|].
      apply Hcm, lookup_lt_Some in Hj. lia.
    - destruct (lookup_lt_is_Some_2 cols (GetNumColumns (cost_matrix_ cm))) as [j Hj];
        [done|]. apply Hcm, Hc1 in Hj. lia. }
  split; [done|]. split; [done|].
  unfold GetNumRows, GetNumColumns in *.
  apply Matrix_data_ext; [done| | |].
  - unfold condensed_table. by rewrite length_fmap.
  - unfold condensed_table. apply Forall_fmap, Forall_forall. intros i _. simpl.
    by rewrite length_fmap.
  - intros r c Hr Hc. unfold condensed_table. fold rows cols.
    destruct (lookup_lt_is_Some_2 rows r) as [i Hi]; [lia|].
    destruct (lookup_lt_is_Some_2 cols c) as [j Hj]; [lia|].
    rewrite list_lookup_fmap, Hi. simpl. rewrite list_lookup_fmap, Hj. simpl.
    symmetry. apply Hcells; [by apply Hrm | by apply Hcm].
Qed.

Lemma row_cells_constructed graph include exclude cm r i :
  CostMatrix_new graph include exclude = Ok cm ->
  available_vertices (GetNumVertices graph) (u <$> include) !! r = Some i ->
  row_cells (cost_matrix_ cm) r
  = constructed_cell graph exclude i
      <$> available_vertices (GetNumVertices graph) (v <$> include).
Proof.
  intros Hnew Hi. destruct (CostMatrix_new_table _ _ _ _ Hnew) as (_ & _ & Hdata).
  unfold row_cells. rewrite Hdata. unfold condensed_table.
  by rewrite list_lookup_fmap, Hi.
Qed.

Lemma column_cells_constructed graph include exclude cm c j :
  CostMatrix_new graph include exclude = Ok cm ->
  available_vertices (GetNumVertices graph) (v <$> include) !! c = Some j ->
  column_cells (cost_matrix_ cm) c
  = (fun i => constructed_cell graph exclude i j)
      <$> available_vertices (GetNumVertices graph) (u <$> include).
Proof.
  intros Hnew Hj. destruct (CostMatrix_new_table _ _ _ _ Hnew) as (_ & _ & Hdata).
  unfold column_cells. rewrite Hdata. unfold condensed_table.
  rewrite <-list_fmap_compose. apply list_fmap_ext. intros _ i _. simpl.
  by rewrite list_lookup_fmap, Hj.
Qed.

Lemma elem_of_available_vertices n gone i :
  i ∈ available_vertices n gone <-> i < n /\ i ∉ gone.
Proof.
  unfold available_vertices. rewrite list_elem_of_filter, elem_of_seq. intuition lia.
Qed.

Lemma infinite_constructed_cell graph exclude i j :
  infinite (constructed_cell graph exclude i j)
  = bool_decide ({| u := i; v := j |} ∈ exclude).
Proof. unfold constructed_cell. by case_bool_decide. Qed.

Lemma available_vertices_ext n gone gone' :
  (forall x, x ∈ gone <-> x ∈ gone') ->
  available_vertices n gone = available_vertices n gone'.
Proof.
  intros H. unfold available_vertices. apply list_filter_iff. intros x.
  by rewrite H.
Qed.

Lemma origins_elem include include' :
  origins include = origins include' ->
  forall x, x ∈ u <$> include <-> x ∈ u <$> include'.
Proof.
  unfold origins. intros H x. by rewrite <-!(elem_of_list_to_set (C:=gset nat)), H.
Qed.

Lemma destinations_elem include include' :
  destinations include = destinations include' ->
  forall x, x ∈ v <$> include <-> x ∈ v <$> include'.
Proof.
  unfold destinations. intros H x. by rewrite <-!(elem_of_list_to_set (C:=gset nat)), H.
Qed.

Lemma edges_in_range_sets n include include' :
  origins include = origins include' ->
  destinations include = destinations include' ->
  edges_in_range n include -> edges_in_range n include'.
Proof.
  intros Ho Hd Hin. apply Forall_forall. intros e He.
  unfold edges_in_range in Hin. rewrite Forall_forall in Hin. split.
  - assert (u e ∈ u <$> include) as Hu.
    { apply (origins_elem _ _ Ho). by apply list_elem_of_fmap_2. }
    apply list_elem_of_fmap in Hu as (e' & -> & He'). by apply Hin.
  - assert (v e ∈ v <$> include) as Hv.
    { apply (destinations_elem _ _ Hd). by apply list_elem_of_fmap_2. }
    apply list_elem_of_fmap in Hv as (e' & -> & He'). by apply Hin.
Qed.

Lemma condensed_table_ext graph include include' exclude exclude' :
  origins include = origins include' ->
  destinations include = destinations include' ->
  (forall e, e ∈ exclude <-> e ∈ exclude') ->
  condensed_table graph include exclude = condensed_table graph include' exclude'.
Proof.
  intros Ho Hd He. unfold condensed_table.
  rewrite (available_vertices_ext _ _ _ (origins_elem _ _ Ho)).
  rewrite (available_vertices_ext _ _ _ (destinations_elem _ _ Hd)).
  apply list_fmap_ext. intros _ i _. apply list_fmap_ext. intros _ j _.
  unfold constructed_cell. by rewrite (bool_decide_ext _ _ (He _)).
Qed.

End Table.

(** * Further properties of the constructor and of MakeVectorMapping *)

Lemma filter_all {A} (P : A -> Prop) `{!forall x, Decision (P x)} (l : list A) :
  Forall P l -> filter P l = l.
Proof.
  induction 1 as [|x l HP _ IH]; [done|]. by rewrite filter_cons_True, IH.
Qed.

Lemma available_vertices_nil n : available_vertices n [] = seq 0 n.
Proof.
  unfold available_vertices. apply filter_all, Forall_forall.
  intros i _. apply not_elem_of_nil.
Qed.

Lemma count_available_0 available :
  count_available available = 0 <-> Forall (fun a => a = false) available.
Proof.
  induction available as [|a available IH]; [by split; [constructor|]|].
  rewrite count_available_cons, Forall_cons. destruct a; simpl.
  - split; [lia|]. by intros [? _].
  - rewrite IH. tauto.
Qed.

(** X1.  The constructor returns a matrix exactly when every include edge
    names vertices of the graph; an include edge outside the graph makes the
    write to [row_available] or [column_available] go out of range.  The
    exclude edges have no part in this. *)
Theorem CostMatrix_new_returns graph include exclude :
  (is_Ok (CostMatrix_new graph include exclude) = true
   <-> edges_in_range (GetNumVertices graph) include) /\
  (is_Ok (CostMatrix_new graph include exclude) = false ->
   CostMatrix_new graph include exclude = Err OutOfRange).
Proof.
  assert (edges_in_range (GetNumVertices graph) include ->
          is_Ok (CostMatrix_new graph include exclude) = true) as Hok.
  { intros Hin. by destruct (CostMatrix_new_spec graph include exclude Hin) as (cm & -> & _). }
  split.
  - split; [|done].
    destruct (CostMatrix_new graph include exclude) as [cm|] eqn:Hnew; [|done].
    intros _. by eapply CostMatrix_new_in_range.
  - intros Hno.
    destruct (decide (Forall (fun e => u e < GetNumVertices graph /\ v e < GetNumVertices graph)
                        include)) as [Hin|Hout].
    + apply Hok in Hin. congruence.
    + unfold CostMatrix_new. rewrite parse_included_out_of_range; [done| |]; simpl.
      * by rewrite !length_replicate.
      * by rewrite length_replicate.
Qed.

(** X2.  [MakeVectorMapping] on any vector of flags: an index is a key exactly
    when its flag is set, it is mapped to the number of set flags before it,
    the mapping has as many keys as there are set flags, and it is empty
    exactly when no flag is set (in particular on the empty vector). *)
Theorem MakeVectorMapping_counts available :
  (forall i, MakeVectorMapping available !! i
             = if default false (available !! i)
               then Some (count_available (take i available)) else None) /\
  size (MakeVectorMapping available) = count_available available /\
  (MakeVectorMapping available = ∅ <-> Forall (fun a => a = false) available).
Proof.
  split; [|split].
  - intros i. rewrite MakeVectorMapping_lookup.
    by destruct (available !! i) as [[]|].
  - apply MakeVectorMapping_size.
  - by rewrite <-map_size_empty_iff, MakeVectorMapping_size, count_available_0.
Qed.

(** X3.  When no two include edges share an origin and no two share a
    destination (the included edges are part of a tour), the constructed
    matrix is square: it has one row and one column less per include edge. *)
Theorem CostMatrix_new_square graph include exclude cm :
  NoDup (u <$> include) -> NoDup (v <$> include) ->
  CostMatrix_new graph include exclude = Ok cm ->
  square (GetNumVertices graph - length include) (cost_matrix_ cm).
Proof.
  intros Hu Hv Hnew. pose proof (CostMatrix_new_in_range _ _ _ _ Hnew) as Hin.
  destruct (CostMatrix_new_spec graph include exclude Hin)
    as (cm1 & Hnew1 & _ & Hr & Hc & _ & _ & Hsr & Hsc & _).
  rewrite Hnew in Hnew1. injection Hnew1 as <-.
  unfold square. rewrite Hr, Hc, Hsr, Hsc. unfold origins, destinations.
  rewrite !size_list_to_set by done. by rewrite !length_fmap.
Qed.

Lemma CostMatrix_new_square_witness :
  square (GetNumVertices graph4 - length [ {| u := 0; v := 1 |} ])
    (cost_matrix_ matrix4_incl).
Proof.
  apply (CostMatrix_new_square graph4 [ {| u := 0; v := 1 |} ] loops4 matrix4_incl).
  - vm_compute. repeat constructor; set_solver.
  - vm_compute. repeat constructor; set_solver.
  - vm_compute. reflexivity.
Defined.

(** X4.  The constructed matrix in closed form: its storage is the graph's
    cost table restricted to the available origins (rows) and available
    destinations (columns), both in increasing vertex order, with the cells
    of exclude edges infinite; and a vertex is mapped to [k] exactly when it
    is the [k]-th available one. *)
Theorem CostMatrix_new_closed_form graph include exclude cm :
  CostMatrix_new graph include exclude = Ok cm ->
  data_ (cost_matrix_ cm) = condensed_table graph include exclude /\
  GetNumRows (cost_matrix_ cm)
  = length (available_vertices (GetNumVertices graph) (u <$> include)) /\
  GetNumColumns (cost_matrix_ cm)
  = length (available_vertices (GetNumVertices graph) (v <$> include)) /\
  (forall i k, row_mapping_ cm !! i = Some k
     <-> available_vertices (GetNumVertices graph) (u <$> include) !! k = Some i) /\
  (forall j k, column_mapping_ cm !! j = Some k
     <-> available_vertices (GetNumVertices graph) (v <$> include) !! k = Some j).
Proof.
  intros Hnew.
  destruct (CostMatrix_new_table _ _ _ _ Hnew) as (Hr & Hc & Hd).
  destruct (CostMatrix_new_mappings _ _ _ _ Hnew) as [Hrm Hcm].
  done.
Qed.

Lemma CostMatrix_new_closed_form_witness :
  data_ (cost_matrix_ matrix4_incl)
  = condensed_table graph4 [ {| u := 0; v := 1 |} ] loops4 /\
  GetNumRows (cost_matrix_ matrix4_incl)
  = length (available_vertices (GetNumVertices graph4) (u <$> [ {| u := 0; v := 1 |} ])) /\
  GetNumColumns (cost_matrix_ matrix4_incl)
  = length (available_vertices (GetNumVertices graph4) (v <$> [ {| u := 0; v := 1 |} ])) /\
  (forall i k, row_mapping_ matrix4_incl !! i = Some k
     <-> available_vertices (GetNumVertices graph4) (u <$> [ {| u := 0; v := 1 |} ]) !! k
         = Some i) /\
  (forall j k, column_mapping_ matrix4_incl !! j = Some k
     <-> available_vertices (GetNumVertices graph4) (v <$> [ {| u := 0; v := 1 |} ]) !! k
         = Some j).
Proof.
  apply (CostMatrix_new_closed_form graph4 [ {| u := 0; v := 1 |} ] loops4 matrix4_incl).
  vm_compute. reflexivity.
Defined.

(** X5.  The constructor looks at the include edges only through their set
    of origins and their set of destinations, and at the exclude edges only
    as a set: the order of the edges, repetitions, and which origin an
    include edge pairs with which destination make no difference. *)
Theorem CostMatrix_new_depends_on_sets graph include include' exclude exclude' cm :
  origins include = origins include' ->
  destinations include = destinations include' ->
  (forall e, e ∈ exclude <-> e ∈ exclude') ->
  CostMatrix_new graph include exclude = Ok cm ->
  CostMatrix_new graph include' exclude' = Ok cm.
Proof.
  intros Ho Hd He Hnew. pose proof (CostMatrix_new_in_range _ _ _ _ Hnew) as Hin.
  apply (edges_in_range_sets _ _ _ Ho Hd) in Hin.
  destruct (CostMatrix_new_spec graph include' exclude' Hin) as (cm' & Hnew' & _).
  rewrite Hnew'. f_equal.
  destruct (CostMatrix_new_table _ _ _ _ Hnew) as (Hr & Hc & Hdata).
  destruct (CostMatrix_new_table _ _ _ _ Hnew') as (Hr' & Hc' & Hdata').
  destruct (CostMatrix_new_mappings _ _ _ _ Hnew) as [Hrm Hcm].
  destruct (CostMatrix_new_mappings _ _ _ _ Hnew') as [Hrm' Hcm'].
  rewrite (condensed_table_ext graph include include' exclude exclude') in Hdata by done.
  rewrite (available_vertices_ext _ _ _ (origins_elem _ _ Ho)) in Hr, Hrm.
  rewrite (available_vertices_ext _ _ _ (destinations_elem _ _ Hd)) in Hc, Hcm.
  destruct cm as [[nr nc d] rm cmap], cm' as [[nr' nc' d'] rm' cmap'].
  unfold GetNumRows, GetNumColumns in *. simpl in *.
  f_equal; [f_equal; congruence | |].
  - apply map_eq. intros i. apply option_eq. intros k. by rewrite Hrm, Hrm'.
  - apply map_eq. intros j. apply option_eq. intros k. by rewrite Hcm, Hcm'.
Qed.

Lemma CostMatrix_new_depends_on_sets_witness :
  CostMatrix_new graph4
    [ {| u := 2; v := 1 |}; {| u := 0; v := 3 |}; {| u := 0; v := 3 |} ]
    [ {| u := 3; v := 3 |}; {| u := 1; v := 1 |}; {| u := 2; v := 2 |};
      {| u := 0; v := 0 |}; {| u := 1; v := 1 |} ]
  = Ok (Ok_or empty_CostMatrix
          (CostMatrix_new graph4 [ {| u := 0; v := 1 |}; {| u := 2; v := 3 |} ] loops4)).
Proof.
  apply (CostMatrix_new_depends_on_sets graph4
           [ {| u := 0; v := 1 |}; {| u := 2; v := 3 |} ] _ loops4).
  - vm_compute. reflexivity.
  - vm_compute. reflexivity.
  - intros e. unfold loops4. rewrite !elem_of_cons, !elem_of_nil. tauto.
  - vm_compute. reflexivity.
Defined.

(** X6.  With no include edge the condensed matrix is the whole graph: it is
    N×N, every vertex keeps its own number as row and as column index, and
    the cell stored at [(i, j)] holds [graph(i, j)] with provenance
    [Edge{i, j}], infinite exactly when an exclude edge names it.  On a
    graph without vertices that is the empty matrix. *)
Theorem CostMatrix_new_no_include graph exclude :
  exists cm,
    CostMatrix_new graph [] exclude = Ok cm /\
    square (GetNumVertices graph) (cost_matrix_ cm) /\
    (forall i, row_mapping_ cm !! i
               = if decide (i < GetNumVertices graph) then Some i else None) /\
    (forall j, column_mapping_ cm !! j
               = if decide (j < GetNumVertices graph) then Some j else None) /\
    (forall i j, i < GetNumVertices graph -> j < GetNumVertices graph ->
       Matrix_get (cost_matrix_ cm) i j = Ok (constructed_cell graph exclude i j) /\
       CostMatrix_at cm i j = Ok (constructed_cell graph exclude i j)).
Proof.
  destruct (CostMatrix_new_spec graph [] exclude) as (cm & Hnew & Hwf & _ & _ & _ & _ & _ & _ & Hcells);
    [constructor|].
  exists cm. split; [done|].
  destruct (CostMatrix_new_table _ _ _ _ Hnew) as (Hr & Hc & _).
  destruct (CostMatrix_new_mappings _ _ _ _ Hnew) as [Hrm Hcm].
  simpl in *. rewrite available_vertices_nil in *. rewrite length_seq in *.
  assert (forall (mapping : gmap nat nat),
            (forall i k, mapping !! i = Some k <-> seq 0 (GetNumVertices graph) !! k = Some i) ->
            forall i, mapping !! i
                      = if decide (i < GetNumVertices graph) then Some i else None) as Hid.
  { intros mapping H i. apply option_eq. intros k. rewrite H, lookup_seq.
    destruct (decide _); split; intros; simplify_eq; try lia; auto with lia. }
  split; [done|]. split; [by apply Hid|]. split; [by apply Hid|].
  intros i j Hi Hj.
  assert (row_mapping_ cm !! i = Some i) as Hri by (rewrite (Hid _ Hrm); by case_decide).
  assert (column_mapping_ cm !! j = Some j) as Hcj by (rewrite (Hid _ Hcm); by case_decide).
  pose proof (Hcells i j i j Hri Hcj) as Hcell.
  assert (Matrix_get (cost_matrix_ cm) i j = Ok (constructed_cell graph exclude i j)) as Hget.
  { unfold Matrix_get. rewrite Hcell. rewrite decide_True; [done|]. lia. }
  split; [done|].
  unfold CostMatrix_at, CostMatrix_at_edge. simpl.
  by rewrite (GetCondensedRowNum_Ok _ _ _ Hri), (GetCondensedColumnNum_Ok _ _ _ Hcj).
Qed.

(** X7.  Reading a constructed matrix through a view: for every vertex [i]
    of the graph that is the origin of no include edge, [GetRow(i)] returns
    a view, and iterating over it from [begin()] to [end()] yields the cells
    of vertex [i]'s row for the available destinations in increasing order;
    for every vertex [j] that is the destination of no include edge,
    [GetColumn(j)] returns a view, and iterating over it yields the cells of
    vertex [j]'s column for the available origins in increasing order. *)
Theorem views_of_constructed graph include exclude cm :
  CostMatrix_new graph include exclude = Ok cm ->
  (forall i, i < GetNumVertices graph -> i ∉ origins include ->
     exists cv,
       GetRow cm i = Ok cv /\
       CostVector_traverse (CostVector_Size (cost_matrix_ cm) cv) (cost_matrix_ cm)
         (CostVector_begin cv) (CostVector_end (cost_matrix_ cm) cv)
       = Ok (constructed_cell graph exclude i
               <$> available_vertices (GetNumVertices graph) (v <$> include))) /\
  (forall j, j < GetNumVertices graph -> j ∉ destinations include ->
     exists cv,
       GetColumn cm j = Ok cv /\
       CostVector_traverse (CostVector_Size (cost_matrix_ cm) cv) (cost_matrix_ cm)
         (CostVector_begin cv) (CostVector_end (cost_matrix_ cm) cv)
       = Ok ((fun i => constructed_cell graph exclude i j)
               <$> available_vertices (GetNumVertices graph) (u <$> include))).
Proof.
  intros Hnew. pose proof (CostMatrix_new_in_range _ _ _ _ Hnew) as Hin.
  destruct (CostMatrix_new_spec graph include exclude Hin)
    as (cm1 & Hnew1 & Hwf & _).
  rewrite Hnew in Hnew1. injection Hnew1 as <-.
  destruct Hwf as (Hmwf & (Hr1 & _) & (Hc1 & _)).
  destruct (CostMatrix_new_mappings _ _ _ _ Hnew) as [Hrm Hcm].
  split.
  - intros i Hi1 Hi2. unfold origins in Hi2. rewrite elem_of_list_to_set in Hi2.
    assert (i ∈ available_vertices (GetNumVertices graph) (u <$> include))
      as [r Hri]%list_elem_of_lookup by (by apply elem_of_available_vertices).
    pose proof (proj2 (Hrm i r) Hri) as Hi.
    exists (CostRow r).
    unfold GetRow. rewrite (GetCondensedRowNum_Ok _ _ _ Hi). split; [done|].
    unfold CostVector_begin.
    rewrite CostVector_traverse_from; [|done|by apply (Hr1 i)|lia|lia].
    rewrite drop_0. simpl.
    by rewrite (row_cells_constructed graph include exclude cm r i).
  - intros j Hj1 Hj2. unfold destinations in Hj2. rewrite elem_of_list_to_set in Hj2.
    assert (j ∈ available_vertices (GetNumVertices graph) (v <$> include))
      as [c Hcj]%list_elem_of_lookup by (by apply elem_of_available_vertices).
    pose proof (proj2 (Hcm j c) Hcj) as Hj.
    exists (CostColumn c).
    unfold GetColumn. rewrite (GetCondensedColumnNum_Ok _ _ _ Hj). split; [done|].
    unfold CostVector_begin.
    rewrite CostVector_traverse_from; [|done|by apply (Hc1 j)|lia|lia].
    rewrite drop_0. simpl.
    by rewrite (column_cells_constructed graph include exclude cm c j).
Qed.

Lemma views_of_constructed_witness :
  (forall i, i < GetNumVertices graph4 -> i ∉ origins [ {| u := 0; v := 1 |} ] ->
     exists cv,
       GetRow matrix4_incl i = Ok cv /\
       CostVector_traverse (CostVector_Size (cost_matrix_ matrix4_incl) cv) (cost_matrix_ matrix4_incl)
         (CostVector_begin cv) (CostVector_end (cost_matrix_ matrix4_incl) cv)
       = Ok (constructed_cell graph4 loops4 i
               <$> available_vertices (GetNumVertices graph4) (v <$> [ {| u := 0; v := 1 |} ]))) /\
  (forall j, j < GetNumVertices graph4 -> j ∉ destinations [ {| u := 0; v := 1 |} ] ->
     exists cv,
       GetColumn matrix4_incl j = Ok cv /\
       CostVector_traverse (CostVector_Size (cost_matrix_ matrix4_incl) cv) (cost_matrix_ matrix4_incl)
         (CostVector_begin cv) (CostVector_end (cost_matrix_ matrix4_incl) cv)
       = Ok ((fun i => constructed_cell graph4 loops4 i j)
               <$> available_vertices (GetNumVertices graph4) (u <$> [ {| u := 0; v := 1 |} ]))).
Proof.
  apply (views_of_constructed graph4 [ {| u := 0; v := 1 |} ] loops4 matrix4_incl).
  vm_compute. reflexivity.
Defined.

(** * Further properties of ReduceMatrix *)

(** ** What a reduction leaves alone *)

Section Cellwise.
Implicit Types (m : Matrix CostMatrixInteger).

(** A relation between a cell before and after, which holds across
    [elt -= min] and composes. *)
Variable R : CostMatrixInteger -> CostMatrixInteger -> Prop.
Hypothesis R_refl : forall x, R x x.
Hypothesis R_trans : forall x y z, R x y -> R y z -> R x z.
Hypothesis R_sub : forall x mn, R x (cmi_sub x mn).

Lemma option_Forall2_trans_R (a b c : option CostMatrixInteger) :
  option_Forall2 R a b -> option_Forall2 R b c -> option_Forall2 R a c.
Proof using R_trans.
  intros Hab Hbc. destruct Hab; inversion Hbc; subst; constructor.
  by eapply R_trans.
Qed.

Lemma option_Forall2_refl_R (a : option CostMatrixInteger) : option_Forall2 R a a.
Proof using R_refl. destruct a; by constructor. Qed.

Lemma for_each_loop_related f fuel : forall m first last m',
  (forall x, R x (f x)) ->
  for_each_loop fuel m first last f = Ok m' ->
  forall i j, option_Forall2 R (cell_at m i j) (cell_at m' i j).
Proof using R_refl R_trans.
  induction fuel as [|fuel IH]; intros m first last m' Hf;
    rewrite for_each_loop_unfold; destruct (CostVector_Iterator_neq first last);
    try discriminate; try (intros [= <-] i j; apply option_Forall2_refl_R).
  intros (m1 & Hupd & Hrest)%bind_Ok_inv i j.
  eapply option_Forall2_trans_R; [|exact (IH _ _ _ _ Hf Hrest i j)].
  apply Matrix_update_Ok_inv in Hupd as (_ & _ & ->).
  rewrite cell_at_imap.
  destruct (cell_at m i j) as [x|]; simpl; constructor. by case_decide.
Qed.

Lemma reduce_row_related r m d m' d' :
  reduce_row r (m, d) = Ok (m', d') ->
  forall i j, option_Forall2 R (cell_at m i j) (cell_at m' i j).
Proof using R_refl R_trans R_sub.
  unfold reduce_row. intros (min_it & _ & H)%bind_Ok_inv.
  destruct (CostVector_Iterator_eq _ _); [done|].
  apply bind_Ok_inv in H as (mn & _ & H). destruct (IsInfinite mn); [done|].
  apply bind_Ok_inv in H as (m1 & Hfe & [= <- _]).
  eapply for_each_loop_related; [|exact Hfe]. intros x. apply R_sub.
Qed.

Lemma reduce_column_related c m d m' d' :
  reduce_column c (m, d) = Ok (m', d') ->
  forall i j, option_Forall2 R (cell_at m i j) (cell_at m' i j).
Proof using R_refl R_trans R_sub.
  unfold reduce_column. intros (min_it & _ & H)%bind_Ok_inv.
  apply bind_Ok_inv in H as (mn & _ & H). destruct (IsInfinite mn); [done|].
  apply bind_Ok_inv in H as (m1 & Hfe & [= <- _]).
  eapply for_each_loop_related; [|exact Hfe]. intros x. apply R_sub.
Qed.

Lemma for_range_from_related body n : forall k (st st' : Matrix CostMatrixInteger * Z),
  (forall k m d m' d', body k (m, d) = Ok (m', d') ->
     forall i j, option_Forall2 R (cell_at m i j) (cell_at m' i j)) ->
  for_range_from k n body st = Ok st' ->
  forall i j, option_Forall2 R (cell_at (fst st) i j) (cell_at (fst st') i j).
Proof using R_refl R_trans.
  induction n as [|n IH]; intros k st st' Hbody; simpl.
  - intros [= <-] i j. apply option_Forall2_refl_R.
  - intros ([m1 d1] & Hb & Hrest)%bind_Ok_inv i j.
    eapply option_Forall2_trans_R; [|exact (IH _ _ _ Hbody Hrest i j)].
    destruct st as [m d]. by eapply Hbody.
Qed.

Lemma ReduceMatrix_related Size cm decremented cm' :
  ReduceMatrix Size cm = Ok (decremented, cm') ->
  forall i j, option_Forall2 R (cell_at (cost_matrix_ cm) i j)
                (cell_at (cost_matrix_ cm') i j).
Proof using R_refl R_trans R_sub.
  unfold ReduceMatrix, for_range. intros (st1 & H1 & H)%bind_Ok_inv.
  apply bind_Ok_inv in H as (st2 & H2 & [= _ <-]). simpl. intros i j.
  eapply option_Forall2_trans_R.
  - exact (for_range_from_related _ _ _ _ _ reduce_row_related H1 i j).
  - exact (for_range_from_related _ _ _ _ _ reduce_column_related H2 i j).
Qed.

Lemma ReduceMatrix_times_related Size n : forall cm cm',
  ReduceMatrix_times Size n cm = Ok cm' ->
  forall i j, option_Forall2 R (cell_at (cost_matrix_ cm) i j)
                (cell_at (cost_matrix_ cm') i j).
Proof using R_refl R_trans R_sub.
  induction n as [|n IH]; intros cm cm'; simpl.
  - intros [= <-] i j. apply option_Forall2_refl_R.
  - intros ([d cm1] & H1 & Hrest)%bind_Ok_inv i j.
    eapply option_Forall2_trans_R; [|exact (IH _ _ Hrest i j)].
    by eapply ReduceMatrix_related.
Qed.

End Cellwise.

Lemma same_but_value_refl x : same_but_value x x.
Proof. by repeat split. Qed.

Lemma same_but_value_trans x y z :
  same_but_value x y -> same_but_value y z -> same_but_value x z.
Proof.
  intros (He1 & Hi1 & Hx1) (He2 & Hi2 & Hx2). repeat split; [congruence..|].
  intros Hx. rewrite Hx2 by congruence. by apply Hx1.
Qed.

Lemma same_but_value_sub x mn : same_but_value x (cmi_sub x mn).
Proof.
  unfold cmi_sub. destruct (infinite x) eqn:Hx; repeat split; simpl; congruence.
Qed.

Lemma ReduceMatrix_times_cells Size n cm cm' :
  ReduceMatrix_times Size n cm = Ok cm' ->
  forall i j, option_Forall2 same_but_value (cell_at (cost_matrix_ cm) i j)
                (cell_at (cost_matrix_ cm') i j).
Proof.
  apply ReduceMatrix_times_related.
  - apply same_but_value_refl.
  - apply same_but_value_trans.
  - apply same_but_value_sub.
Qed.

(** X8.  Any number of calls of [ReduceMatrix] change nothing but the values
    of finite cells: the two mappings and the dimensions stay, every cell
    keeps its provenance edge and its infinite flag, and an infinite cell is
    left exactly as it was. *)
Theorem ReduceMatrix_changes_values_only Size n cm cm' :
  ReduceMatrix_times Size n cm = Ok cm' ->
  row_mapping_ cm' = row_mapping_ cm /\
  column_mapping_ cm' = column_mapping_ cm /\
  GetNumRows (cost_matrix_ cm') = GetNumRows (cost_matrix_ cm) /\
  GetNumColumns (cost_matrix_ cm') = GetNumColumns (cost_matrix_ cm) /\
  (forall i j, option_Forall2 same_but_value
                 (cell_at (cost_matrix_ cm) i j) (cell_at (cost_matrix_ cm') i j)).
Proof.
  intros Hred. pose proof (ReduceMatrix_times_cells _ _ _ _ Hred) as Hcells.
  apply ReduceMatrix_times_shape in Hred as [g ->]. done.
Qed.

Lemma ReduceMatrix_changes_values_only_witness :
  let cm' := Ok_or matrix4 (ReduceMatrix_times 4 2 matrix4) in
  row_mapping_ cm' = row_mapping_ matrix4 /\
  column_mapping_ cm' = column_mapping_ matrix4 /\
  GetNumRows (cost_matrix_ cm') = GetNumRows (cost_matrix_ matrix4) /\
  GetNumColumns (cost_matrix_ cm') = GetNumColumns (cost_matrix_ matrix4) /\
  (forall i j, option_Forall2 same_but_value
                 (cell_at (cost_matrix_ matrix4) i j) (cell_at (cost_matrix_ cm') i j)).
Proof.
  apply (ReduceMatrix_changes_values_only 4 2 matrix4). vm_compute. reflexivity.
Defined.

(** X9.  Provenance round trip: in a constructed matrix, also after any
    number of reductions, the mappings still condense onto the storage, and
    the edge carried by the cell stored at [(r, c)] is the edge that
    [operator()(const Edge&)] resolves to that very cell. *)
Theorem provenance_round_trip graph include exclude Size n cm cm' :
  CostMatrix_new graph include exclude = Ok cm ->
  ReduceMatrix_times Size n cm = Ok cm' ->
  CostMatrix_wf cm' /\
  (forall r c x, cell_at (cost_matrix_ cm') r c = Some x ->
     row_mapping_ cm' !! u (edge x) = Some r /\
     column_mapping_ cm' !! v (edge x) = Some c /\
     CostMatrix_at_edge cm' (edge x) = Ok x).
Proof.
  intros Hnew Hred. pose proof (CostMatrix_new_in_range _ _ _ _ Hnew) as Hin.
  destruct (CostMatrix_new_spec graph include exclude Hin)
    as (cm1 & Hnew1 & Hwf & _ & _ & _ & _ & _ & _ & Hcells).
  rewrite Hnew in Hnew1. injection Hnew1 as <-.
  pose proof (ReduceMatrix_times_cells _ _ _ _ Hred) as Hrel.
  apply ReduceMatrix_times_shape in Hred as [g ->].
  split; [by apply with_matrix_imap_wf|].
  simpl. intros r c x Hx. specialize (Hrel r c). simpl in Hrel. rewrite Hx in Hrel.
  inversion Hrel as [x0 ? (He & _) Hx0 |]; subst.
  symmetry in Hx0. pose proof Hwf as (Hmwf & (_ & Hr2 & _) & (_ & Hc2 & _)).
  destruct (cell_at_Some _ _ _ _ Hmwf Hx0) as [Hr Hc].
  destruct (Hr2 r Hr) as [i Hi]. destruct (Hc2 c Hc) as [j Hj].
  rewrite (Hcells i j r c Hi Hj) in Hx0. injection Hx0 as <-.
  assert (edge x = {| u := i; v := j |}) as Hedge.
  { rewrite He. unfold constructed_cell. by case_bool_decide. }
  rewrite Hedge. simpl. split; [done|]. split; [done|].
  unfold CostMatrix_at_edge. simpl.
  rewrite (GetCondensedRowNum_Ok _ i r) by done.
  rewrite (GetCondensedColumnNum_Ok _ j c) by done. simpl.
  unfold Matrix_get. rewrite Hx. by rewrite decide_True.
Qed.

Lemma provenance_round_trip_witness :
  let cm' := Ok_or matrix4_incl (ReduceMatrix_times 3 1 matrix4_incl) in
  CostMatrix_wf cm' /\
  (forall r c x, cell_at (cost_matrix_ cm') r c = Some x ->
     row_mapping_ cm' !! u (edge x) = Some r /\
     column_mapping_ cm' !! v (edge x) = Some c /\
     CostMatrix_at_edge cm' (edge x) = Ok x).
Proof.
  apply (provenance_round_trip graph4 [ {| u := 0; v := 1 |} ] loops4 3 1 matrix4_incl);
    vm_compute; reflexivity.
Defined.

(** ** When ReduceMatrix returns, and what it does to the signs *)

Section Returns.
Implicit Types (m : Matrix CostMatrixInteger) (cm : CostMatrix).

Lemma columns_have_finite_upto_imap g k m :
  Matrix_wf m -> k <= num_columns_ m ->
  (forall i j x, infinite (g i j x) = infinite x) ->
  columns_have_finite_upto k (Matrix_imap g m) = columns_have_finite_upto k m.
Proof.
  intros Hwf Hk Hg. unfold columns_have_finite_upto.
  apply eq_true_iff_eq. rewrite !forallb_forall.
  assert (forall j, In j (seq 0 k) ->
            has_finite (column_cells (Matrix_imap g m) j) = has_finite (column_cells m j))
    as Heq.
  { intros j [_ Hj]%list_elem_of_In%elem_of_seq.
    rewrite column_cells_imap by (done || lia).
    apply has_finite_imap. intros. apply Hg. }
  split; intros H j Hj; [rewrite <- Heq by done | rewrite Heq by done]; by apply H.
Qed.

Lemma columns_have_finite_upto_rows_reduced_upto k m :
  Matrix_wf m -> k <= num_columns_ m ->
  columns_have_finite_upto k (rows_reduced_upto k m) = columns_have_finite_upto k m.
Proof.
  intros Hwf Hk. apply columns_have_finite_upto_imap; [done..|].
  intros i j x. case_bool_decide; [apply cell_minus_infinite|done].
Qed.

Lemma sumZ_nonneg (l : list Z) : Forall (fun z => (0 <= z)%Z) l -> (0 <= sumZ l)%Z.
Proof.
  induction 1 as [|z l Hz _ IH]; [done|]. rewrite sumZ_cons. lia.
Qed.

Lemma minimum_nonneg l :
  has_finite l = true ->
  (forall x, x ∈ l -> infinite x = false -> (0 <= value x)%Z) ->
  (0 <= minimum l)%Z.
Proof.
  intros Hfin Hnn. destruct (minimum_spec l Hfin) as [(y & Hy & Hyf & <-) _].
  by apply Hnn.
Qed.

Lemma forallb_seq_lookup (f : nat -> bool) k i :
  forallb f (seq 0 k) = true -> i < k -> f i = true.
Proof.
  rewrite forallb_forall. intros H Hi. apply H, list_elem_of_In, elem_of_seq. lia.
Qed.

Lemma row_minimum_nonneg k m i :
  nonneg m -> rows_have_finite_upto k m = true -> i < k ->
  (0 <= minimum (row_cells m i))%Z.
Proof.
  intros Hnn Hfin Hi. apply minimum_nonneg.
  - by apply (forallb_seq_lookup _ k i) in Hfin.
  - intros x Hx. by apply (nonneg_row m i).
Qed.

Lemma column_minimum_nonneg k m j :
  Matrix_wf m -> k <= num_columns_ m ->
  nonneg m -> columns_have_finite_upto k m = true -> j < k ->
  (0 <= minimum (column_cells m j))%Z.
Proof.
  intros Hwf Hk Hnn Hfin Hj. apply minimum_nonneg.
  - by apply (forallb_seq_lookup _ k j) in Hfin.
  - intros x Hx. apply (nonneg_column m j); [done|lia|done..].
Qed.

Lemma nonneg_data m :
  forallb (forallb (fun x => infinite x || (0 <=? value x)%Z)) (data_ m) = true ->
  nonneg m.
Proof.
  rewrite forallb_forall. intros H i j x Hx Hfin. unfold cell_at in Hx.
  destruct (data_ m !! i) as [row|] eqn:Hrow; simpl in Hx; [|done].
  specialize (H row). rewrite forallb_forall in H.
  specialize (H ltac:(by eapply list_elem_of_In, list_elem_of_lookup_2) x
                ltac:(by eapply list_elem_of_In, list_elem_of_lookup_2)).
  rewrite Hfin in H. simpl in H. lia.
Qed.

End Returns.

(** X10.  [ReduceMatrix] returns exactly when [Size()] exceeds neither the
    number of rows nor the number of columns and each of the first [Size()]
    rows and of the first [Size()] columns has a finite cell.  When
    [Size()] exceeds neither dimension the only way to fail is a failed
    assertion: nothing outside the storage is touched, although the column
    loop does not check [min_it] against [end()]. *)
Theorem ReduceMatrix_returns Size cm :
  Matrix_wf (cost_matrix_ cm) ->
  (is_Ok (ReduceMatrix Size cm) = true <->
     Size <= GetNumRows (cost_matrix_ cm) /\ Size <= GetNumColumns (cost_matrix_ cm) /\
     rows_have_finite_upto Size (cost_matrix_ cm) = true /\
     columns_have_finite_upto Size (cost_matrix_ cm) = true) /\
  (Size <= GetNumRows (cost_matrix_ cm) -> Size <= GetNumColumns (cost_matrix_ cm) ->
   is_Ok (ReduceMatrix Size cm) = false -> ReduceMatrix Size cm = Err AssertionFailure).
Proof.
  intros Hwf. unfold GetNumRows, GetNumColumns. split.
  - split.
    + destruct (ReduceMatrix Size cm) as [[d cm']|] eqn:Hred; [intros _|done].
      destruct (ReduceMatrix_Ok_inv _ _ _ _ Hwf Hred) as (HR & HC & Hrows & Hcols & _).
      by rewrite columns_have_finite_upto_rows_reduced_upto in Hcols.
    + intros (HR & HC & Hrows & Hcols).
      rewrite ReduceMatrix_eq_upto, Hrows by done.
      by rewrite columns_have_finite_upto_rows_reduced_upto, Hcols.
  - intros HR HC. rewrite ReduceMatrix_eq_upto by done. by destruct (_ && _).
Qed.

Lemma ReduceMatrix_returns_witness :
  (is_Ok (ReduceMatrix 1 matrix_2x1) = true <->
     1 <= GetNumRows (cost_matrix_ matrix_2x1) /\
     1 <= GetNumColumns (cost_matrix_ matrix_2x1) /\
     rows_have_finite_upto 1 (cost_matrix_ matrix_2x1) = true /\
     columns_have_finite_upto 1 (cost_matrix_ matrix_2x1) = true) /\
  (1 <= GetNumRows (cost_matrix_ matrix_2x1) ->
   1 <= GetNumColumns (cost_matrix_ matrix_2x1) ->
   is_Ok (ReduceMatrix 1 matrix_2x1) = false ->
   ReduceMatrix 1 matrix_2x1 = Err AssertionFailure).
Proof.
  apply (ReduceMatrix_returns 1 matrix_2x1). vm_compute. repeat constructor.
Defined.

(** X11.  On a matrix without a negative finite cost, a reduction that
    returns has taken off a non-negative amount, the sum of the minima it
    subtracted; it returns that amount as an [int], so the returned total is
    not negative whenever the amount is representable as an [int]; it has
    increased no cell, and has left no finite cell negative. *)
Theorem ReduceMatrix_nonneg Size cm decremented cm' :
  Matrix_wf (cost_matrix_ cm) -> nonneg (cost_matrix_ cm) ->
  ReduceMatrix Size cm = Ok (decremented, cm') ->
  decremented = int_wrap (reduction_total_upto Size (cost_matrix_ cm)) /\
  (0 <= reduction_total_upto Size (cost_matrix_ cm))%Z /\
  (fits_int (reduction_total_upto Size (cost_matrix_ cm)) -> (0 <= decremented)%Z) /\
  nonneg (cost_matrix_ cm') /\
  (forall i j x x',
     cell_at (cost_matrix_ cm) i j = Some x -> cell_at (cost_matrix_ cm') i j = Some x' ->
     (value x' <= value x)%Z).
Proof.
  intros Hwf Hnn Hred.
  destruct (ReduceMatrix_Ok_inv _ _ _ _ Hwf Hred) as (HR & HC & Hrows & Hcols & ->).
  rewrite ReduceMatrix_eq_upto, Hrows, Hcols in Hred by done. simpl in Hred.
  injection Hred as <-.
  set (m := cost_matrix_ cm) in *. set (m1 := rows_reduced_upto Size m) in *.
  assert (Matrix_wf m1) as Hwf1 by (by apply Matrix_imap_wf).
  assert (nonneg m1) as Hnn1 by (apply nonneg_rows_reduced_upto; [by left|done]).
  assert (forall i, i < Size -> (0 <= minimum (row_cells m i))%Z) as Hrmin.
  { intros i Hi. by apply (row_minimum_nonneg Size). }
  assert (forall j, j < Size -> (0 <= minimum (column_cells m1 j))%Z) as Hcmin.
  { intros j Hj. by apply (column_minimum_nonneg Size). }
  assert (0 <= reduction_total_upto Size m)%Z as Htotal.
  { assert (forall (f : nat -> Z), (forall i, i < Size -> (0 <= f i)%Z) ->
              (0 <= sumZ (f <$> seq 0 Size))%Z) as Hsum.
    { intros f Hf. apply sumZ_nonneg, Forall_fmap, Forall_forall.
      intros i [_ Hi]%elem_of_seq. apply Hf. lia. }
    unfold reduction_total_upto. fold m1.
    pose proof (Hsum _ Hrmin). pose proof (Hsum _ Hcmin). lia. }
  split; [done|]. split; [done|]. split; [|split].
  - intros Hfits. by rewrite int_wrap_fits.
  - simpl. by apply nonneg_columns_reduced_upto.
  - simpl. intros i j x x' Hx. unfold columns_reduced_upto. rewrite cell_at_imap.
    fold m1. unfold m1 at 2. unfold rows_reduced_upto. rewrite cell_at_imap, Hx. simpl.
    intros [= <-]. destruct (infinite x) eqn:Hinf.
    + assert (forall d, cell_minus d x = x) as Hid
        by (intros d; unfold cell_minus; by rewrite Hinf).
      repeat case_bool_decide; rewrite ?Hid; lia.
    + repeat case_bool_decide;
        rewrite ?cell_minus_value by (by rewrite ?cell_minus_infinite);
        try pose proof (Hrmin i ltac:(done)); try pose proof (Hcmin j ltac:(done)); lia.
Qed.

Lemma ReduceMatrix_nonneg_witness :
  let r := Ok_or (0%Z, matrix4) (ReduceMatrix 4 matrix4) in
  fst r = int_wrap (reduction_total_upto 4 (cost_matrix_ matrix4)) /\
  (0 <= reduction_total_upto 4 (cost_matrix_ matrix4))%Z /\
  (fits_int (reduction_total_upto 4 (cost_matrix_ matrix4)) -> (0 <= fst r)%Z) /\
  nonneg (cost_matrix_ (snd r)) /\
  (forall i j x x',
     cell_at (cost_matrix_ matrix4) i j = Some x ->
     cell_at (cost_matrix_ (snd r)) i j = Some x' ->
     (value x' <= value x)%Z).
Proof.
  apply (ReduceMatrix_nonneg 4 matrix4).
  - vm_compute. repeat constructor.
  - apply nonneg_data. vm_compute. reflexivity.
  - vm_compute. reflexivity.
Defined.

(** X12.  When [Size()] is the number of rows, a reduction that returns
    leaves no finite cell negative, whatever the signs of the costs were
    before. *)
Theorem ReduceMatrix_clears_negatives Size cm decremented cm' :
  Matrix_wf (cost_matrix_ cm) -> GetNumRows (cost_matrix_ cm) = Size ->
  ReduceMatrix Size cm = Ok (decremented, cm') ->
  nonneg (cost_matrix_ cm').
Proof.
  intros Hwf Hsize Hred.
  destruct (ReduceMatrix_Ok_inv _ _ _ _ Hwf Hred) as (_ & _ & _ & _ & ->). simpl.
  apply nonneg_columns_reduced_upto; [by apply Matrix_imap_wf|].
  apply nonneg_rows_reduced_upto; [|done]. right. unfold GetNumRows in Hsize. lia.
Qed.

Lemma ReduceMatrix_clears_negatives_witness :
  nonneg (cost_matrix_
            (snd (Ok_or (0%Z, empty_CostMatrix)
                    (ReduceMatrix 2
                       (Ok_or empty_CostMatrix
                          (CostMatrix_new (graph_of [[0; -3]; [-8; 0]]%Z) []
                             [ {| u := 0; v := 0 |}; {| u := 1; v := 1 |} ])))))).
Proof.
  apply (ReduceMatrix_clears_negatives 2
           (Ok_or empty_CostMatrix
              (CostMatrix_new (graph_of [[0; -3]; [-8; 0]]%Z) []
                 [ {| u := 0; v := 0 |}; {| u := 1; v := 1 |} ])) (-11)%Z).
  - vm_compute. repeat constructor.
  - vm_compute. reflexivity.
  - vm_compute. reflexivity.
Defined.

(** ** The returned total as a lower bound *)

Section Bound.
Implicit Types (m : Matrix CostMatrixInteger) (sigma : list nat).

Lemma sumZ_Permutation (l l' : list Z) : l ≡ₚ l' -> sumZ l = sumZ l'.
Proof.
  induction 1 as [|x l l' _ IH|x y l|l l' l'' _ IH1 _ IH2].
  - done.
  - rewrite !sumZ_cons. lia.
  - rewrite !sumZ_cons. lia.
  - congruence.
Qed.

Lemma sumZ_imap_split (f g : nat -> nat -> Z) (r c : nat -> Z) sigma :
  (forall i j, sigma !! i = Some j -> f i j = (g i j + r i + c j)%Z) ->
  sumZ (imap f sigma)
  = (sumZ (imap g sigma) + sumZ (r <$> seq 0 (length sigma)) + sumZ (c <$> sigma))%Z.
Proof.
  revert f g r. induction sigma as [|j sigma IH]; intros f g r H; [done|].
  rewrite !imap_cons. cbn [length seq]. rewrite !fmap_cons, !sumZ_cons.
  rewrite (IH (f ∘ S) (g ∘ S) (r ∘ S)) by (intros i j' Hij; apply (H (S i) j' Hij)).
  rewrite (H 0 j) by done. rewrite <-fmap_S_seq, <-list_fmap_compose. lia.
Qed.

Lemma sumZ_imap_nonneg (f : nat -> nat -> Z) sigma :
  (forall i j, sigma !! i = Some j -> (0 <= f i j)%Z) -> (0 <= sumZ (imap f sigma))%Z.
Proof.
  revert f. induction sigma as [|j sigma IH]; intros f H; [done|].
  rewrite imap_cons, sumZ_cons.
  pose proof (H 0 j ltac:(done)).
  pose proof (IH (f ∘ S) ltac:(intros i j' Hij; apply (H (S i) j' Hij))). lia.
Qed.

Lemma assignment_cost_imap m sigma :
  assignment_cost m sigma
  = sumZ (imap (fun i j => from_option value 0%Z (cell_at m i j)) sigma).
Proof. unfold assignment_cost, assignment_cells. by rewrite fmap_imap. Qed.

Lemma assignment_finite_lookup m sigma :
  assignment_finite m sigma = true
  <-> forall i j, sigma !! i = Some j ->
        exists x, cell_at m i j = Some x /\ infinite x = false.
Proof.
  unfold assignment_finite, assignment_cells. rewrite forallb_forall. split.
  - intros H i j Hij.
    assert (In (cell_at m i j) (imap (fun i j => cell_at m i j) sigma)) as Hin.
    { apply list_elem_of_In, list_elem_of_lookup. exists i.
      by rewrite list_lookup_imap, Hij. }
    apply H in Hin. destruct (cell_at m i j) as [x|]; [|done].
    exists x. split; [done|]. by apply negb_true_iff.
  - intros H o [i Hi]%list_elem_of_In%list_elem_of_lookup.
    rewrite list_lookup_imap in Hi.
    destruct (sigma !! i) as [j|] eqn:Hij; simpl in Hi; [|done]. injection Hi as <-.
    destruct (H i j Hij) as (x & -> & ->). done.
Qed.

End Bound.

(** X13.  The returned total is a lower bound.  On a square matrix whose
    row and column minima add up to a value representable as an [int], take
    any assignment of one column to each row ([sigma] lists every column
    once) whose cells are all finite: its cost in the matrix before the call
    is the returned total plus its cost in the matrix as the call left it,
    and the latter is not negative; so no such assignment costs less than
    the total returned. *)
Theorem ReduceMatrix_lower_bound Size cm decremented cm' sigma :
  Matrix_wf (cost_matrix_ cm) -> square Size (cost_matrix_ cm) ->
  ReduceMatrix Size cm = Ok (decremented, cm') ->
  fits_int (reduction_total (cost_matrix_ cm)) ->
  sigma ≡ₚ seq 0 Size ->
  assignment_finite (cost_matrix_ cm) sigma = true ->
  assignment_cost (cost_matrix_ cm) sigma
  = (decremented + assignment_cost (cost_matrix_ cm') sigma)%Z /\
  (0 <= assignment_cost (cost_matrix_ cm') sigma)%Z /\
  (decremented <= assignment_cost (cost_matrix_ cm) sigma)%Z.
Proof.
  intros Hwf Hsq Hred Hfits Hperm Hfin.
  rewrite ReduceMatrix_eq in Hred by done.
  destruct (reducible (cost_matrix_ cm)); [|done]. injection Hred as <- <-. simpl.
  rewrite (int_wrap_fits _ Hfits). clear Hfits.
  set (m := cost_matrix_ cm) in *.
  rewrite assignment_finite_lookup in Hfin.
  assert (length sigma = Size) as Hlen
    by (by rewrite (Permutation_length Hperm), length_seq).
  destruct Hsq as [Hrows Hcols].
  assert (assignment_cost m sigma
          = (reduction_total m + assignment_cost (reduced m) sigma)%Z) as Heq.
  { rewrite !assignment_cost_imap.
    rewrite (sumZ_imap_split _
               (fun i j => from_option value 0%Z (cell_at (reduced m) i j))
               (fun i => minimum (row_cells m i))
               (fun j => minimum (column_cells (rows_reduced m) j))).
    - unfold reduction_total, row_minima, column_minima.
      rewrite Hlen. change (GetNumColumns (rows_reduced m)) with (GetNumColumns m).
      rewrite Hrows, Hcols.
      rewrite (sumZ_Permutation
                 ((fun j => minimum (column_cells (rows_reduced m) j)) <$> sigma)
                 ((fun j => minimum (column_cells (rows_reduced m) j)) <$> seq 0 Size))
        by (by apply fmap_Permutation).
      lia.
    - intros i j Hij. destruct (Hfin i j Hij) as (x & Hx & Hxf).
      rewrite cell_at_reduced, Hx. simpl.
      rewrite !cell_minus_value by (by rewrite ?cell_minus_infinite). lia. }
  assert (0 <= assignment_cost (reduced m) sigma)%Z as Hpos.
  { rewrite assignment_cost_imap. apply sumZ_imap_nonneg. intros i j Hij.
    destruct (Hfin i j Hij) as (x & Hx & Hxf).
    destruct (cell_at (reduced m) i j) as [x'|] eqn:Hx'; [|done]. simpl.
    apply (nonneg_reduced m Hwf i j x' Hx').
    rewrite cell_at_reduced, Hx in Hx'. injection Hx' as <-.
    by rewrite !cell_minus_infinite. }
  split; [done|]. split; [done|]. lia.
Qed.

Lemma ReduceMatrix_lower_bound_witness :
  let r := Ok_or (0%Z, matrix4) (ReduceMatrix 4 matrix4) in
  let sigma := [1; 0; 3; 2] in
  assignment_cost (cost_matrix_ matrix4) sigma
  = (fst r + assignment_cost (cost_matrix_ (snd r)) sigma)%Z /\
  (0 <= assignment_cost (cost_matrix_ (snd r)) sigma)%Z /\
  (fst r <= assignment_cost (cost_matrix_ matrix4) sigma)%Z.
Proof.
  apply (ReduceMatrix_lower_bound 4 matrix4).
  - vm_compute. repeat constructor.
  - vm_compute. repeat constructor.
  - vm_compute. reflexivity.
  - split; by vm_compute.
  - change (seq 0 4) with [0; 1; 2; 3].
    etrans; [apply Permutation_swap|]. do 2 apply Permutation_skip.
    apply Permutation_swap.
  - vm_compute. reflexivity.
Defined.

(** * Further properties of cell access and of the iterators *)

Section Access.
Implicit Types (m : Matrix CostMatrixInteger) (cm : CostMatrix).

Lemma Matrix_get_imap g m r c :
  Matrix_get (Matrix_imap g m) r c = g r c <$> Matrix_get m r c.
Proof.
  unfold Matrix_get. rewrite cell_at_imap. simpl.
  unfold GetNumRows, GetNumColumns. simpl.
  destruct (decide _); [|done]. by destruct (cell_at m r c).
Qed.

Lemma Matrix_update_Err m r c f e :
  Matrix_get m r c = Err e -> Matrix_update m r c f = Err e.
Proof.
  unfold Matrix_get, Matrix_update. destruct (decide _); [|by intros [= <-]].
  destruct (cell_at m r c); [done|by intros [= <-]].
Qed.

Lemma GetCondensedRowNum_Ok_inv cm i r :
  GetCondensedRowNum cm i = Ok r -> row_mapping_ cm !! i = Some r.
Proof.
  unfold GetCondensedRowNum. destruct (negb _); [done|].
  destruct (row_mapping_ cm !! i); congruence.
Qed.

Lemma GetCondensedColumnNum_Ok_inv cm j c :
  GetCondensedColumnNum cm j = Ok c -> column_mapping_ cm !! j = Some c.
Proof.
  unfold GetCondensedColumnNum. destruct (negb _); [done|].
  destruct (column_mapping_ cm !! j); congruence.
Qed.

Lemma CostMatrix_at_with_matrix cm m' i j :
  CostMatrix_at (with_matrix cm m') i j
  = (r ← GetCondensedRowNum cm i; c ← GetCondensedColumnNum cm j; Matrix_get m' r c).
Proof. reflexivity. Qed.

Lemma matrix4_CostMatrix_wf : CostMatrix_wf matrix4.
Proof.
  destruct (CostMatrix_new_spec graph4 [] loops4) as (cm & Hnew & Hwf & _);
    [constructor|].
  unfold matrix4. rewrite Hnew. exact Hwf.
Qed.

Lemma lookup_concat_uniform {A} C (d : list (list A)) : forall k,
  0 < C -> Forall (fun row => length row = C) d ->
  concat d !! k = d !! (k / C) ≫= (fun row => row !! (k `mod` C)).
Proof.
  induction d as [|row d IH]; intros k HC Hd.
  - done.
  - apply Forall_cons in Hd as [Hrow Hd]. simpl.
    destruct (decide (k < C)) as [Hk|Hk].
    + rewrite lookup_app_l by lia.
      by rewrite Nat.div_small, Nat.mod_small by done.
    + rewrite lookup_app_r by lia. rewrite Hrow, IH by done.
      assert (k `div` C = S ((k - C) `div` C)) as ->.
      { replace k with ((k - C) + 1 * C) at 1 by lia. rewrite Nat.div_add by lia. lia. }
      assert (k `mod` C = (k - C) `mod` C) as ->.
      { replace k with ((k - C) + 1 * C) at 1 by lia. by rewrite Nat.Div0.mod_add. }
      done.
Qed.

Lemma length_concat_uniform {A} C (d : list (list A)) :
  Forall (fun row => length row = C) d -> length (concat d) = length d * C.
Proof.
  induction 1 as [|row d Hrow _ IH]; [done|]. simpl.
  rewrite length_app, IH, Hrow. lia.
Qed.

Lemma CostMatrix_traverse_cells_unfold fuel m it last :
  CostMatrix_traverse_cells fuel m it last
  = if CostMatrix_Iterator_neq it last then
      match fuel with
      | 0 => Err OutOfFuel
      | S fuel' =>
          x ← CostMatrix_Iterator_deref m it;
          it' ← CostMatrix_Iterator_incr m it;
          rest ← CostMatrix_traverse_cells fuel' m it' last;
          Ok (x :: rest)
      end
    else Ok [].
Proof. by destruct fuel. Qed.

Lemma CostMatrix_traverse_cells_from m fuel : forall k,
  Matrix_wf m -> 0 < GetNumColumns m ->
  k <= GetNumRows m * GetNumColumns m -> GetNumRows m * GetNumColumns m - k <= fuel ->
  CostMatrix_traverse_cells fuel m (position (GetNumColumns m) k) (CostMatrix_end m)
  = Ok (drop k (concat (data_ m))).
Proof.
  induction fuel as [|fuel IH]; intros k Hwf HC Hk Hfuel;
    rewrite CostMatrix_traverse_cells_unfold; unfold CostMatrix_Iterator_neq;
    rewrite position_is_end by done.
  - rewrite bool_decide_eq_true_2 by lia. simpl.
    rewrite drop_ge; [done|]. destruct Hwf as [Hlen Hrows].
    rewrite (length_concat_uniform (num_columns_ m)) by done.
    unfold GetNumRows, GetNumColumns in *. lia.
  - destruct (decide (k = GetNumRows m * GetNumColumns m)) as [->|Hne].
    + rewrite bool_decide_eq_true_2 by done. simpl.
      rewrite drop_ge; [done|]. destruct Hwf as [Hlen Hrows].
      rewrite (length_concat_uniform (num_columns_ m)) by done.
      unfold GetNumRows, GetNumColumns in *. lia.
    + rewrite bool_decide_eq_false_2 by done. simpl.
      destruct (position_range (GetNumRows m) (GetNumColumns m) k) as [Hr Hc]; [done|lia|].
      unfold CostMatrix_Iterator_deref. simpl.
      destruct (Matrix_get_Ok m _ _ Hwf Hr Hc) as [x [Hx ->]]. simpl.
      unfold CostMatrix_Iterator_incr. rewrite MoveToNextCell_position by (done || lia).
      simpl. rewrite IH by (done || lia). simpl.
      f_equal. symmetry. apply drop_S.
      rewrite (lookup_concat_uniform (GetNumColumns m)); [done|done|].
      by destruct Hwf.
Qed.

End Access.

(** X14.  Writing through the mutable [operator()(row, column)] and reading
    back: on a well-formed matrix, a write to an available pair [(i, j)]
    makes a later read of [(i, j)] return the written cell, leaves what every
    other pair reads (or throws) unchanged, and leaves both mappings alone;
    and a write to a pair whose read fails fails in the same way, so nothing
    is written through an unavailable index. *)
Theorem CostMatrix_update_read_back cm :
  CostMatrix_wf cm ->
  (forall i j f x,
     CostMatrix_at cm i j = Ok x ->
     exists cm',
       CostMatrix_update cm i j f = Ok cm' /\
       CostMatrix_at cm' i j = Ok (f x) /\
       (forall i' j', (i', j') <> (i, j) ->
          CostMatrix_at cm' i' j' = CostMatrix_at cm i' j') /\
       row_mapping_ cm' = row_mapping_ cm /\
       column_mapping_ cm' = column_mapping_ cm) /\
  (forall i j f e,
     CostMatrix_at cm i j = Err e -> CostMatrix_update cm i j f = Err e).
Proof.
  intros Hwf. split.
  - intros i j f x Hat. pose proof Hat as Hat0.
    unfold CostMatrix_at, CostMatrix_at_edge in Hat. simpl in Hat.
    apply bind_Ok_inv in Hat as (r & Hr & Hat).
    apply bind_Ok_inv in Hat as (c & Hc & Hget).
    pose proof (GetCondensedRowNum_Ok_inv _ _ _ Hr) as Hri.
    pose proof (GetCondensedColumnNum_Ok_inv _ _ _ Hc) as Hcj.
    rewrite (CostMatrix_update_Ok cm i j r c f Hwf Hri Hcj).
    eexists. split; [reflexivity|]. split; [|split; [|done]].
    + rewrite CostMatrix_at_with_matrix, Hr, Hc. simpl.
      rewrite Matrix_get_imap, Hget. simpl. by rewrite decide_True.
    + intros i' j' Hne. rewrite CostMatrix_at_with_matrix.
      unfold CostMatrix_at, CostMatrix_at_edge. simpl.
      destruct (GetCondensedRowNum cm i') as [r'|] eqn:Hr'; [|done]. simpl.
      destruct (GetCondensedColumnNum cm j') as [c'|] eqn:Hc'; [|done]. simpl.
      rewrite Matrix_get_imap.
      destruct (Matrix_get (cost_matrix_ cm) r' c') as [y|]; [|done]. simpl.
      rewrite decide_False; [done|]. intros [-> ->]. apply Hne.
      destruct Hwf as (_ & Hrows & Hcols).
      pose proof (GetCondensedRowNum_Ok_inv _ _ _ Hr') as Hri'.
      pose proof (GetCondensedColumnNum_Ok_inv _ _ _ Hc') as Hcj'.
      by rewrite (condensing_inj _ _ _ _ _ Hrows Hri' Hri),
                 (condensing_inj _ _ _ _ _ Hcols Hcj' Hcj).
  - intros i j f e. unfold CostMatrix_at, CostMatrix_at_edge,
      CostMatrix_update, CostMatrix_update_edge. simpl.
    destruct (GetCondensedRowNum cm i) as [r|]; [|by intros [= <-]]. simpl.
    destruct (GetCondensedColumnNum cm j) as [c|]; [|by intros [= <-]]. simpl.
    intros Hget. by rewrite (Matrix_update_Err _ _ _ f _ Hget).
Qed.

Lemma CostMatrix_update_read_back_witness :
  (forall i j f x,
     CostMatrix_at matrix4 i j = Ok x ->
     exists cm',
       CostMatrix_update matrix4 i j f = Ok cm' /\
       CostMatrix_at cm' i j = Ok (f x) /\
       (forall i' j', (i', j') <> (i, j) ->
          CostMatrix_at cm' i' j' = CostMatrix_at matrix4 i' j') /\
       row_mapping_ cm' = row_mapping_ matrix4 /\
       column_mapping_ cm' = column_mapping_ matrix4) /\
  (forall i j f e,
     CostMatrix_at matrix4 i j = Err e -> CostMatrix_update matrix4 i j f = Err e).
Proof.
  apply (CostMatrix_update_read_back matrix4). exact matrix4_CostMatrix_wf.
Defined.

(** X15.  [std::for_each] driven by a view's iterators ([begin()], [end()],
    [operator!=], [operator++], [operator*]) applies the function once to
    each cell of that row or column, in place, and touches no other cell
    and no dimension. *)
Theorem for_each_over_view m cv f :
  Matrix_wf m -> view_valid m cv ->
  exists m',
    for_each m (CostVector_begin cv) (CostVector_end m cv) f = Ok m' /\
    view_cells m' cv = f <$> view_cells m cv /\
    (forall i j, in_view cv i j = false -> cell_at m' i j = cell_at m i j) /\
    GetNumRows m' = GetNumRows m /\ GetNumColumns m' = GetNumColumns m.
Proof.
  intros Hwf Hcv. rewrite for_each_spec by done. eexists. split; [reflexivity|].
  split; [|split; [|done]].
  - apply list_eq. intros k.
    rewrite view_cells_lookup; [|by apply Matrix_imap_wf|by apply view_valid_imap].
    rewrite cell_at_imap, list_lookup_fmap, view_cells_lookup by done.
    destruct (in_view_position cv k) as [-> _]. done.
  - intros i j Hout. rewrite cell_at_imap, Hout. by destruct (cell_at m i j).
Qed.

Lemma for_each_over_view_witness :
  exists m',
    for_each (cost_matrix_ matrix4) (CostVector_begin (CostColumn 2))
      (CostVector_end (cost_matrix_ matrix4) (CostColumn 2)) SetInfinite = Ok m' /\
    view_cells m' (CostColumn 2)
    = SetInfinite <$> view_cells (cost_matrix_ matrix4) (CostColumn 2) /\
    (forall i j, in_view (CostColumn 2) i j = false ->
       cell_at m' i j = cell_at (cost_matrix_ matrix4) i j) /\
    GetNumRows m' = GetNumRows (cost_matrix_ matrix4) /\
    GetNumColumns m' = GetNumColumns (cost_matrix_ matrix4).
Proof.
  apply (for_each_over_view (cost_matrix_ matrix4) (CostColumn 2) SetInfinite).
  - vm_compute. repeat constructor.
  - vm_compute. repeat constructor.
Defined.

(** X16.  Reading the whole matrix through [CostMatrix::Iterator]: on a
    matrix that has a column or has no row, the loop from [begin()] to
    [end()] that dereferences and increments reads every stored cell exactly
    once, row after row and each row from its first column to its last. *)
Theorem CostMatrix_Iterator_reads_rows m :
  Matrix_wf m -> 0 < GetNumColumns m \/ GetNumRows m = 0 ->
  CostMatrix_traverse_cells (GetNumRows m * GetNumColumns m) m
    CostMatrix_begin (CostMatrix_end m)
  = Ok (concat (data_ m)).
Proof.
  intros Hwf [HC|HR].
  - replace CostMatrix_begin with (position (GetNumColumns m) 0)
      by (unfold position; by rewrite Nat.Div0.div_0_l, Nat.Div0.mod_0_l).
    rewrite CostMatrix_traverse_cells_from by (done || lia). by rewrite drop_0.
  - rewrite CostMatrix_traverse_cells_unfold.
    unfold CostMatrix_Iterator_neq, CostMatrix_Iterator_eq, CostMatrix_begin,
      CostMatrix_end. simpl. rewrite HR. simpl.
    destruct Hwf as [Hlen _]. unfold GetNumRows in HR. rewrite HR in Hlen.
    by apply nil_length_inv in Hlen as ->.
Qed.

Lemma CostMatrix_Iterator_reads_rows_witness :
  CostMatrix_traverse_cells
    (GetNumRows (cost_matrix_ matrix4) * GetNumColumns (cost_matrix_ matrix4))
    (cost_matrix_ matrix4) CostMatrix_begin (CostMatrix_end (cost_matrix_ matrix4))
  = Ok (concat (data_ (cost_matrix_ matrix4))).
Proof.
  apply (CostMatrix_Iterator_reads_rows (cost_matrix_ matrix4)).
  - vm_compute. repeat constructor.
  - left. vm_compute. repeat constructor.
Defined.

(** * The constructor followed by a reduction *)

Section Compose.
Implicit Types (include exclude : list Edge) (cm : CostMatrix).

Lemma forallb_seq_iff (f : nat -> bool) k :
  forallb f (seq 0 k) = true <-> forall i, i < k -> f i = true.
Proof.
  rewrite forallb_forall. split.
  - intros H i Hi. apply H, list_elem_of_In, elem_of_seq. lia.
  - intros H i [_ Hi]%list_elem_of_In%elem_of_seq. apply H. lia.
Qed.

Lemma rows_have_finite_constructed graph include exclude cm :
  CostMatrix_new graph include exclude = Ok cm ->
  rows_have_finite (cost_matrix_ cm) = true
  <-> forall i, i < GetNumVertices graph -> i ∉ u <$> include ->
        exists j, j < GetNumVertices graph /\ (j ∉ v <$> include) /\
                  {| u := i; v := j |} ∉ exclude.
Proof.
  intros Hnew. destruct (CostMatrix_new_table _ _ _ _ Hnew) as (Hr & _ & _).
  unfold rows_have_finite. rewrite forallb_seq_iff, Hr.
  set (rows := available_vertices (GetNumVertices graph) (u <$> include)).
  assert (forall r i, rows !! r = Some i ->
            has_finite (row_cells (cost_matrix_ cm) r) = true
            <-> exists j, j < GetNumVertices graph /\ (j ∉ v <$> include) /\
                          {| u := i; v := j |} ∉ exclude) as Hrow.
  { intros r i Hi. rewrite (row_cells_constructed _ _ _ _ _ _ Hnew Hi), has_finite_true.
    split.
    - intros (x & (j & -> & Hj)%list_elem_of_fmap & Hfin).
      apply elem_of_available_vertices in Hj as [Hj1 Hj2].
      rewrite infinite_constructed_cell in Hfin. apply bool_decide_eq_false in Hfin.
      by exists j.
    - intros (j & Hj1 & Hj2 & Hex). exists (constructed_cell graph exclude i j). split.
      + apply list_elem_of_fmap_2. by apply elem_of_available_vertices.
      + rewrite infinite_constructed_cell. by apply bool_decide_eq_false. }
  split.
  - intros H i Hi1 Hi2.
    assert (i ∈ rows) as [r Hri]%list_elem_of_lookup
      by (by apply elem_of_available_vertices).
    apply (Hrow r i Hri), H. by apply lookup_lt_Some in Hri.
  - intros H r Hr'. destruct (lookup_lt_is_Some_2 rows r Hr') as [i Hi].
    apply (Hrow r i Hi).
    pose proof (list_elem_of_lookup_2 _ _ _ Hi) as [Hi1 Hi2]%elem_of_available_vertices.
    by apply H.
Qed.

Lemma columns_have_finite_constructed graph include exclude cm :
  CostMatrix_new graph include exclude = Ok cm ->
  columns_have_finite (cost_matrix_ cm) = true
  <-> forall j, j < GetNumVertices graph -> j ∉ v <$> include ->
        exists i, i < GetNumVertices graph /\ (i ∉ u <$> include) /\
                  {| u := i; v := j |} ∉ exclude.
Proof.
  intros Hnew. destruct (CostMatrix_new_table _ _ _ _ Hnew) as (_ & Hc & _).
  unfold columns_have_finite. rewrite forallb_seq_iff, Hc.
  set (cols := available_vertices (GetNumVertices graph) (v <$> include)).
  assert (forall c j, cols !! c = Some j ->
            has_finite (column_cells (cost_matrix_ cm) c) = true
            <-> exists i, i < GetNumVertices graph /\ (i ∉ u <$> include) /\
                          {| u := i; v := j |} ∉ exclude) as Hcol.
  { intros c j Hj. rewrite (column_cells_constructed _ _ _ _ _ _ Hnew Hj), has_finite_true.
    split.
    - intros (x & (i & -> & Hi)%list_elem_of_fmap & Hfin).
      apply elem_of_available_vertices in Hi as [Hi1 Hi2].
      rewrite infinite_constructed_cell in Hfin. apply bool_decide_eq_false in Hfin.
      by exists i.
    - intros (i & Hi1 & Hi2 & Hex). exists (constructed_cell graph exclude i j). split.
      + apply (list_elem_of_fmap_2 (fun i => constructed_cell graph exclude i j)).
        by apply elem_of_available_vertices.
      + rewrite infinite_constructed_cell. by apply bool_decide_eq_false. }
  split.
  - intros H j Hj1 Hj2.
    assert (j ∈ cols) as [c Hcj]%list_elem_of_lookup
      by (by apply elem_of_available_vertices).
    apply (Hcol c j Hcj), H. by apply lookup_lt_Some in Hcj.
  - intros H c Hc'. destruct (lookup_lt_is_Some_2 cols c Hc') as [j Hj].
    apply (Hcol c j Hj).
    pose proof (list_elem_of_lookup_2 _ _ _ Hj) as [Hj1 Hj2]%elem_of_available_vertices.
    by apply H.
Qed.

End Compose.

(** X17.  Reducing a freshly constructed square matrix: [ReduceMatrix]
    returns exactly when every available origin keeps an available
    destination that no exclude edge forbids, and every available destination
    keeps such an origin; otherwise it stops at a failed assertion, and
    never touches storage out of range. *)
Theorem ReduceMatrix_of_constructed graph include exclude cm Size :
  CostMatrix_new graph include exclude = Ok cm ->
  square Size (cost_matrix_ cm) ->
  (is_Ok (ReduceMatrix Size cm) = true <->
     (forall i, i < GetNumVertices graph -> i ∉ u <$> include ->
        exists j, j < GetNumVertices graph /\ (j ∉ v <$> include) /\
                  {| u := i; v := j |} ∉ exclude) /\
     (forall j, j < GetNumVertices graph -> j ∉ v <$> include ->
        exists i, i < GetNumVertices graph /\ (i ∉ u <$> include) /\
                  {| u := i; v := j |} ∉ exclude)) /\
  (is_Ok (ReduceMatrix Size cm) = false -> ReduceMatrix Size cm = Err AssertionFailure).
Proof.
  intros Hnew Hsq. pose proof (CostMatrix_new_in_range _ _ _ _ Hnew) as Hin.
  destruct (CostMatrix_new_spec graph include exclude Hin) as (cm1 & Hnew1 & Hwf & _).
  rewrite Hnew in Hnew1. injection Hnew1 as <-. destruct Hwf as [Hmwf _].
  rewrite ReduceMatrix_eq by done.
  rewrite <-(rows_have_finite_constructed _ _ _ _ Hnew).
  rewrite <-(columns_have_finite_constructed _ _ _ _ Hnew).
  unfold reducible.
  destruct (rows_have_finite (cost_matrix_ cm)),
           (columns_have_finite (cost_matrix_ cm)); simpl; intuition congruence.
Qed.

Lemma ReduceMatrix_of_constructed_witness :
  (is_Ok (ReduceMatrix 4 matrix4) = true <->
     (forall i, i < GetNumVertices graph4 -> i ∉ u <$> [] ->
        exists j, j < GetNumVertices graph4 /\ (j ∉ v <$> []) /\
                  {| u := i; v := j |} ∉ loops4) /\
     (forall j, j < GetNumVertices graph4 -> j ∉ v <$> [] ->
        exists i, i < GetNumVertices graph4 /\ (i ∉ u <$> []) /\
                  {| u := i; v := j |} ∉ loops4)) /\
  (is_Ok (ReduceMatrix 4 matrix4) = false ->
   ReduceMatrix 4 matrix4 = Err AssertionFailure).
Proof.
  apply (ReduceMatrix_of_constructed graph4 [] loops4 matrix4 4).
  - vm_compute. reflexivity.
  - vm_compute. repeat constructor.
Defined.
